(* ===== verification/_CoqProject ===== *)
-Q . S2P
Prelude.v
Mat.v
Downsample.v
F32.v
Resize.v
Pyramid.v
FileDialog.v
Editor.v
EditorProps.v
