(* ===== verification/Prelude.v ===== *)
(** * UnderSee: a verification development of the min/max pyramid kernel

    This library models the image kernel of UnderSee
    ([src/src/min_max_pyramid.h], [src/src/min_max_pyramid.cc]) and the Qt
    editor that drives it ([src/src/editor.cc], [src/src/main.cc]).  It
    proves what makes them correct and records where they differ from
    their spec and comments.

    ** The program
    The kernel has three parts, leaves first:
    - [Downsample] ([min_max_pyramid.cc] lines 11-67) walks a CV_8UC3 image
      with row pointers and reduces every 2x2 block with a byte operator
      [fn].  The edge rules for odd row and column counts are explicit code
      paths.  [DownsampleMin] and [DownsampleMax] (lines 69-75) pass [min]
      and [max].
    - [MinMaxPyramid::PreProcess] (lines 77-119) builds two pyramids by
      iterated downsampling.  The loop is capped at 50 iterations and stops
      at the first level under 2 pixels in both dimensions.  It then
      computes the smallest retained level from [floor(log2 rows)] and
      resizes every retained level back to full size with [cv::resize].
    - [MinMaxPyramid::Relevel] (lines 121-145) stretches each byte between
      the local min and max images.  It uses OpenCV's saturating
      subtraction, single-precision division and multiplication, and the
      rounding, saturating conversion back to 8 bits.
    The editor calls [PreProcess] once per loaded image and sizes its
    slider to [0 .. MaxScale - MinScale].  It calls [Relevel (MaxScale - v)]
    whenever the slider's value changes to [v].

    ** The files
    - [Prelude] (this file): the option notation [let*] for code that can
      fail or has undefined behaviour, integer ranges [zrange], the
      byte predicate, saturation [sat_u8], rounding [div_ne], the hint
      databases and tactics, and the lemmas shared by every component.
    - [Mat]: [cv::Mat] as a record of rows, cols, row stride (step) and a
      flat data list.  It holds checked loads ([load], pixel region only)
      and stores ([store]) at byte offsets, the row pointer [ptr], pixel
      access [px], fresh continuous images [mat_tab], OpenCV's
      element-wise operations, and the test matcher [ImageEq].
    - [Downsample]: the pointer-level model of [Downsample], loop by loop
      on an output buffer of [option] bytes, with the sizes of lines
      14-15 computed in 32-bit [int].  It is refined to a block-reduction
      reference [block_value] (C1), with the properties of min and max
      reduction (C23, C24, C30-C32).  The images of the repository's four
      [Downsample] tests are the witnesses of C23, C24 and C32.
    - [F32]: IEEE binary32 round-to-nearest-even on the values that
      [Relevel] produces, and OpenCV's [cvRound] and
      [saturate_cast<uchar>].  It shows that the float pipeline rounds to
      nearest and is monotone (C29).  [relevel_normal_range] shows that
      the floats [Relevel] computes are normal binary32 numbers.
    - [Resize]: the contract that [PreProcess] relies on from [cv::resize],
      as a class ([Resize]: size, well-formedness, uniform images stay
      uniform, monotonicity) with a bilinear fixed-point instance.
    - [Pyramid]: the record [MinMaxPyramid] with [PreProcess], [MinScale],
      [MaxScale] and [Relevel], all proved against any [Resize].  The
      theorems give the closed form of the layers (C3), the local extrema
      that each level holds (C2), the order of the stored min and max
      images (C8), and the termination of the level loop with a result
      independent of its fuel (C25).  They also give the [int] overflow of
      [Downsample] at a side of [INT_MAX] (C11).  For [Relevel] they give
      the pixel formula (C4, C5), totality and range (C6), the global
      stretch at [MaxScale] (C7), and the black result on a uniform image
      (C9).  They also give the undefined behaviour before [PreProcess]
      (C26).  The repository's pyramid tests are instances of C3, C5 and
      C7, and their images serve as witnesses.  The whole kernel reads
      pixels only, not the row stride: [lvl] is [Proper] for [ImageEq]
      (C10).
    - [FileDialog]: the [QFileDialog] settings that
      [initializeImageFileDialog] makes, with its [static] first-dialog
      flag passed in and out.  It also holds Qt's default-suffix rule for
      the names a dialog returns ([selectedFile]), as Qt 6 applies it to
      the file name, and the desktop's standard paths ([Desktop]).
    - [Editor]: the window as a state machine.  It holds the handlers
      [loadFile], [localitySliderChanged], [open], [save], [keyPressEvent],
      [runAsBatch] and [main], and Qt's slider setters.  The window records
      the first-dialog flag and the dialogs it has shown.  It also holds the
      event loop [run] ([app.exec()] in [main.cc]), which delivers a list of
      events in order to the handlers their widgets enable.
    - [EditorProps]: the theorems about the window.  Reachable states keep
      an invariant, and no reachable event has undefined behaviour (C12).
      The slider never selects the original image (C13), and the image on
      screen always matches the slider position (C14).  Batch mode writes
      exactly the image on screen to the output file (C15).  Reopening a
      file with the slider away from 0 shows a relevel (C16).  The
      reachable states are exactly the states [run] reaches after [main]
      ([reachable_run]).  A visible slider shows a well-formed image of
      the loaded size (C19).  Every scale is shown after at most two
      slider moves (C17), but on a single-scale pyramid the slider stands
      at 0 and slider events change nothing (C28).  Open then Save writes the image that was read, in RGB order (C18).  [Save]
      writes to the first writable name, with [.jpg] added to a name
      without a suffix (C21).  Only the first dialog of the process gets a
      start directory (C22).  In batch mode, Space closes the window even
      when the write fails (C20).  Unreadable files leave the window as it
      was and make batch mode exit with 1 (C27).

    ** Bounds and fuel
    No fuel is invented: every loop is a [Fixpoint] on its own trip count.
    These are [cols/2], [rows/2], the 49 iterations of [PreProcess]'s
    capped loop, [max_layer - min_layer + 1], and the files picked in a
    dialog.  Integers are [Z].  The [int] expressions that can overflow,
    [input.rows + 1] and [input.cols + 1] in [Downsample], are computed by
    [int_add], with [None] for the undefined signed overflow.  A byte is a
    [Z] in [[0,255]].  The kernel theorems cover every image whose [int]
    sides are below [INT_MAX].  A side of exactly [INT_MAX] overflows
    (C11).  For those sides the level loop stops at its own
    [stop_index <= 30], well before the cap of 50 iterations, and any fuel
    from [stop_index + 1] on gives the same layers (C25).  The event loop
    is a [Fixpoint] on the list of events it is given, and liveness (C17)
    says how many events are enough.  Float values are modelled exactly as
    binary32, which is valid because the values [Relevel] builds stay in
    the normal range ([relevel_normal_range]).  Zero ranges give [inf] or
    [NaN], which convert to [INT_MIN] on x86-64 and then saturate to 0 (C9).

    ** Not modelled
    Menus, pixmaps, message boxes, the status bar and image I/O through
    [cv::imread] and [QImageWriter] are pure I/O.  They appear only as the
    names the user accepts in a dialog and the section variables [imread]
    and [write_ok].  A dialog's window, its navigation and the resolution
    of relative names against its directory belong to Qt.  The model keeps
    the settings [initializeImageFileDialog] makes and the default-suffix
    rule.  [cvtColor] is modelled as the channel swap it performs.
    [cv::resize] is a library that the code only calls, so it is an
    interface with laws plus one reference instance.  It is not a
    bit-exact copy of OpenCV, whose SIMD and scalar paths differ.  The
    header declares a three-argument [Downsample] that is never defined,
    so there is nothing to model.  The globals of [main.cc] (lines 20-22)
    are never read.  The [QImage] the editor wraps around [cv_image_]
    ([editor.cc] lines 102-103 and 171-172) is modelled as the pixels it
    shows.  Its [static_cast<int>(step)] fits in an [int] only while
    [3 * cols <= INT_MAX], and what Qt does with a wrapped stride is Qt's,
    so it is not modelled.  The lines of [src] that no definition maps are
    includes, declarations and comments, so nothing more of the program is
    left to model.
*)

From Stdlib Require Import ZArith Lia List Bool.
From stdpp Require Import base list option.
Import ListNotations.

Open Scope Z_scope.

Declare Scope undersee_scope.
Delimit Scope undersee_scope with us.

(** The option monad models code that can go wrong: [None] is undefined
    behaviour (an access outside a buffer, a float-to-int cast of an
    infinity) or an OpenCV assertion. *)
Notation "'let*' x ':=' c1 'in' c2" :=
  (match c1 with Some x => c2 | None => None end)
  (at level 10, x name, c1 at level 100, c2 at level 200) : undersee_scope.
Notation "'let*' ' p ':=' c1 'in' c2" :=
  (match c1 with Some p => c2 | None => None end)
  (at level 10, p pattern, c1 at level 100, c2 at level 200) : undersee_scope.
Open Scope undersee_scope.

Create HintDb undersee.
Create Rewrite HintDb undersee_rw.

(** ** Integer ranges *)

(** [zrange lo n] is [lo, lo+1, ..., lo+n-1]: the values of a C loop
    counter that starts at [lo] and runs [n] times. *)
Fixpoint zrange (lo : Z) (n : nat) : list Z :=
  match n with
  | O => []
  | S n' => lo :: zrange (lo + 1) n'
  end.

(** An unsigned char. *)
Definition is_byte (v : Z) : Prop := 0 <= v < 256.
Definition is_byteb (v : Z) : bool := (0 <=? v) && (v <? 256).

Lemma is_byteb_spec v : is_byteb v = true <-> is_byte v.
Proof. unfold is_byteb, is_byte. rewrite andb_true_iff, Z.leb_le, Z.ltb_lt. lia. Qed.

Lemma length_zrange lo n : length (zrange lo n) = n.
Proof. revert lo; induction n; simpl; auto. Qed.

Lemma zrange_app lo n m : zrange lo (n + m) = zrange lo n ++ zrange (lo + Z.of_nat n) m.
Proof.
  revert lo; induction n as [|n IH]; intros lo; simpl.
  - now rewrite Z.add_0_r.
  - rewrite IH. do 3 f_equal. lia.
Qed.

Lemma zrange_snoc lo n : zrange lo (S n) = zrange lo n ++ [lo + Z.of_nat n].
Proof. rewrite <- Nat.add_1_r, zrange_app. reflexivity. Qed.

Lemma in_zrange x lo n : In x (zrange lo n) <-> lo <= x < lo + Z.of_nat n.
Proof.
  revert lo; induction n as [|n IH]; intros lo; simpl; [lia|].
  rewrite IH. lia.
Qed.

Lemma zrange_nth lo n i : (i < n)%nat -> zrange lo n !! i = Some (lo + Z.of_nat i).
Proof.
  revert lo i; induction n as [|n IH]; intros lo [|i] Hi; simpl; try lia.
  - f_equal; lia.
  - rewrite IH by lia. f_equal; lia.
Qed.

Lemma flat_map_ext_in {A B} (f g : A -> list B) (l : list A) :
  (forall x, In x l -> f x = g x) -> flat_map f l = flat_map g l.
Proof.
  induction l as [|a l IH]; intros Hfg; simpl; auto.
  rewrite Hfg by (simpl; auto). f_equal. apply IH.
  intros x Hx. apply Hfg. simpl; auto.
Qed.

(** ** Boolean checks over ranges, for exhaustive verification by
    evaluation. *)
Lemma forallb_zrange (P : Z -> bool) lo n :
  forallb P (zrange lo n) = true -> forall x, lo <= x < lo + Z.of_nat n -> P x = true.
Proof.
  intros H x Hx. rewrite forallb_forall in H. apply H, in_zrange, Hx.
Qed.

(** ** Lists of optional values: a buffer being written front to back. *)

(** A buffer of which the first [length w] cells hold [w] and the
    remaining [k] cells are still unwritten. *)
Definition partially_written (w : list Z) (k : nat) : list (option Z) :=
  map Some w ++ replicate k None.

Lemma length_partially_written w k : length (partially_written w k) = (length w + k)%nat.
Proof. unfold partially_written. now rewrite length_app, length_map, length_replicate. Qed.

Lemma insert_partially_written w k v :
  <[length w := Some v]> (partially_written w (S k)) = partially_written (w ++ [v]) k.
Proof.
  unfold partially_written. rewrite map_app, <- app_assoc.
  rewrite insert_app_r_alt by (rewrite length_map; lia).
  rewrite length_map, Nat.sub_diag. reflexivity.
Qed.

(** ** Saturation *)

(** [saturate_cast<uchar>] on an [int]. *)
Definition sat_u8 (v : Z) : Z := Z.max 0 (Z.min 255 v).

Lemma sat_u8_byte v : is_byte (sat_u8 v).
Proof. unfold sat_u8, is_byte. lia. Qed.

Lemma sat_u8_id v : is_byte v -> sat_u8 v = v.
Proof. unfold sat_u8, is_byte. lia. Qed.

#[export] Hint Resolve sat_u8_byte : undersee.
#[export] Hint Rewrite length_zrange length_partially_written : undersee_rw.

(** Unfold boolean comparisons on [Z] into propositions. *)
Ltac zbool :=
  repeat match goal with
  | H : (_ <? _) = true |- _ => apply Z.ltb_lt in H
  | H : (_ <? _) = false |- _ => apply Z.ltb_ge in H
  | H : (_ <=? _) = true |- _ => apply Z.leb_le in H
  | H : (_ <=? _) = false |- _ => apply Z.leb_gt in H
  | H : (_ =? _) = true |- _ => apply Z.eqb_eq in H
  | H : (_ =? _) = false |- _ => apply Z.eqb_neq in H
  | H : (_ && _) = true |- _ => apply andb_true_iff in H as [? ?]
  | H : (_ || _) = false |- _ => apply orb_false_iff in H as [? ?]
  end.

(** Case on every boolean [Z] comparison of the goal, then translate. *)
Ltac zcase :=
  repeat match goal with
  | |- context [?a <? ?b] => destruct (a <? b) eqn:?
  | |- context [?a <=? ?b] => destruct (a <=? b) eqn:?
  | |- context [?a =? ?b] => destruct (a =? b) eqn:?
  end; zbool.

(** [lia] after turning [/] and [mod] by constants into equations. *)
Ltac dlia := Z.div_mod_to_equations; lia.

(** ** Rounding *)

(** [n / d] rounded to the nearest integer, ties to even ([d > 0]). *)
Definition div_ne (n d : Z) : Z :=
  let q := n / d in
  let r := n mod d in
  if 2 * r <? d then q
  else if d <? 2 * r then q + 1
  else if Z.even q then q else q + 1.

Lemma div_ne_bounds n d : 0 < d -> n / d <= div_ne n d <= n / d + 1.
Proof. intros Hd. unfold div_ne. zcase; try destruct (Z.even _); lia. Qed.

(** [div_ne n d] is within one half of [n / d]. *)
Lemma div_ne_near n d : 0 < d -> Z.abs (2 * d * div_ne n d - 2 * n) <= d.
Proof.
  intros Hd. pose proof (Z.div_mod n d ltac:(lia)) as E. pose proof (Z.mod_pos_bound n d Hd).
  unfold div_ne. zcase; [| | destruct (Z.even _)]; nia.
Qed.

Lemma div_ne_exact n d : 0 < d -> div_ne (d * n) d = n.
Proof.
  intros Hd. unfold div_ne. rewrite (Z.mul_comm d n), Z.div_mul, Z.mod_mul by lia. zcase; lia.
Qed.


(** ** 32-bit [int] arithmetic *)

Definition INT_MIN : Z := - 2 ^ 31.
Definition INT_MAX : Z := 2 ^ 31 - 1.

(** Signed [int] addition: [None] when the sum leaves the range of [int],
    which is undefined behaviour in C++. *)
Definition int_add (a b : Z) : option Z :=
  let s := a + b in
  if (INT_MIN <=? s) && (s <=? INT_MAX) then Some s else None.

Lemma int_add_ok a b : INT_MIN <= a + b <= INT_MAX -> int_add a b = Some (a + b).
Proof.
  unfold int_add. intros Hs.
  replace ((INT_MIN <=? a + b) && (a + b <=? INT_MAX)) with true
    by (symmetry; apply andb_true_iff; split; apply Z.leb_le; lia).
  reflexivity.
Qed.

Lemma int_add_overflow a b : INT_MAX < a + b -> int_add a b = None.
Proof.
  unfold int_add. intros Hs.
  replace (a + b <=? INT_MAX) with false by (symmetry; apply Z.leb_gt; lia).
  now rewrite andb_false_r.
Qed.

Lemma int_add_some a b s : int_add a b = Some s -> s = a + b /\ INT_MIN <= s <= INT_MAX.
Proof.
  unfold int_add. destruct ((INT_MIN <=? a + b) && (a + b <=? INT_MAX)) eqn:E; [|discriminate].
  intros [= <-]. zbool. auto.
Qed.
