(* ===== verification/Mat.v ===== *)
(** * Mat: the [cv::Mat] buffers the kernel reads and writes

    A [Mat A] is an image of [rows x cols] pixels of three channels of
    type [A] ([CV_8UC3] for [A = Z] holding bytes, [CV_32FC3] for floats).
    It is stored row-major in a flat [data] list: row [r] starts at byte
    offset [ptr m r = r * step m] ([cv::Mat::ptr]), and the stride [step]
    may exceed [3 * cols].  [load] reads one element through a raw pointer
    and fails outside the pixel region of some row.  [store] writes an
    element of a fresh output buffer whose cells start uninitialised.
    [mat_tab] is a freshly allocated continuous image with given contents.
    [ImageEq] is the pixel-wise equality of the repository's test matcher
    ([min_max_pyramid_test.cc] lines 8-48), and [ImageEqb] decides it on
    concrete images. *)

From Stdlib Require Import ZArith Lia List Bool Morphisms.
From stdpp Require Import base list option.
From S2P Require Import Prelude.
Import ListNotations.
Open Scope Z_scope.
Open Scope undersee_scope.

Record Mat (A : Type) := mkMat { rows : Z; cols : Z; step : Z; data : list A }.
Arguments mkMat {A} _ _ _ _.
Arguments rows {A} _.
Arguments cols {A} _.
Arguments step {A} _.
Arguments data {A} _.

(** Well-formedness of a [cv::Mat] of three channels whose elements satisfy
    [P]: the stride holds a row of pixels and the buffer holds every row. *)
Definition mat_wf {A} (P : A -> Prop) (m : Mat A) : Prop :=
  0 <= rows m /\ 0 <= cols m /\ 3 * cols m <= step m /\
  Z.of_nat (length (data m)) = rows m * step m /\ Forall P (data m).

(** A [CV_8UC3] image. *)
Definition wf8 (m : Mat Z) : Prop := mat_wf is_byte m.

(** [cv::Mat::ptr(row)], as a byte offset into [data]. *)
Definition ptr {A} (m : Mat A) (row : Z) : Z := row * step m.

(** The element at byte offset [p]. *)
Definition elt {A} `{Inhabited A} (m : Mat A) (p : Z) : A :=
  from_option id inhabitant (data m !! Z.to_nat p).

(** Channel [k] of pixel [(r, c)]. *)
Definition px {A} `{Inhabited A} (m : Mat A) (r c k : Z) : A := elt m (ptr m r + 3 * c + k).

(** Is offset [p] inside the pixels of some row (not in row padding, not
    outside the buffer)? *)
Definition in_pixels {A} (m : Mat A) (p : Z) : bool :=
  (0 <=? p) && (p <? rows m * step m) && (p mod step m <? 3 * cols m).

(** [*p] on the input: undefined outside the image's pixels. *)
Definition load {A} (m : Mat A) (p : Z) : option A :=
  if in_pixels m p then data m !! Z.to_nat p else None.

(** [*p = v] on an output buffer whose cells are [None] until written. *)
Definition store {A} (p : Z) (v : A) (buf : list (option A)) : option (list (option A)) :=
  if (0 <=? p) && (p <? Z.of_nat (length buf)) then Some (<[Z.to_nat p := Some v]> buf)
  else None.

(** The elements of a continuous image, row by row, pixel by pixel,
    channel by channel. *)
Definition pixel_data {A} (f : Z -> Z -> Z -> A) (r nc : Z) : list A :=
  flat_map (fun c => [f r c 0; f r c 1; f r c 2]) (zrange 0 (Z.to_nat nc)).

Definition tab_data {A} (nr nc : Z) (f : Z -> Z -> Z -> A) : list A :=
  flat_map (fun r => pixel_data f r nc) (zrange 0 (Z.to_nat nr)).

(** [cv::Mat out(nr, nc, type)] filled with [f]: a continuous image. *)
Definition mat_tab {A} (nr nc : Z) (f : Z -> Z -> Z -> A) : Mat A :=
  mkMat nr nc (3 * nc) (tab_data nr nc f).

(** An element-wise unary operation ([convertTo]) producing a new image. *)
Definition mat_map {A B} `{Inhabited A} (f : A -> B) (m : Mat A) : Mat B :=
  mat_tab (rows m) (cols m) (fun r c k => f (px m r c k)).

(** An element-wise binary operation ([cv::subtract], [cv::multiply]):
    OpenCV raises an assertion when the sizes differ. *)
Definition mat_map2 {A B C} `{Inhabited A, Inhabited B} (f : A -> B -> C)
    (a : Mat A) (b : Mat B) : option (Mat C) :=
  if (rows a =? rows b) && (cols a =? cols b)
  then Some (mat_tab (rows a) (cols a) (fun r c k => f (px a r c k) (px b r c k)))
  else None.

(** Saturating subtraction of [uchar]s, as [cv::subtract] does it. *)
Definition sat_sub (a b : Z) : Z := sat_u8 (a - b).

(** The pixels of [(r, c, k)] in range. *)
Definition in_image {A} (m : Mat A) (r c k : Z) : Prop :=
  0 <= r < rows m /\ 0 <= c < cols m /\ 0 <= k < 3.

(** Pixel-wise equality of images: same size, same channel values.  The
    stride and the padding are not compared. *)
Definition ImageEq {A} `{Inhabited A} (a b : Mat A) : Prop :=
  rows a = rows b /\ cols a = cols b /\
  forall r c k, in_image a r c k -> px a r c k = px b r c k.

(** ** Lemmas *)

#[export] Instance ImageEq_equiv {A} `{Inhabited A} : Equivalence (@ImageEq A _).
Proof.
  unfold ImageEq, in_image. split.
  - intros a. auto.
  - intros a b (Hr & Hc & Hp). repeat split; auto. intros r c k Hi.
    symmetry. apply Hp. lia.
  - intros a b d (Hr & Hc & Hp) (Hr' & Hc' & Hp'). repeat split; try congruence.
    intros r c k Hi. rewrite Hp by lia. apply Hp'. lia.
Qed.

Lemma lookup_flat_map_uniform {A B} (g : A -> list B) (n : nat) (l : list A) i j x :
  (forall y, In y l -> length (g y) = n) -> l !! i = Some x -> (j < n)%nat ->
  flat_map g l !! (i * n + j)%nat = g x !! j.
Proof.
  revert i; induction l as [|a l IH]; intros i Hlen Hi Hj; [done|].
  simpl. destruct i as [|i]; simpl in Hi.
  - injection Hi as ->. rewrite lookup_app_l by (rewrite Hlen; simpl; auto; lia). done.
  - rewrite lookup_app_r by (rewrite Hlen; simpl; auto; lia).
    rewrite Hlen by (simpl; auto).
    replace (S i * n + j - n)%nat with (i * n + j)%nat by lia.
    apply IH; auto. intros y Hy. apply Hlen. simpl; auto.
Qed.

Lemma length_flat_map_uniform {A B} (g : A -> list B) (n : nat) (l : list A) :
  (forall y, In y l -> length (g y) = n) -> length (flat_map g l) = (length l * n)%nat.
Proof.
  induction l as [|a l IH]; intros Hlen; simpl; auto.
  rewrite length_app, Hlen by (simpl; auto).
  rewrite IH by (intros y Hy; apply Hlen; simpl; auto). lia.
Qed.

Lemma length_pixel_data {A} (f : Z -> Z -> Z -> A) r nc :
  length (pixel_data f r nc) = (Z.to_nat nc * 3)%nat.
Proof.
  unfold pixel_data. rewrite (length_flat_map_uniform _ 3); [|done].
  now rewrite length_zrange.
Qed.

Lemma length_tab_data {A} nr nc (f : Z -> Z -> Z -> A) :
  length (tab_data nr nc f) = (Z.to_nat nr * (Z.to_nat nc * 3))%nat.
Proof.
  unfold tab_data. rewrite (length_flat_map_uniform _ (Z.to_nat nc * 3)).
  - now rewrite length_zrange.
  - intros. apply length_pixel_data.
Qed.

Lemma lookup_pixel_data {A} (f : Z -> Z -> Z -> A) r nc c k :
  0 <= c < nc -> 0 <= k < 3 ->
  pixel_data f r nc !! Z.to_nat (3 * c + k) = Some (f r c k).
Proof.
  intros Hc Hk. unfold pixel_data.
  replace (Z.to_nat (3 * c + k)) with (Z.to_nat c * 3 + Z.to_nat k)%nat by lia.
  rewrite (lookup_flat_map_uniform _ 3 _ _ _ c); [| done | | lia].
  - assert (k = 0 \/ k = 1 \/ k = 2) as [-> | [-> | ->]] by lia; reflexivity.
  - rewrite zrange_nth by lia. f_equal. lia.
Qed.

Lemma lookup_tab_data {A} nr nc (f : Z -> Z -> Z -> A) r c k :
  0 <= r < nr -> 0 <= c < nc -> 0 <= k < 3 ->
  tab_data nr nc f !! Z.to_nat (r * (3 * nc) + 3 * c + k) = Some (f r c k).
Proof.
  intros Hr Hc Hk. unfold tab_data.
  replace (Z.to_nat (r * (3 * nc) + 3 * c + k))
    with (Z.to_nat r * (Z.to_nat nc * 3) + Z.to_nat (3 * c + k))%nat by lia.
  rewrite (lookup_flat_map_uniform _ (Z.to_nat nc * 3) _ _ _ r).
  - now apply lookup_pixel_data.
  - intros. apply length_pixel_data.
  - rewrite zrange_nth by lia. f_equal. lia.
  - lia.
Qed.

(** Reading back a freshly tabulated image. *)
Lemma px_mat_tab {A} `{Inhabited A} nr nc (f : Z -> Z -> Z -> A) r c k :
  0 <= r < nr -> 0 <= c < nc -> 0 <= k < 3 -> px (mat_tab nr nc f) r c k = f r c k.
Proof.
  intros Hr Hc Hk. unfold px, elt, ptr, mat_tab; simpl.
  rewrite lookup_tab_data; auto.
Qed.

Lemma Forall_tab_data {A} (P : A -> Prop) nr nc f :
  (forall r c k, 0 <= r < nr -> 0 <= c < nc -> 0 <= k < 3 -> P (f r c k)) ->
  Forall P (tab_data nr nc f).
Proof.
  intros HP. unfold tab_data. apply Forall_forall. intros x Hx.
  apply in_flat_map in Hx as (r & Hr & Hx). unfold pixel_data in Hx.
  apply in_flat_map in Hx as (c & Hc & Hx). apply in_zrange in Hr, Hc.
  simpl in Hx. destruct Hx as [<- | [<- | [<- | []]]]; apply HP; lia.
Qed.

(** A tabulated image is well formed when its contents satisfy [P]. *)
Lemma mat_tab_wf {A} (P : A -> Prop) nr nc f :
  0 <= nr -> 0 <= nc ->
  (forall r c k, 0 <= r < nr -> 0 <= c < nc -> 0 <= k < 3 -> P (f r c k)) ->
  mat_wf P (mat_tab nr nc f).
Proof.
  intros Hr Hc HP. unfold mat_wf, mat_tab; simpl.
  rewrite length_tab_data. repeat split; try lia.
  now apply Forall_tab_data.
Qed.

Lemma mat_tab_ext {A} nr nc (f g : Z -> Z -> Z -> A) :
  (forall r c k, 0 <= r < nr -> 0 <= c < nc -> 0 <= k < 3 -> f r c k = g r c k) ->
  mat_tab nr nc f = mat_tab nr nc g.
Proof.
  intros Hfg. unfold mat_tab, tab_data, pixel_data. f_equal.
  apply flat_map_ext_in. intros r Hr%in_zrange.
  apply flat_map_ext_in. intros c Hc%in_zrange.
  rewrite !Hfg by lia. reflexivity.
Qed.

(** Row offsets: the pixel part of row [r] starts at [ptr m r]. *)
Lemma mod_row_offset s r o : 0 <= o < s -> (r * s + o) mod s = o.
Proof.
  intros Ho. rewrite Z.add_comm, Z.mod_add by lia. apply Z.mod_small; lia.
Qed.

(** Reading through a pointer into the pixels of row [R] succeeds. *)
Lemma load_row {A} `{Inhabited A} (P : A -> Prop) (m : Mat A) R o :
  mat_wf P m -> 0 <= R < rows m -> 0 <= o < 3 * cols m ->
  load m (ptr m R + o) = Some (elt m (ptr m R + o)).
Proof.
  intros (Hr0 & Hc0 & Hs & Hlen & _) HR Ho.
  unfold load, in_pixels, elt, ptr.
  rewrite mod_row_offset by lia.
  assert (R * step m + o < rows m * step m) by nia.
  assert (0 <= R * step m) by nia.
  assert (is_Some (data m !! Z.to_nat (R * step m + o))) as [x Hx]
    by (apply lookup_lt_is_Some_2; lia).
  rewrite Hx. zcase; try lia. reflexivity.
Qed.

Lemma load_pixel {A} `{Inhabited A} (P : A -> Prop) (m : Mat A) r c k :
  mat_wf P m -> 0 <= r < rows m -> 0 <= c < cols m -> 0 <= k < 3 ->
  load m (ptr m r + 3 * c + k) = Some (px m r c k).
Proof.
  intros. rewrite <- Z.add_assoc, (load_row P) by (auto; lia).
  unfold px. now rewrite Z.add_assoc.
Qed.

(** Every pixel of a well-formed byte image is a byte (and so is the
    default outside it). *)
Lemma px_byte (m : Mat Z) r c k : wf8 m -> is_byte (px m r c k).
Proof.
  intros (_ & _ & _ & _ & Hall). unfold px, elt.
  destruct (data m !! _) eqn:E; simpl; [eapply Forall_lookup_1; eauto|].
  unfold is_byte, inhabitant; simpl; lia.
Qed.

(** Writing the next cell of a buffer that is written front to back. *)
Lemma store_at (w : list Z) k v p :
  p = Z.of_nat (length w) ->
  store p v (partially_written w (S k)) = Some (partially_written (w ++ [v]) k).
Proof.
  intros ->. unfold store. rewrite length_partially_written.
  zcase; try lia. rewrite Nat2Z.id. f_equal. apply insert_partially_written.
Qed.

(** ** Decidable well-formedness, for concrete images *)

Definition wf8b (m : Mat Z) : bool :=
  (0 <=? rows m) && (0 <=? cols m) && (3 * cols m <=? step m) &&
  (Z.of_nat (length (data m)) =? rows m * step m) && forallb is_byteb (data m).

Lemma wf8b_spec m : wf8b m = true -> wf8 m.
Proof.
  unfold wf8b, wf8, mat_wf. intros H. zbool.
  repeat split; try lia.
  apply Forall_forall. intros x Hx. apply is_byteb_spec.
  rewrite forallb_forall in *. auto.
Qed.

(** The test matcher [ImageEqMatcher::MatchAndExplain] as a boolean:
    sizes first, then every channel of every pixel. *)
Definition ImageEqb (a b : Mat Z) : bool :=
  (rows a =? rows b) && (cols a =? cols b) &&
  forallb (fun r => forallb (fun c => forallb (fun k => px a r c k =? px b r c k) (zrange 0 3))
                            (zrange 0 (Z.to_nat (cols a))))
          (zrange 0 (Z.to_nat (rows a))).

Lemma ImageEqb_spec a b : ImageEqb a b = true -> ImageEq a b.
Proof.
  unfold ImageEqb, ImageEq, in_image. intros H. apply andb_true_iff in H as [Hs H]. zbool.
  split; [lia | split; [lia|]]. intros r c k (Hr & Hc & Hk).
  pose proof (forallb_zrange _ _ _ H r ltac:(lia)) as G1.
  pose proof (forallb_zrange _ _ _ G1 c ltac:(lia)) as G2.
  pose proof (forallb_zrange _ _ _ G2 k ltac:(simpl; lia)) as G3.
  now apply Z.eqb_eq in G3.
Qed.

(** [cv::Mat_<cv::Vec3b>(nr, nc) << p0, p1, ...]: a continuous image
    from its pixels in row-major order. *)
Definition mat_of_pixels (nr nc : Z) (ps : list (Z * Z * Z)) : Mat Z :=
  mkMat nr nc (3 * nc) (flat_map (fun '(a, b, c) => [a; b; c]) ps).

(** [cv::Mat(nr, nc, CV_8UC3, cv::Scalar(a, b, c))]: a constant image. *)
Definition mat_const (nr nc : Z) (a b c : Z) : Mat Z :=
  mat_tab nr nc (fun _ _ k => if k =? 0 then a else if k =? 1 then b else c).

(** ** Element-wise operations on tabulated images *)

Lemma mat_map_tab {A B} `{Inhabited A} (g : A -> B) nr nc f :
  mat_map g (mat_tab nr nc f) = mat_tab nr nc (fun r c k => g (f r c k)).
Proof.
  unfold mat_map. simpl. apply mat_tab_ext. intros. now rewrite px_mat_tab.
Qed.

Lemma mat_map2_same {A B C} `{Inhabited A, Inhabited B} (g : A -> B -> C) a b :
  rows a = rows b -> cols a = cols b ->
  mat_map2 g a b = Some (mat_tab (rows a) (cols a) (fun r c k => g (px a r c k) (px b r c k))).
Proof. intros Hr Hc. unfold mat_map2. rewrite Hr, Hc, !Z.eqb_refl. reflexivity. Qed.

Lemma mat_map2_tab {A B C} `{Inhabited A, Inhabited B} (g : A -> B -> C) nr nc f1 f2 :
  mat_map2 g (mat_tab nr nc f1) (mat_tab nr nc f2) =
  Some (mat_tab nr nc (fun r c k => g (f1 r c k) (f2 r c k))).
Proof.
  rewrite mat_map2_same by reflexivity. simpl. f_equal. apply mat_tab_ext.
  intros. now rewrite !px_mat_tab.
Qed.
