(* ===== verification/Downsample.v ===== *)
(** * Downsample: 2x2 block reduction of a CV_8UC3 image

    [Downsample] ([min_max_pyramid.cc] lines 11-67) is modelled at the
    level of its row pointers.  [col_loop] is the inner loop over column
    pairs (lines 24-38), [odd_col] the odd-column tail (lines 40-44), and
    [row_loop] the outer loop over row pairs (lines 20-45).  [last_row_loop]
    and [corner] cover the odd last row (lines 47-65).  Every read is a
    [load] that fails outside the input's pixels.  Every write is a [store]
    into an output buffer whose cells start uninitialised.

    The reference [downsample_ref] gives each output pixel as the
    combination [block_value] of the available input pixels of its 2x2
    block.  [Downsample_refines_reference] proves that the pointer code computes it
    on every well-formed input, with every access in bounds and every
    output byte written.  The remaining theorems are about the operator:
    order independence for associative, commutative operators, and for
    [min] and [max] the bounds, channel independence and constant
    preservation. *)

From Stdlib Require Import ZArith Lia List Bool Arith.
From stdpp Require Import base list option.
From S2P Require Import Prelude Mat.
Import ListNotations.
Open Scope Z_scope.
Open Scope undersee_scope.

Section Downsample.

(** The combining operator, [std::function<uchar(uchar, uchar)> fn]. *)
Variable fn : Z -> Z -> Z.

(** [fn( *row1++, *row2++)]. *)
Definition fn_at (m : Mat Z) (p q : Z) : option Z :=
  let* a := load m p in
  let* b := load m q in
  Some (fn a b).

(** [fn(fn(acc, *row1++), *row2++)]. *)
Definition fn2_at (m : Mat Z) (acc p q : Z) : option Z :=
  let* a := load m p in
  let* b := load m q in
  Some (fn (fn acc a) b).

(** Lines 28-37: one 2x2 block, three channels, written at [outrow]. *)
Definition block_step (m : Mat Z) (outrow row1 row2 : Z) (buf : list (option Z))
    : option (list (option Z)) :=
  let* r := fn_at m row1 row2 in
  let* g := fn_at m (row1 + 1) (row2 + 1) in
  let* b := fn_at m (row1 + 2) (row2 + 2) in
  let* r := fn2_at m r (row1 + 3) (row2 + 3) in
  let* g := fn2_at m g (row1 + 4) (row2 + 4) in
  let* b := fn2_at m b (row1 + 5) (row2 + 5) in
  let* buf := store outrow r buf in
  let* buf := store (outrow + 1) g buf in
  store (outrow + 2) b buf.

(** Lines 24-38: [for (col = 0; col < input.cols / 2; col++)]; the
    pointers advance by six input and three output bytes per iteration. *)
Fixpoint col_loop (m : Mat Z) (n : nat) (outrow row1 row2 : Z) (buf : list (option Z))
    : option (Z * Z * Z * list (option Z)) :=
  match n with
  | O => Some (outrow, row1, row2, buf)
  | S n' =>
      let* buf := block_step m outrow row1 row2 buf in
      col_loop m n' (outrow + 3) (row1 + 6) (row2 + 6) buf
  end.

(** Lines 40-44: the last column of an odd column count combines the two
    rows only. *)
Definition odd_col (m : Mat Z) (nCols outrow row1 row2 : Z) (buf : list (option Z))
    : option (list (option Z)) :=
  if negb (nCols =? cols m / 2) then
    let* v := fn_at m row1 row2 in
    let* buf := store outrow v buf in
    let* v := fn_at m (row1 + 1) (row2 + 1) in
    let* buf := store (outrow + 1) v buf in
    let* v := fn_at m (row1 + 2) (row2 + 2) in
    store (outrow + 2) v buf
  else Some buf.

(** [output.ptr(row)]: the output is a fresh continuous image, so its
    stride is [3 * nCols]. *)
Definition out_ptr (nCols row : Z) : Z := row * (3 * nCols).

(** Lines 20-45: [for (row = 0; row < input.rows / 2; row++)]. *)
Fixpoint row_loop (m : Mat Z) (nCols : Z) (n : nat) (row : Z) (buf : list (option Z))
    : option (list (option Z)) :=
  match n with
  | O => Some buf
  | S n' =>
      let* '(outrow, row1, row2, buf) :=
        col_loop m (Z.to_nat (cols m / 2)) (out_ptr nCols row)
                 (ptr m (row * 2)) (ptr m (row * 2 + 1)) buf in
      let* buf := odd_col m nCols outrow row1 row2 buf in
      row_loop m nCols n' (row + 1) buf
  end.

(** Lines 50-57: the last row of an odd row count combines horizontal
    neighbours only. *)
Fixpoint last_row_loop (m : Mat Z) (n : nat) (outrow row : Z) (buf : list (option Z))
    : option (Z * Z * list (option Z)) :=
  match n with
  | O => Some (outrow, row, buf)
  | S n' =>
      let* r := load m row in
      let* g := load m (row + 1) in
      let* b := load m (row + 2) in
      let* x := load m (row + 3) in
      let* buf := store outrow (fn r x) buf in
      let* y := load m (row + 4) in
      let* buf := store (outrow + 1) (fn g y) buf in
      let* z := load m (row + 5) in
      let* buf := store (outrow + 2) (fn b z) buf in
      last_row_loop m n' (outrow + 3) (row + 6) buf
  end.

(** Lines 60-64: with both counts odd the corner pixel is copied. *)
Definition corner (m : Mat Z) (nCols outrow row : Z) (buf : list (option Z))
    : option (list (option Z)) :=
  if negb (nCols =? cols m / 2) then
    let* v := load m row in
    let* buf := store outrow v buf in
    let* v := load m (row + 1) in
    let* buf := store (outrow + 1) v buf in
    let* v := load m (row + 2) in
    store (outrow + 2) v buf
  else Some buf.

(** Lines 19-65: the loops on the output buffer of [nRows x nCols]
    pixels. *)
Definition Downsample_buf (m : Mat Z) (nRows nCols : Z) : option (list (option Z)) :=
  let buf0 := replicate (Z.to_nat (nRows * (3 * nCols))) None in
  let* buf := row_loop m nCols (Z.to_nat (rows m / 2)) 0 buf0 in
  if negb (nRows =? rows m / 2) then
    let* '(outrow, row, buf) :=
      last_row_loop m (Z.to_nat (cols m / 2)) (out_ptr nCols (rows m / 2))
                    (ptr m (rows m - 1)) buf in
    corner m nCols outrow row buf
  else Some buf.

(** [cv::Mat Downsample(const cv::Mat input, fn)]: the returned image.
    Cells left unwritten would hold whatever the allocator left; the
    lemma [Downsample_buf_ok] shows there are none. *)
Definition Downsample (m : Mat Z) : option (Mat Z) :=
  (* Lines 14-15: [(input.rows + 1) / 2] in [int]; the sum is not negative,
     so C++'s truncating division is [Z.div]. *)
  let* r1 := int_add (rows m) 1 in
  let* c1 := int_add (cols m) 1 in
  let nRows := r1 / 2 in
  let nCols := c1 / 2 in
  let* buf := Downsample_buf m nRows nCols in
  Some (mkMat nRows nCols (3 * nCols) (map (from_option id 0) buf)).

(** ** Reference: the value of each output byte *)

(** Channel [k] of output pixel [(r, c)]: the input block with top-left
    pixel [(2r, 2c)], combined in the code's order
    [fn(fn(fn(TL, BL), TR), BR)], with the missing row or column left out
    at odd edges. *)
Definition block_value (m : Mat Z) (r c k : Z) : Z :=
  let tl := px m (2 * r) (2 * c) k in
  let bl := px m (2 * r + 1) (2 * c) k in
  let tr := px m (2 * r) (2 * c + 1) k in
  let br := px m (2 * r + 1) (2 * c + 1) k in
  if 2 * r + 1 <? rows m then
    if 2 * c + 1 <? cols m then fn (fn (fn tl bl) tr) br else fn tl bl
  else if 2 * c + 1 <? cols m then fn tl tr else tl.

Definition downsample_ref (m : Mat Z) : Mat Z :=
  mat_tab ((rows m + 1) / 2) ((cols m + 1) / 2) (block_value m).

End Downsample.

(** Lines 69-75: the two operators the program uses. *)
Definition max_u8 (a b : Z) : Z := if a >? b then a else b.
Definition min_u8 (a b : Z) : Z := if a <? b then a else b.

Definition DownsampleMax (m : Mat Z) : option (Mat Z) := Downsample max_u8 m.
Definition DownsampleMin (m : Mat Z) : option (Mat Z) := Downsample min_u8 m.

(** ** The pointer code computes the reference *)

Section Correctness.

Variable fn : Z -> Z -> Z.
Variable m : Mat Z.
Hypothesis Hwf : wf8 m.

(** Rewrite every load through a row pointer into the element read. *)
Local Ltac loads :=
  rewrite <- ?Z.add_assoc;
  repeat (rewrite (load_row is_byte m) by (first [exact Hwf | dlia])).

(** Rewrite every store at the write front of the output buffer. *)
Local Ltac stores :=
  repeat (rewrite store_at by (rewrite ?length_app; simpl; lia); cbv beta iota).

(** Two sums of element reads are equal when their offsets are. *)
Local Ltac same_elts :=
  repeat match goal with
  | |- elt ?m ?p = elt ?m ?q => apply (f_equal (elt m)); unfold ptr; lia
  | |- _ => f_equal
  end.

Local Ltac split_tuple :=
  repeat match goal with
  | |- Some _ = Some _ => f_equal
  | |- (_, _) = (_, _) => f_equal
  end.

Local Ltac bv :=
  unfold block_value, px; zcase; try dlia;
  rewrite <- ?app_assoc; simpl; do 2 f_equal; same_elts.

Lemma block_step_ok r c w k :
  0 <= r -> r * 2 + 1 < rows m -> 0 <= c -> c * 2 + 1 < cols m ->
  block_step fn m (Z.of_nat (length w)) (ptr m (r * 2) + 6 * c) (ptr m (r * 2 + 1) + 6 * c)
    (partially_written w (S (S (S k)))) =
  Some (partially_written (w ++ [block_value fn m r c 0; block_value fn m r c 1;
                                 block_value fn m r c 2]) k).
Proof.
  intros. pose proof Hwf as (_ & _ & Hs & _).
  unfold block_step, fn_at, fn2_at. loads. cbv beta iota. stores. bv.
Qed.

(** The output triples of a run of blocks. *)
Definition block_triples (r : Z) (cs : list Z) : list Z :=
  flat_map (fun c => [block_value fn m r c 0; block_value fn m r c 1; block_value fn m r c 2]) cs.

Lemma length_block_triples r cs : length (block_triples r cs) = (length cs * 3)%nat.
Proof. unfold block_triples. now rewrite (length_flat_map_uniform _ 3). Qed.

Lemma col_loop_ok r n : forall c0 w k o p1 p2,
  0 <= r -> r * 2 + 1 < rows m -> 0 <= c0 -> 2 * (c0 + Z.of_nat n) <= cols m ->
  o = Z.of_nat (length w) -> p1 = ptr m (r * 2) + 6 * c0 -> p2 = ptr m (r * 2 + 1) + 6 * c0 ->
  col_loop fn m n o p1 p2 (partially_written w (3 * n + k)) =
  Some (o + 3 * Z.of_nat n, p1 + 6 * Z.of_nat n, p2 + 6 * Z.of_nat n,
        partially_written (w ++ block_triples r (zrange c0 n)) k).
Proof.
  induction n as [|n IH]; intros c0 w k o p1 p2 Hr Hr2 Hc0 Hc Ho Hp1 Hp2.
  - simpl. rewrite !Z.add_0_r, app_nil_r. reflexivity.
  - replace (3 * S n + k)%nat with (S (S (S (3 * n + k))))%nat by lia.
    cbn [col_loop]. subst. rewrite block_step_ok by lia; cbv beta iota.
    rewrite (IH (c0 + 1)) by (rewrite ?length_app; simpl; lia).
    rewrite <- app_assoc. split_tuple; lia.
Qed.

Lemma block_triples_app r cs ds :
  block_triples r (cs ++ ds) = block_triples r cs ++ block_triples r ds.
Proof. unfold block_triples. apply flat_map_app. Qed.

(** The number of output columns beyond the column pairs: one when the
    column count is odd. *)
Definition extra_cols : nat := Z.to_nat ((cols m + 1) / 2 - cols m / 2).

Lemma odd_col_ok r w k o p1 p2 :
  0 <= r -> r * 2 + 1 < rows m ->
  o = Z.of_nat (length w) -> p1 = ptr m (r * 2) + 6 * (cols m / 2) ->
  p2 = ptr m (r * 2 + 1) + 6 * (cols m / 2) ->
  odd_col fn m ((cols m + 1) / 2) o p1 p2 (partially_written w (3 * extra_cols + k)) =
  Some (partially_written (w ++ block_triples r (zrange (cols m / 2) extra_cols)) k).
Proof.
  intros Hr Hr2 Ho Hp1 Hp2. pose proof Hwf as (_ & Hc0 & Hs & _).
  unfold odd_col, extra_cols. destruct (Z.eqb_spec ((cols m + 1) / 2) (cols m / 2)) as [E|E].
  - rewrite E, Z.sub_diag. simpl. now rewrite app_nil_r.
  - replace (Z.to_nat ((cols m + 1) / 2 - cols m / 2)) with 1%nat by dlia.
    change (3 * 1 + k)%nat with (S (S (S k))).
    simpl negb; cbv iota. unfold fn_at. subst. loads. cbv beta iota. stores.
    unfold block_triples. simpl. bv.
Qed.

(** One output row: the column pairs and the odd column, followed by the
    rest [K] of the computation. *)
Lemma row_body_ok {B} (K : list (option Z) -> option B) r w k :
  0 <= r -> r * 2 + 1 < rows m -> Z.of_nat (length w) = out_ptr ((cols m + 1) / 2) r ->
  (let* '(outrow, row1, row2, buf) :=
     col_loop fn m (Z.to_nat (cols m / 2)) (out_ptr ((cols m + 1) / 2) r)
              (ptr m (r * 2)) (ptr m (r * 2 + 1))
              (partially_written w (Z.to_nat (3 * ((cols m + 1) / 2)) + k)) in
   let* buf := odd_col fn m ((cols m + 1) / 2) outrow row1 row2 buf in K buf) =
  K (partially_written (w ++ pixel_data (block_value fn m) r ((cols m + 1) / 2)) k).
Proof.
  intros Hr Hr2 Hlen. pose proof Hwf as (_ & Hc0 & _).
  replace (Z.to_nat (3 * ((cols m + 1) / 2)) + k)%nat
    with (3 * Z.to_nat (cols m / 2) + (3 * extra_cols + k))%nat by (unfold extra_cols; dlia).
  rewrite (col_loop_ok r _ 0) by (rewrite ?Z.add_0_r; unfold out_ptr in *; dlia); cbv beta iota.
  rewrite (odd_col_ok r)
    by (rewrite ?length_app, ?length_block_triples, ?length_zrange; unfold out_ptr in *; dlia).
  cbv beta iota. rewrite <- app_assoc, <- block_triples_app.
  replace (zrange (cols m / 2) extra_cols)
    with (zrange (0 + Z.of_nat (Z.to_nat (cols m / 2))) extra_cols) by (f_equal; dlia).
  rewrite <- zrange_app. unfold pixel_data, extra_cols. do 6 f_equal. dlia.
Qed.

(** The rows of the output, one per pair of input rows. *)
Definition out_rows (rs : list Z) : list Z :=
  flat_map (fun r => pixel_data (block_value fn m) r ((cols m + 1) / 2)) rs.

Lemma length_out_rows rs :
  length (out_rows rs) = (length rs * (Z.to_nat ((cols m + 1) / 2) * 3))%nat.
Proof.
  unfold out_rows. rewrite (length_flat_map_uniform _ (Z.to_nat ((cols m + 1) / 2) * 3)); auto.
  intros; apply length_pixel_data.
Qed.

Lemma row_loop_ok n : forall row w k,
  0 <= row -> row + Z.of_nat n <= rows m / 2 ->
  Z.of_nat (length w) = out_ptr ((cols m + 1) / 2) row ->
  row_loop fn m ((cols m + 1) / 2) n row
    (partially_written w (n * Z.to_nat (3 * ((cols m + 1) / 2)) + k)) =
  Some (partially_written (w ++ out_rows (zrange row n)) k).
Proof.
  pose proof Hwf as (Hr0 & Hc0 & _).
  induction n as [|n IH]; intros row w k Hrow Hn Hlen.
  - simpl. now rewrite app_nil_r.
  - replace (S n * Z.to_nat (3 * ((cols m + 1) / 2)) + k)%nat
      with (Z.to_nat (3 * ((cols m + 1) / 2)) + (n * Z.to_nat (3 * ((cols m + 1) / 2)) + k))%nat
      by lia.
    cbn [row_loop]. rewrite row_body_ok by dlia.
    rewrite IH by (rewrite ?length_app, ?length_pixel_data; unfold out_ptr in *; dlia).
    rewrite <- app_assoc. reflexivity.
Qed.

Lemma last_row_loop_ok R n : forall c0 w k o p,
  R * 2 + 1 = rows m -> 0 <= c0 -> 2 * (c0 + Z.of_nat n) <= cols m ->
  o = Z.of_nat (length w) -> p = ptr m (R * 2) + 6 * c0 ->
  last_row_loop fn m n o p (partially_written w (3 * n + k)) =
  Some (o + 3 * Z.of_nat n, p + 6 * Z.of_nat n,
        partially_written (w ++ block_triples R (zrange c0 n)) k).
Proof.
  pose proof Hwf as (Hr0 & Hc0 & Hs & _).
  induction n as [|n IH]; intros c0 w k o p HR Hc0' Hc Ho Hp.
  - simpl. rewrite !Z.add_0_r, app_nil_r. reflexivity.
  - replace (3 * S n + k)%nat with (S (S (S (3 * n + k))))%nat by lia.
    cbn [last_row_loop]. subst. loads. cbv beta iota. stores.
    rewrite (IH (c0 + 1)) by (rewrite ?length_app; simpl; lia).
    split_tuple; try lia. rewrite <- app_assoc. unfold block_triples; simpl. bv.
Qed.

Lemma corner_ok R w k o p :
  R * 2 + 1 = rows m -> o = Z.of_nat (length w) -> p = ptr m (R * 2) + 6 * (cols m / 2) ->
  corner m ((cols m + 1) / 2) o p (partially_written w (3 * extra_cols + k)) =
  Some (partially_written (w ++ block_triples R (zrange (cols m / 2) extra_cols)) k).
Proof.
  intros HR Ho Hp. pose proof Hwf as (Hr0 & Hc0 & Hs & _).
  unfold corner, extra_cols. destruct (Z.eqb_spec ((cols m + 1) / 2) (cols m / 2)) as [E|E].
  - rewrite E, Z.sub_diag. simpl. now rewrite app_nil_r.
  - replace (Z.to_nat ((cols m + 1) / 2 - cols m / 2)) with 1%nat by dlia.
    change (3 * 1 + k)%nat with (S (S (S k))).
    simpl negb; cbv iota. subst. loads. cbv beta iota. stores.
    unfold block_triples. simpl. bv.
Qed.

(** The odd last row of the output and its corner. *)
Lemma last_row_ok w k :
  rows m mod 2 = 1 -> Z.of_nat (length w) = out_ptr ((cols m + 1) / 2) (rows m / 2) ->
  (let* '(outrow, row, buf) :=
     last_row_loop fn m (Z.to_nat (cols m / 2)) (out_ptr ((cols m + 1) / 2) (rows m / 2))
                   (ptr m (rows m - 1))
                   (partially_written w (Z.to_nat (3 * ((cols m + 1) / 2)) + k)) in
   corner m ((cols m + 1) / 2) outrow row buf) =
  Some (partially_written (w ++ pixel_data (block_value fn m) (rows m / 2) ((cols m + 1) / 2)) k).
Proof.
  intros Hodd Hlen. pose proof Hwf as (Hr0 & Hc0 & _).
  replace (Z.to_nat (3 * ((cols m + 1) / 2)) + k)%nat
    with (3 * Z.to_nat (cols m / 2) + (3 * extra_cols + k))%nat by (unfold extra_cols; dlia).
  replace (ptr m (rows m - 1)) with (ptr m (rows m / 2 * 2) + 6 * 0) by (unfold ptr; f_equal; dlia).
  rewrite (last_row_loop_ok (rows m / 2) _ 0) by (unfold out_ptr in *; dlia); cbv beta iota.
  rewrite (corner_ok (rows m / 2))
    by (rewrite ?length_app, ?length_block_triples, ?length_zrange; unfold out_ptr in *; dlia).
  rewrite <- app_assoc, <- block_triples_app.
  replace (zrange (cols m / 2) extra_cols)
    with (zrange (0 + Z.of_nat (Z.to_nat (cols m / 2))) extra_cols) by (f_equal; dlia).
  rewrite <- zrange_app. unfold pixel_data, extra_cols. do 5 f_equal. dlia.
Qed.

(** [Downsample] writes every byte of its output, in order, and each byte
    is the reference value: no access is out of bounds and no output byte
    is left uninitialised. *)
Lemma Downsample_buf_ok :
  Downsample_buf fn m ((rows m + 1) / 2) ((cols m + 1) / 2) =
  Some (map Some (tab_data ((rows m + 1) / 2) ((cols m + 1) / 2) (block_value fn m))).
Proof.
  pose proof Hwf as (Hr0 & Hc0 & _).
  assert (Htab : tab_data ((rows m + 1) / 2) ((cols m + 1) / 2) (block_value fn m) =
                 out_rows (zrange 0 (Z.to_nat ((rows m + 1) / 2)))) by reflexivity.
  unfold Downsample_buf. rewrite Htab.
  set (X := Z.to_nat (3 * ((cols m + 1) / 2))).
  destruct (Z.eqb_spec ((rows m + 1) / 2) (rows m / 2)) as [E|E]; simpl negb; cbv iota.
  - replace (replicate _ None) with (partially_written [] (Z.to_nat (rows m / 2) * X + 0))
      by (unfold partially_written, X; simpl; f_equal;
          rewrite (Z2Nat.inj_mul ((rows m + 1) / 2)) by dlia; rewrite E;
          rewrite Nat.add_0_r; reflexivity).
    rewrite row_loop_ok by (simpl; unfold out_ptr; dlia).
    unfold partially_written. simpl. rewrite !app_nil_r, E. reflexivity.
  - replace (replicate _ None) with (partially_written [] (Z.to_nat (rows m / 2) * X + X))
      by (unfold partially_written, X; simpl; f_equal;
          rewrite (Z2Nat.inj_mul ((rows m + 1) / 2)) by dlia;
          replace (Z.to_nat ((rows m + 1) / 2)) with (Z.to_nat (rows m / 2) + 1)%nat by dlia;
          rewrite Nat.mul_add_distr_r, Nat.mul_1_l; reflexivity).
    rewrite row_loop_ok by (simpl; unfold out_ptr; dlia); cbv beta iota.
    rewrite <- (Nat.add_0_r X). subst X.
    rewrite last_row_ok
      by (try dlia; simpl; rewrite length_out_rows, length_zrange, !Nat2Z.inj_mul, !Z2Nat.id by dlia;
          unfold out_ptr; lia).
    unfold partially_written. simpl. rewrite !app_nil_r.
    replace (Z.to_nat ((rows m + 1) / 2)) with (S (Z.to_nat (rows m / 2))) by dlia.
    rewrite zrange_snoc. unfold out_rows. rewrite flat_map_app. simpl. rewrite app_nil_r.
    do 4 f_equal. dlia.
Qed.

(** [Downsample] returns the reference image when [rows + 1] and
    [cols + 1] fit in an [int]. *)
Lemma Downsample_ok :
  rows m < INT_MAX -> cols m < INT_MAX -> Downsample fn m = Some (downsample_ref fn m).
Proof.
  pose proof Hwf as (Hr0 & Hc0 & _). intros Hr Hc.
  unfold Downsample. rewrite !int_add_ok by (unfold INT_MIN; lia). cbv beta iota.
  rewrite Downsample_buf_ok.
  unfold downsample_ref, mat_tab. do 2 f_equal.
  rewrite map_map. apply map_id.
Qed.

End Correctness.

(** ** Size and well-formedness of the output *)

(** [Downsample] succeeds only if [rows + 1] and [cols + 1] fit in an
    [int]. *)
Lemma Downsample_some_dims fn m o :
  Downsample fn m = Some o -> rows m < INT_MAX /\ cols m < INT_MAX.
Proof.
  unfold Downsample.
  destruct (int_add (rows m) 1) as [r1|] eqn:Er; [|discriminate].
  destruct (int_add (cols m) 1) as [c1|] eqn:Ec; [|discriminate].
  intros _. apply int_add_some in Er, Ec. lia.
Qed.

(** At [INT_MAX] rows or columns, [input.rows + 1] overflows. *)
Lemma Downsample_overflow fn m :
  INT_MAX <= rows m \/ INT_MAX <= cols m -> Downsample fn m = None.
Proof.
  unfold Downsample. intros [H | H].
  - now rewrite int_add_overflow by lia.
  - destruct (int_add (rows m) 1); [|reflexivity]. cbv beta iota.
    now rewrite (int_add_overflow (cols m)) by lia.
Qed.

Lemma downsample_ref_dims fn m :
  rows (downsample_ref fn m) = (rows m + 1) / 2 /\ cols (downsample_ref fn m) = (cols m + 1) / 2.
Proof. split; reflexivity. Qed.

(** Which input pixels a block combines: the [(i, j)] offsets from its
    top-left pixel that lie inside the image. *)
Definition in_block (m : Mat Z) (r c i j : Z) : Prop :=
  0 <= i <= 1 /\ 0 <= j <= 1 /\ 2 * r + i < rows m /\ 2 * c + j < cols m.

(** An output pixel in range has its top-left input pixel in range. *)
Lemma out_range_in_block (m : Mat Z) r c :
  0 <= rows m -> 0 <= cols m ->
  0 <= r < (rows m + 1) / 2 -> 0 <= c < (cols m + 1) / 2 -> in_block m r c 0 0.
Proof. unfold in_block. intros. dlia. Qed.

Section Operator.

Variable fn : Z -> Z -> Z.

(** [block_value] only reads channel [k] of the pixels of its block. *)
Lemma block_value_ext (a b : Mat Z) r c k :
  rows a = rows b -> cols a = cols b -> in_block a r c 0 0 ->
  (forall i j, in_block a r c i j -> px a (2 * r + i) (2 * c + j) k = px b (2 * r + i) (2 * c + j) k) ->
  block_value fn a r c k = block_value fn b r c k.
Proof.
  intros Hr Hc H0 Hpx. unfold in_block in *. unfold block_value. rewrite <- Hr, <- Hc.
  assert (E00 : px a (2 * r) (2 * c) k = px b (2 * r) (2 * c) k).
  { rewrite <- (Z.add_0_r (2 * r)), <- (Z.add_0_r (2 * c)). apply Hpx. lia. }
  assert (E10 : 2 * r + 1 < rows a -> px a (2 * r + 1) (2 * c) k = px b (2 * r + 1) (2 * c) k).
  { rewrite <- (Z.add_0_r (2 * c)). intros; apply Hpx. lia. }
  assert (E01 : 2 * c + 1 < cols a -> px a (2 * r) (2 * c + 1) k = px b (2 * r) (2 * c + 1) k).
  { rewrite <- (Z.add_0_r (2 * r)). intros; apply Hpx. lia. }
  pose proof (Hpx 1 1) as E11.
  zcase; rewrite ?E00, ?E10, ?E01, ?E11 by lia; reflexivity.
Qed.

(** A property of the pixels of a block that [fn] preserves holds of the
    reduced value. *)
Lemma block_value_ind (P : Z -> Prop) m r c k :
  (forall a b, P a -> P b -> P (fn a b)) -> in_block m r c 0 0 ->
  (forall i j, in_block m r c i j -> P (px m (2 * r + i) (2 * c + j) k)) ->
  P (block_value fn m r c k).
Proof.
  intros Hfn H0 Hp. unfold in_block in *.
  assert (P00 : P (px m (2 * r) (2 * c) k)).
  { rewrite <- (Z.add_0_r (2 * r)), <- (Z.add_0_r (2 * c)). apply Hp. lia. }
  assert (P10 : 2 * r + 1 < rows m -> P (px m (2 * r + 1) (2 * c) k)).
  { rewrite <- (Z.add_0_r (2 * c)). intros; apply Hp. lia. }
  assert (P01 : 2 * c + 1 < cols m -> P (px m (2 * r) (2 * c + 1) k)).
  { rewrite <- (Z.add_0_r (2 * r)). intros; apply Hp. lia. }
  pose proof (Hp 1 1) as P11.
  unfold block_value. zcase; repeat apply Hfn; auto; first [apply P10 | apply P01 | apply P11]; lia.
Qed.

(** The reference only depends on the pixels: images equal pixel by pixel
    reduce to the same image, whatever their strides. *)
#[export] Instance downsample_ref_proper : Proper (ImageEq ==> eq) (downsample_ref fn).
Proof.
  intros a b (Hr & Hc & Hpx). unfold downsample_ref. rewrite <- Hr, <- Hc.
  apply mat_tab_ext. intros r c k Hr' Hc' Hk.
  apply block_value_ext; auto.
  - unfold in_block. dlia.
  - intros i j (Hi & Hj & Hri & Hcj). apply Hpx. unfold in_image. lia.
Qed.

End Operator.

(** ** Selective operators: min and max *)

(** An operator that returns one of its arguments, and that argument is
    [R]-related to both: [max] for [>=], [min] for [<=]. *)
Section Selective.

Variable fn : Z -> Z -> Z.
Variable R : Z -> Z -> Prop.
Context `{PreOrder Z R}.
Hypothesis fn_sel : forall a b, fn a b = a \/ fn a b = b.
Hypothesis fn_l : forall a b, R (fn a b) a.
Hypothesis fn_r : forall a b, R (fn a b) b.

Lemma sel_up_l x a b : R x a -> R (fn x b) a.
Proof. intros. etransitivity; [apply fn_l | assumption]. Qed.

Lemma sel_up_r x a b : R x a -> R (fn b x) a.
Proof. intros. etransitivity; [apply fn_r | assumption]. Qed.

#[local] Hint Resolve sel_up_l sel_up_r fn_l fn_r : undersee.
#[local] Hint Extern 1 (R ?a ?a) => reflexivity : undersee.

(** The reduced value is [R]-related to every pixel of the block. *)
Lemma block_value_bound m r c k i j :
  in_block m r c i j -> R (block_value fn m r c k) (px m (2 * r + i) (2 * c + j) k).
Proof.
  unfold in_block. intros (Hi & Hj & Hri & Hcj). unfold block_value.
  assert (i = 0 \/ i = 1) as [-> | ->] by lia; assert (j = 0 \/ j = 1) as [-> | ->] by lia;
    rewrite ?Z.add_0_r; zcase; try lia; eauto 6 with undersee.
Qed.

(** The reduced value is one of the pixels of the block. *)
Lemma block_value_attained m r c k :
  in_block m r c 0 0 ->
  exists i j, in_block m r c i j /\ block_value fn m r c k = px m (2 * r + i) (2 * c + j) k.
Proof.
  unfold in_block. intros (_ & _ & Hr & Hc). unfold block_value.
  zcase;
    repeat match goal with
           | |- context [fn ?a ?b] => destruct (fn_sel a b) as [-> | ->]
           end;
    first [ exists 0, 0; rewrite !Z.add_0_r; split; [lia | reflexivity]
          | exists 1, 0; rewrite !Z.add_0_r; split; [lia | reflexivity]
          | exists 0, 1; rewrite !Z.add_0_r; split; [lia | reflexivity]
          | exists 1, 1; split; [lia | reflexivity] ].
Qed.

End Selective.

Lemma max_u8_sel a b : max_u8 a b = a \/ max_u8 a b = b.
Proof. unfold max_u8. destruct (a >? b); auto. Qed.
Lemma max_u8_l a b : max_u8 a b >= a.
Proof. unfold max_u8. destruct (Z.gtb_spec a b); lia. Qed.
Lemma max_u8_r a b : max_u8 a b >= b.
Proof. unfold max_u8. destruct (Z.gtb_spec a b); lia. Qed.
Lemma min_u8_sel a b : min_u8 a b = a \/ min_u8 a b = b.
Proof. unfold min_u8. destruct (a <? b); auto. Qed.
Lemma min_u8_l a b : min_u8 a b <= a.
Proof. unfold min_u8. destruct (Z.ltb_spec a b); lia. Qed.
Lemma min_u8_r a b : min_u8 a b <= b.
Proof. unfold min_u8. destruct (Z.ltb_spec a b); lia. Qed.

#[export] Instance Zge_preorder : PreOrder Z.ge.
Proof. split; intros ?; lia. Qed.

(** ** The program's reductions *)

Lemma Downsample_px fn m o r c k :
  wf8 m -> Downsample fn m = Some o -> in_image o r c k ->
  px o r c k = block_value fn m r c k /\ in_block m r c 0 0.
Proof.
  intros Hwf Hd Hi. destruct (Downsample_some_dims fn m o Hd) as [Hr Hc].
  rewrite Downsample_ok in Hd by assumption.
  injection Hd as <-. unfold in_image, downsample_ref in *; simpl in Hi.
  pose proof Hwf as (Hr0 & Hc0 & _). clear Hwf.
  split; [apply px_mat_tab | apply out_range_in_block]; lia.
Qed.

(** The reference reduction of a well-formed image is well formed. *)
Lemma downsample_ref_wf fn m :
  (forall a b, is_byte a -> is_byte b -> is_byte (fn a b)) -> wf8 m -> wf8 (downsample_ref fn m).
Proof.
  intros Hfn Hwf. pose proof Hwf as (Hr0 & Hc0 & _).
  apply mat_tab_wf; try dlia. intros r c k Hr Hc Hk.
  apply block_value_ind; auto; [unfold in_block; dlia|].
  intros i j _. now apply px_byte.
Qed.

(** The output of a byte operator is a well-formed image of
    [ceil(rows/2) x ceil(cols/2)] pixels. *)
Lemma Downsample_wf fn m :
  (forall a b, is_byte a -> is_byte b -> is_byte (fn a b)) -> wf8 m ->
  rows m < INT_MAX -> cols m < INT_MAX ->
  exists o, Downsample fn m = Some o /\ wf8 o /\
            rows o = (rows m + 1) / 2 /\ cols o = (cols m + 1) / 2.
Proof.
  intros Hfn Hwf Hr Hc. exists (downsample_ref fn m). rewrite Downsample_ok by assumption.
  split; [reflexivity|]. split; [now apply downsample_ref_wf | split; reflexivity].
Qed.

(** A uniform image reduces, under an idempotent operator, to a uniform
    image of the same colour. *)
Lemma downsample_ref_uniform fn m (v : Z -> Z) :
  (forall a, fn a a = a) -> 0 <= rows m -> 0 <= cols m ->
  (forall r c k, in_image m r c k -> px m r c k = v k) ->
  forall r c k, in_image (downsample_ref fn m) r c k -> px (downsample_ref fn m) r c k = v k.
Proof.
  intros Hid Hr0 Hc0 Hv r c k (Hr & Hc & Hk). cbn in Hr, Hc.
  unfold downsample_ref. rewrite px_mat_tab by lia.
  apply (block_value_ind fn (fun x => x = v k)).
  - intros a b -> ->. apply Hid.
  - apply out_range_in_block; lia.
  - intros i j Hb. apply Hv. unfold in_block, in_image in *. lia.
Qed.

Lemma max_u8_Zmax a b : max_u8 a b = Z.max a b.
Proof. unfold max_u8. destruct (Z.gtb_spec a b); lia. Qed.

Lemma min_u8_Zmin a b : min_u8 a b = Z.min a b.
Proof. unfold min_u8. destruct (Z.ltb_spec a b); lia. Qed.

Lemma max_u8_byte a b : is_byte a -> is_byte b -> is_byte (max_u8 a b).
Proof. rewrite max_u8_Zmax. unfold is_byte. lia. Qed.

Lemma min_u8_byte a b : is_byte a -> is_byte b -> is_byte (min_u8 a b).
Proof. rewrite min_u8_Zmin. unfold is_byte. lia. Qed.

#[export] Hint Resolve max_u8_byte min_u8_byte : undersee.

(** ** Images of the repository's tests ([min_max_pyramid_test.cc]) *)

Module TestImages.

(** Lines 65-67 and 78-80. *)
Definition four : Mat Z := mat_of_pixels 2 2 [(1, 2, 3); (4, 5, 6); (7, 8, 9); (10, 11, 12)].

(** Lines 89-93. *)
Definition odd3 : Mat Z :=
  mat_of_pixels 3 3 [(1, 2, 3); (4, 5, 6); (40, 50, 60); (7, 8, 9); (10, 11, 12);
                     (100, 110, 120); (70, 80, 90); (71, 81, 91); (101, 111, 121)].

(** Lines 99-101. *)
Definition odd3_max : Mat Z :=
  mat_of_pixels 2 2 [(10, 11, 12); (100, 110, 120); (71, 81, 91); (101, 111, 121)].

(** The same image as [odd3] in a buffer whose rows are padded to 10 bytes. *)
Definition odd3_padded : Mat Z :=
  mkMat 3 3 10 [1; 2; 3; 4; 5; 6; 40; 50; 60; 0;
                7; 8; 9; 10; 11; 12; 100; 110; 120; 0;
                70; 80; 90; 71; 81; 91; 101; 111; 121; 0].

End TestImages.

(** ** Theorems *)

(** C1 [Downsample] is memory safe and computes the block reduction: on
    every well-formed CV_8UC3 image and for every operator, it performs no
    access outside the input's pixels or the output buffer.  It writes
    every output byte, in order, so none is left uninitialised.  It
    returns the reference image [downsample_ref], whose pixel [(r, c)]
    combines the available pixels of input block [(2r, 2c)].  This holds
    for every [int] size below [INT_MAX], where [rows + 1] and [cols + 1]
    of lines 14-15 fit in an [int]. *)
Theorem Downsample_refines_reference fn m :
  wf8 m -> rows m < INT_MAX -> cols m < INT_MAX ->
  Downsample_buf fn m ((rows m + 1) / 2) ((cols m + 1) / 2) =
    Some (map Some (tab_data ((rows m + 1) / 2) ((cols m + 1) / 2) (block_value fn m))) /\
  Downsample fn m = Some (downsample_ref fn m).
Proof. intros Hwf Hr Hc. split; [apply Downsample_buf_ok | apply Downsample_ok]; assumption. Qed.

Lemma Downsample_refines_reference_witness :
  (wf8 TestImages.odd3 /\ rows TestImages.odd3 < INT_MAX /\ cols TestImages.odd3 < INT_MAX) /\
  Downsample_buf max_u8 TestImages.odd3 2 2 =
    Some (map Some (tab_data 2 2 (block_value max_u8 TestImages.odd3))) /\
  Downsample max_u8 TestImages.odd3 = Some (downsample_ref max_u8 TestImages.odd3).
Proof.
  assert (H : wf8 TestImages.odd3) by (apply wf8b_spec; vm_compute; reflexivity).
  assert (Hr : rows TestImages.odd3 < INT_MAX) by (vm_compute; reflexivity).
  assert (Hc : cols TestImages.odd3 < INT_MAX) by (vm_compute; reflexivity).
  split; [exact (conj H (conj Hr Hc)) | apply (Downsample_refines_reference max_u8 _ H Hr Hc)].
Defined.

(** C24 [DownsampleMax] halves the size (rounding up) and sets every
    output channel to the maximum of that channel over the input pixels
    of its 2x2 block that exist. *)
Theorem DownsampleMax_block_max m :
  wf8 m -> rows m < INT_MAX -> cols m < INT_MAX ->
  exists o, DownsampleMax m = Some o /\ wf8 o /\
    rows o = (rows m + 1) / 2 /\ cols o = (cols m + 1) / 2 /\
    forall r c k, in_image o r c k ->
      (forall i j, in_block m r c i j -> px m (2 * r + i) (2 * c + j) k <= px o r c k) /\
      (exists i j, in_block m r c i j /\ px o r c k = px m (2 * r + i) (2 * c + j) k).
Proof.
  intros Hwf Hr0 Hc0.
  destruct (Downsample_wf max_u8 m max_u8_byte Hwf Hr0 Hc0) as (o & Ho & Hwo & Hr & Hc).
  exists o. unfold DownsampleMax. do 4 (split; [assumption|]).
  intros r c k Hi. destruct (Downsample_px max_u8 m o r c k Hwf Ho Hi) as [-> H0]. split.
  - intros i j Hb. apply Z.ge_le, (block_value_bound max_u8 Z.ge max_u8_l max_u8_r); exact Hb.
  - apply (block_value_attained max_u8 max_u8_sel); exact H0.
Qed.

Lemma DownsampleMax_block_max_witness :
  DownsampleMax TestImages.odd3 = Some TestImages.odd3_max /\
  (wf8 TestImages.odd3 /\ rows TestImages.odd3 < INT_MAX /\ cols TestImages.odd3 < INT_MAX) /\
  exists o, DownsampleMax TestImages.odd3 = Some o /\ wf8 o /\ rows o = 2 /\ cols o = 2 /\
    forall r c k, in_image o r c k ->
      (forall i j, in_block TestImages.odd3 r c i j ->
         px TestImages.odd3 (2 * r + i) (2 * c + j) k <= px o r c k) /\
      (exists i j, in_block TestImages.odd3 r c i j /\
         px o r c k = px TestImages.odd3 (2 * r + i) (2 * c + j) k).
Proof.
  assert (H : wf8 TestImages.odd3) by (apply wf8b_spec; vm_compute; reflexivity).
  assert (Hd : 3 < INT_MAX) by (vm_compute; reflexivity).
  split; [vm_compute; reflexivity|].
  split; [exact (conj H (conj Hd Hd)) | apply (DownsampleMax_block_max _ H Hd Hd)].
Defined.

(** C23 [DownsampleMin] halves the size (rounding up) and sets every
    output channel to the minimum of that channel over the input pixels
    of its 2x2 block that exist. *)
Theorem DownsampleMin_block_min m :
  wf8 m -> rows m < INT_MAX -> cols m < INT_MAX ->
  exists o, DownsampleMin m = Some o /\ wf8 o /\
    rows o = (rows m + 1) / 2 /\ cols o = (cols m + 1) / 2 /\
    forall r c k, in_image o r c k ->
      (forall i j, in_block m r c i j -> px o r c k <= px m (2 * r + i) (2 * c + j) k) /\
      (exists i j, in_block m r c i j /\ px o r c k = px m (2 * r + i) (2 * c + j) k).
Proof.
  intros Hwf Hr0 Hc0.
  destruct (Downsample_wf min_u8 m min_u8_byte Hwf Hr0 Hc0) as (o & Ho & Hwo & Hr & Hc).
  exists o. unfold DownsampleMin. do 4 (split; [assumption|]).
  intros r c k Hi. destruct (Downsample_px min_u8 m o r c k Hwf Ho Hi) as [-> H0]. split.
  - intros i j Hb. apply (block_value_bound min_u8 Z.le min_u8_l min_u8_r); exact Hb.
  - apply (block_value_attained min_u8 min_u8_sel); exact H0.
Qed.

Lemma DownsampleMin_block_min_witness :
  (wf8 TestImages.four /\ rows TestImages.four < INT_MAX /\ cols TestImages.four < INT_MAX) /\
  exists o, DownsampleMin TestImages.four = Some o /\ wf8 o /\ rows o = 1 /\ cols o = 1 /\
    forall r c k, in_image o r c k ->
      (forall i j, in_block TestImages.four r c i j ->
         px o r c k <= px TestImages.four (2 * r + i) (2 * c + j) k) /\
      (exists i j, in_block TestImages.four r c i j /\
         px o r c k = px TestImages.four (2 * r + i) (2 * c + j) k).
Proof.
  assert (H : wf8 TestImages.four) by (apply wf8b_spec; vm_compute; reflexivity).
  assert (Hd : 2 < INT_MAX) by (vm_compute; reflexivity).
  split; [exact (conj H (conj Hd Hd)) | apply (DownsampleMin_block_min _ H Hd Hd)].
Defined.

(** C30 [Downsample] respects the row stride: two well-formed images with
    the same pixels reduce to the same result, whatever their strides and
    the contents of their row padding.  At [INT_MAX] rows or columns both
    overflow alike. *)
Theorem Downsample_stride_independent fn a b :
  wf8 a -> wf8 b -> ImageEq a b -> Downsample fn a = Downsample fn b.
Proof.
  intros Ha Hb Hab. pose proof Hab as (Er & Ec & _).
  destruct (Z_lt_le_dec (rows a) INT_MAX) as [Hr | Hr];
  [destruct (Z_lt_le_dec (cols a) INT_MAX) as [Hc | Hc]|].
  - rewrite (Downsample_ok fn a Ha), (Downsample_ok fn b Hb) by congruence.
    f_equal. now apply downsample_ref_proper.
  - rewrite !Downsample_overflow by (right; congruence). reflexivity.
  - rewrite !Downsample_overflow by (left; congruence). reflexivity.
Qed.

Lemma Downsample_stride_independent_witness :
  wf8 TestImages.odd3 /\ wf8 TestImages.odd3_padded /\
  ImageEq TestImages.odd3 TestImages.odd3_padded /\
  Downsample max_u8 TestImages.odd3 = Downsample max_u8 TestImages.odd3_padded.
Proof.
  assert (Ha : wf8 TestImages.odd3) by (apply wf8b_spec; vm_compute; reflexivity).
  assert (Hb : wf8 TestImages.odd3_padded) by (apply wf8b_spec; vm_compute; reflexivity).
  assert (Hab : ImageEq TestImages.odd3 TestImages.odd3_padded).
  { split; [reflexivity | split; [reflexivity|]]. intros r c k (Hr & Hc & Hk); simpl in *.
    assert (r = 0 \/ r = 1 \/ r = 2) as [-> | [-> | ->]] by lia;
    assert (c = 0 \/ c = 1 \/ c = 2) as [-> | [-> | ->]] by lia;
    assert (k = 0 \/ k = 1 \/ k = 2) as [-> | [-> | ->]] by lia; reflexivity. }
  split; [exact Ha | split; [exact Hb | split; [exact Hab |]]].
  apply (Downsample_stride_independent max_u8 _ _ Ha Hb Hab).
Defined.

(** C31 Channels are never mixed: if two well-formed images of the same size
    agree on channel [k], their reductions agree on channel [k]. *)
Theorem Downsample_channel_independent fn a b k oa ob :
  wf8 a -> wf8 b -> rows a = rows b -> cols a = cols b ->
  (forall r c, 0 <= r < rows a -> 0 <= c < cols a -> px a r c k = px b r c k) ->
  Downsample fn a = Some oa -> Downsample fn b = Some ob ->
  forall r c, 0 <= r < rows oa -> 0 <= c < cols oa -> 0 <= k < 3 ->
  px oa r c k = px ob r c k.
Proof.
  intros Ha Hb Hr Hc Hk Hoa Hob r c Hr' Hc' Hk'.
  assert (Ia : in_image oa r c k) by (split; [|split]; assumption).
  destruct (Downsample_px fn a oa r c k Ha Hoa Ia) as [-> H0].
  destruct (Downsample_some_dims fn a oa Hoa) as [Ra Ca].
  destruct (Downsample_some_dims fn b ob Hob) as [Rb Cb].
  rewrite (Downsample_ok fn b Hb Rb Cb) in Hob. injection Hob as <-.
  rewrite (Downsample_ok fn a Ha Ra Ca) in Hoa. injection Hoa as <-.
  unfold downsample_ref in *. simpl in Hr', Hc'.
  rewrite px_mat_tab by (rewrite <- ?Hr, <- ?Hc; lia).
  apply block_value_ext; auto.
  intros i j (Hi & Hj & Hri & Hcj). apply Hk; lia.
Qed.

Lemma Downsample_channel_independent_witness :
  let a := TestImages.four in
  let b := mat_of_pixels 2 2 [(1, 0, 0); (4, 0, 0); (7, 0, 0); (10, 0, 0)] in
  wf8 a /\ wf8 b /\ rows a = rows b /\ cols a = cols b /\
  (forall r c, 0 <= r < rows a -> 0 <= c < cols a -> px a r c 0 = px b r c 0) /\
  Downsample max_u8 a = Some (mat_of_pixels 1 1 [(10, 11, 12)]) /\
  Downsample max_u8 b = Some (mat_of_pixels 1 1 [(10, 0, 0)]) /\
  (forall r c, 0 <= r < 1 -> 0 <= c < 1 -> 0 <= 0 < 3 ->
   px (mat_of_pixels 1 1 [(10, 11, 12)]) r c 0 = px (mat_of_pixels 1 1 [(10, 0, 0)]) r c 0).
Proof.
  intros a b.
  assert (Ha : wf8 a) by (apply wf8b_spec; vm_compute; reflexivity).
  assert (Hb : wf8 b) by (apply wf8b_spec; vm_compute; reflexivity).
  assert (Hab : forall r c, 0 <= r < rows a -> 0 <= c < cols a -> px a r c 0 = px b r c 0).
  { intros r c Hr Hc; simpl in *.
    assert (r = 0 \/ r = 1) as [-> | ->] by lia;
    assert (c = 0 \/ c = 1) as [-> | ->] by lia; reflexivity. }
  assert (Da : Downsample max_u8 a = Some (mat_of_pixels 1 1 [(10, 11, 12)]))
    by (vm_compute; reflexivity).
  assert (Db : Downsample max_u8 b = Some (mat_of_pixels 1 1 [(10, 0, 0)]))
    by (vm_compute; reflexivity).
  do 7 (split; [first [assumption | reflexivity] |]).
  apply (Downsample_channel_independent max_u8 a b 0 _ _ Ha Hb eq_refl eq_refl Hab Da Db).
Defined.

(** C32 A uniform image reduces to a uniform image of the same colour when
    the operator is idempotent, as [min] and [max] are. *)
Theorem Downsample_constant fn m v o :
  (forall a, fn a a = a) -> wf8 m ->
  (forall r c k, in_image m r c k -> px m r c k = v k) ->
  Downsample fn m = Some o ->
  forall r c k, in_image o r c k -> px o r c k = v k.
Proof.
  intros Hid Hwf Hv Ho r c k Hi.
  destruct (Downsample_px fn m o r c k Hwf Ho Hi) as [-> (_ & _ & Hr & Hc)].
  destruct Hi as (Hr0 & Hc0 & Hk).
  apply (block_value_ind fn (fun x => x = v k)).
  - intros a b -> ->. apply Hid.
  - unfold in_block; lia.
  - intros i j Hb. apply Hv. unfold in_block, in_image in *. lia.
Qed.

Lemma Downsample_constant_witness :
  let m := mat_const 2 2 1 2 3 in
  let v := fun k => if k =? 0 then 1 else if k =? 1 then 2 else 3 in
  (forall a, min_u8 a a = a) /\ wf8 m /\
  (forall r c k, in_image m r c k -> px m r c k = v k) /\
  Downsample min_u8 m = Some (mat_const 1 1 1 2 3) /\
  (forall r c k, in_image (mat_const 1 1 1 2 3) r c k -> px (mat_const 1 1 1 2 3) r c k = v k).
Proof.
  intros m v.
  assert (Hid : forall a, min_u8 a a = a) by (intros; unfold min_u8; now rewrite Z.ltb_irrefl).
  assert (Hwf : wf8 m) by (apply wf8b_spec; vm_compute; reflexivity).
  assert (Hv : forall r c k, in_image m r c k -> px m r c k = v k).
  { intros r c k (Hr & Hc & Hk). unfold m, mat_const. rewrite px_mat_tab by (simpl in *; lia).
    reflexivity. }
  assert (Ho : Downsample min_u8 m = Some (mat_const 1 1 1 2 3)) by (vm_compute; reflexivity).
  do 4 (split; [assumption|]).
  apply (Downsample_constant min_u8 m v _ Hid Hwf Hv Ho).
Defined.
