(* ===== verification/F32.v ===== *)
(** * F32: the single-precision arithmetic of [Relevel]

    [Relevel] ([min_max_pyramid.cc] lines 138-143) converts two byte
    images to [CV_32F].  It computes [255.f / range_f] and
    [zeroed_f.mul(...)] in single precision, then converts back with
    [convertTo(CV_8U)], which is OpenCV's [saturate_cast<uchar>(float)]:
    [cvRound] (round half to even) and then saturation to [[0,255]].

    The values that arise are nonnegative, so a value of type [f32] is
    one of three things: a finite [F32 m e] with value [m * 2^e], [+inf]
    (from [255/0]) or [NaN] (from [0 * inf]).  [round32 n d] is the
    binary32 number nearest to [n/d], ties to even, computed exactly on
    integers.  This is IEEE round-to-nearest-even for values in the normal
    range.  [relevel_normal_range] shows that every value [Relevel] builds
    lies in that range, so no subnormal or overflow case is needed.

    [cvRound] of an infinity or a NaN is the x86-64 conversion result
    [INT_MIN] ([cvtss2si]'s integer indefinite value).  Saturation then
    maps it to 0. *)

From Stdlib Require Import ZArith Lia List Bool.
From S2P Require Import Prelude.
Import ListNotations.
Open Scope Z_scope.

Inductive f32 := F32 (m e : Z) | F32inf | F32nan.

(** [floor (log2 (n / d))] for [n, d > 0]. *)
Definition log2_q (n d : Z) : Z :=
  let k := Z.log2 n - Z.log2 d in
  if 0 <=? k then (if d * 2 ^ k <=? n then k else k - 1)
  else (if d <=? n * 2 ^ (- k) then k else k - 1).

(** The binary32 value nearest to [n / d], ties to even: a 24-bit
    significand scaled by [2^e] ([n >= 0], [d > 0], normal range). *)
Definition round32 (n d : Z) : f32 :=
  if n =? 0 then F32 0 0
  else
    let e := log2_q n d - 23 in
    if 0 <=? e then F32 (div_ne n (d * 2 ^ e)) e
    else F32 (div_ne (n * 2 ^ (- e)) d) e.

(** The value [m * 2^e] of a finite float as a fraction [num / den]. *)
Definition frac (m e : Z) : Z * Z :=
  if 0 <=? e then (m * 2 ^ e, 1) else (m, 2 ^ (- e)).

(** [convertTo(CV_32F)] of a byte: exact. *)
Definition f32_of_u8 (v : Z) : f32 := F32 v 0.

(** IEEE division on nonnegative operands. *)
Definition f32_div (a b : f32) : f32 :=
  match a, b with
  | F32 ma ea, F32 mb eb =>
      if mb =? 0 then (if ma =? 0 then F32nan else F32inf)
      else let '(na, da) := frac ma ea in
           let '(nb, db) := frac mb eb in
           round32 (na * db) (da * nb)
  | F32 _ _, F32inf => F32 0 0
  | F32inf, F32 _ _ => F32inf
  | _, _ => F32nan
  end.

(** IEEE multiplication on nonnegative operands. *)
Definition f32_mul (a b : f32) : f32 :=
  match a, b with
  | F32 ma ea, F32 mb eb =>
      let '(na, da) := frac ma ea in
      let '(nb, db) := frac mb eb in
      round32 (na * nb) (da * db)
  | F32 m _, F32inf | F32inf, F32 m _ => if m =? 0 then F32nan else F32inf
  | F32inf, F32inf => F32inf
  | _, _ => F32nan
  end.

(** The conversion of a non-finite float to [int] on x86-64. *)
Definition cvRound_nonfinite : Z := - 2 ^ 31.

(** [cvRound]: round half to even. *)
Definition cvRound (x : f32) : Z :=
  match x with
  | F32 m e => let '(n, d) := frac m e in div_ne n d
  | _ => cvRound_nonfinite
  end.

(** [saturate_cast<uchar>(float)]. *)
Definition f32_to_u8 (x : f32) : Z := sat_u8 (cvRound x).

(** One element of [Relevel]'s float pipeline (lines 138-143): the
    zeroed value [z] and the range [r] as floats, [255.f / r], the
    product, and the conversion back to a byte. *)
Definition stretch (z r : Z) : Z :=
  f32_to_u8 (f32_mul (f32_of_u8 z) (f32_div (F32 255 0) (f32_of_u8 r))).

(** ** Exhaustive facts about [stretch] on bytes *)

(** A finite float in the normal binary32 range (or zero), so that
    [round32] is IEEE rounding there. *)
Definition normal32b (x : f32) : bool :=
  match x with
  | F32 m e => (m =? 0) || ((2 ^ 23 <=? m) && (m <=? 2 ^ 24) && (-126 <=? e + 23) && (e + 23 <=? 127))
  | _ => false
  end.

(** [s] is [255 z / r] rounded to nearest, ties to even; or, on an exact
    tie, rounded down; in both cases saturated at 255. *)
Definition nearest_or_tie (z r s : Z) : bool :=
  (s =? Z.min 255 (div_ne (255 * z) r)) ||
  ((2 * ((255 * z) mod r) =? r) && (s =? Z.min 255 (255 * z / r))).

(** The check for one range value [r]: the quotient [255.f / r] is
    computed once, as in the code, then every zeroed value is tried. *)
Definition stretch_check_r (r : Z) : bool :=
  let q := f32_div (F32 255 0) (f32_of_u8 r) in
  normal32b q &&
  forallb (fun z => let p := f32_mul (f32_of_u8 z) q in
                    normal32b p && nearest_or_tie z r (f32_to_u8 p)) (zrange 0 256).

Lemma stretch_check_all : forallb stretch_check_r (zrange 1 255) = true.
Proof. vm_compute. reflexivity. Qed.

Lemma stretch_check_at z r :
  0 <= z <= 255 -> 1 <= r <= 255 ->
  normal32b (f32_div (F32 255 0) (f32_of_u8 r)) = true /\
  normal32b (f32_mul (f32_of_u8 z) (f32_div (F32 255 0) (f32_of_u8 r))) = true /\
  nearest_or_tie z r (stretch z r) = true.
Proof.
  intros Hz Hr. pose proof (forallb_zrange _ _ _ stretch_check_all r ltac:(simpl; lia)) as H.
  unfold stretch_check_r in H. apply andb_true_iff in H as [Hq H].
  pose proof (forallb_zrange _ _ _ H z ltac:(simpl; lia)) as Hp.
  apply andb_true_iff in Hp as [Hp Hs]. auto.
Qed.



(** [stretch] is [255 z / r] rounded to a nearest integer and saturated. *)
Lemma stretch_cases z r :
  0 <= z <= 255 -> 1 <= r <= 255 ->
  stretch z r = Z.min 255 (div_ne (255 * z) r) \/
  (2 * ((255 * z) mod r) = r /\ stretch z r = Z.min 255 (255 * z / r)).
Proof.
  intros Hz Hr. destruct (stretch_check_at z r Hz Hr) as (_ & _ & H).
  unfold nearest_or_tie in H. rewrite orb_true_iff, andb_true_iff, !Z.eqb_eq in H.
  exact H.
Qed.





(** ** Rounding of the stretch *)

(** The float pipeline of [Relevel] rounds to nearest.  For a zeroed
    value [z] within a nonzero range [r], the byte it produces is within
    one half of the exact [255 z / r].  Off exact ties it is the
    round-half-to-even value. *)
Lemma stretch_rounds_to_nearest z r :
  0 <= z <= r -> r <= 255 -> 1 <= r ->
  Z.abs (2 * r * stretch z r - 2 * (255 * z)) <= r /\
  (2 * ((255 * z) mod r) <> r -> stretch z r = div_ne (255 * z) r).
Proof.
  intros Hz Hr Hr1.
  assert (Hq : 255 * z / r <= 255) by (apply Z.div_le_upper_bound; lia).
  pose proof (div_ne_near (255 * z) r ltac:(lia)) as Hn.
  assert (Hle : div_ne (255 * z) r <= 255) by nia.
  pose proof (Z.div_mod (255 * z) r ltac:(lia)) as E.
  destruct (stretch_cases z r ltac:(lia) ltac:(lia)) as [-> | [Ht ->]].
  - rewrite Z.min_r by lia. split; [exact Hn | reflexivity].
  - rewrite Z.min_r by lia. split; [lia | intros; contradiction].
Qed.


(** The stretch maps the local minimum to 0 and the local maximum to
    exactly 255, for every nonzero range, despite the single-precision
    rounding of [255.f / range]. *)
Lemma stretch_endpoints r : 1 <= r <= 255 -> stretch 0 r = 0 /\ stretch r r = 255.
Proof.
  intros Hr. split.
  - destruct (stretch_cases 0 r ltac:(lia) Hr) as [-> | [Ht _]].
    + replace (255 * 0) with (r * 0) by lia. rewrite div_ne_exact by lia. reflexivity.
    + replace ((255 * 0) mod r) with 0 in Ht by (symmetry; apply Z.mod_0_l; lia). lia.
  - destruct (stretch_cases r r ltac:(lia) Hr) as [-> | [Ht _]].
    + rewrite (Z.mul_comm 255 r), div_ne_exact by lia. reflexivity.
    + rewrite Z.mod_mul in Ht; lia.
Qed.

(** A flat neighbourhood (zero range) gives 0 whatever the pixel.
    [255.f / 0] is [+inf] and [z * inf] is [+inf] or [NaN], and on x86-64
    both convert to [INT_MIN], which saturates to 0. *)
Lemma stretch_zero_range z : stretch z 0 = 0.
Proof.
  unfold stretch, f32_of_u8, f32_div, f32_mul. simpl.
  destruct (z =? 0); reflexivity.
Qed.

(** A zeroed value at least the range saturates to 255. *)
Lemma stretch_sat z r : 1 <= r <= z -> z <= 255 -> stretch z r = 255.
Proof.
  intros Hr Hz.
  assert (Hq : 255 <= 255 * z / r) by (apply Z.div_le_lower_bound; nia).
  pose proof (div_ne_bounds (255 * z) r ltac:(lia)).
  destruct (stretch_cases z r ltac:(lia) ltac:(lia)) as [-> | [_ ->]]; lia.
Qed.

(** ** Theorems *)

(** C29 The stretch preserves the order of pixel values: for a fixed
    nonzero range, a larger zeroed value never gives a smaller byte. *)
Theorem stretch_monotone z1 z2 r :
  0 <= z1 <= z2 -> z2 <= 255 -> 1 <= r <= 255 -> stretch z1 r <= stretch z2 r.
Proof.
  intros H1 H2 Hr. destruct (Z.eq_dec z1 z2) as [<- | Hne]; [lia|].
  assert (Hq : 255 * z1 / r + 1 <= 255 * z2 / r).
  { rewrite <- (Z.div_add (255 * z1) 1 r) by lia. apply Z.div_le_mono; lia. }
  pose proof (div_ne_bounds (255 * z1) r ltac:(lia)).
  pose proof (div_ne_bounds (255 * z2) r ltac:(lia)).
  destruct (stretch_cases z1 r ltac:(lia) ltac:(lia)) as [-> | [_ ->]];
  destruct (stretch_cases z2 r ltac:(lia) ltac:(lia)) as [-> | [_ ->]]; lia.
Qed.

Lemma stretch_monotone_witness :
  (0 <= 3 <= 4 /\ 4 <= 255 /\ 1 <= 7 <= 255) /\ stretch 3 7 <= stretch 4 7.
Proof. split; [lia|]. apply stretch_monotone; lia. Defined.

(** The model's exact rounding is the IEEE one on [Relevel]'s floats:
    every float that [Relevel] computes from bytes with a nonzero
    range, [255.f / range] and [zeroed * (255.f / range)], is zero or a
    normal binary32 number.  So the exact rounding [round32] is IEEE
    round-to-nearest-even on them. *)
Lemma relevel_normal_range z r :
  0 <= z <= 255 -> 1 <= r <= 255 ->
  normal32b (f32_div (F32 255 0) (f32_of_u8 r)) = true /\
  normal32b (f32_mul (f32_of_u8 z) (f32_div (F32 255 0) (f32_of_u8 r))) = true.
Proof. intros Hz Hr. destruct (stretch_check_at z r Hz Hr) as (Hq & Hp & _). auto. Qed.
