(* ===== verification/Resize.v ===== *)
(** * Resize: what [PreProcess] needs from [cv::resize]

    [PreProcess] ([min_max_pyramid.cc] lines 108-114) resizes each
    retained pyramid level back to the size of the original image with
    [cv::resize(level, out, out.size(), 0, 0, cv::INTER_LINEAR)].  OpenCV
    is a library that the code only calls.  The class [Resize] states the
    contract the kernel relies on: the result is a well-formed byte image
    of the requested size, a uniform image stays uniform, and the resize is
    monotone, since the interpolation weights are nonnegative.  The
    theorems about [PreProcess] and [Relevel] are proved against this
    class.

    [bilinear] is an instance that follows OpenCV's fixed-point scheme
    for 8-bit [INTER_LINEAR].  Source coordinates use half-pixel centres
    and are clamped at the border.  Weights are scaled by
    [2^11 = INTER_RESIZE_COEF_SCALE].  A horizontal pass is followed by a
    vertical pass with rounding shift [(x + 2^21) >> 22].  The weights are
    computed from the exact coordinate rather than its float rounding, so
    this instance is a reference, not a bit-exact copy (OpenCV's SIMD and
    scalar paths differ too). *)

From Stdlib Require Import ZArith Lia List Bool.
From stdpp Require Import base list option.
From S2P Require Import Prelude Mat.
Import ListNotations.
Open Scope Z_scope.

Class Resize := {
  (** [cv::resize(src, dst, cv::Size(nc, nr), 0, 0, cv::INTER_LINEAR)] *)
  resize : Mat Z -> Z -> Z -> Mat Z;
  resize_wf : forall src nr nc,
    wf8 src -> 1 <= rows src -> 1 <= cols src -> 0 <= nr -> 0 <= nc ->
    wf8 (resize src nr nc) /\ rows (resize src nr nc) = nr /\ cols (resize src nr nc) = nc;
  resize_const : forall src nr nc (v : Z -> Z),
    wf8 src -> 1 <= rows src -> 1 <= cols src ->
    (forall r c k, in_image src r c k -> px src r c k = v k) ->
    forall r c k, 0 <= r < nr -> 0 <= c < nc -> 0 <= k < 3 ->
    px (resize src nr nc) r c k = v k;
  (** Interpolation weights are nonnegative, so the resize is monotone. *)
  resize_mono : forall a b nr nc,
    wf8 a -> wf8 b -> rows a = rows b -> cols a = cols b -> 1 <= rows a -> 1 <= cols a ->
    (forall r c k, in_image a r c k -> px a r c k <= px b r c k) ->
    forall r c k, 0 <= r < nr -> 0 <= c < nc -> 0 <= k < 3 ->
    px (resize a nr nc) r c k <= px (resize b nr nc) r c k
}.

(** A 1x1 image is uniform, so every resize of it repeats its pixel. *)
Lemma resize_1x1 `{Resize} src nr nc r c k :
  wf8 src -> rows src = 1 -> cols src = 1 ->
  0 <= r < nr -> 0 <= c < nc -> 0 <= k < 3 ->
  px (resize src nr nc) r c k = px src 0 0 k.
Proof.
  intros Hwf Hr Hc Hr' Hc' Hk.
  apply (resize_const src nr nc (fun k => px src 0 0 k)); auto; try lia.
  intros r' c' k' (? & ? & ?). replace r' with 0 by lia. replace c' with 0 by lia. reflexivity.
Qed.

(** ** A bilinear instance *)

(** The source index and the weight (out of 2048) of the next source
    pixel for destination index [d], on an axis of [s] source and [n]
    destination pixels: [fx = (d + 0.5) * s / n - 0.5], clamped. *)
Definition lin_tap (s n d : Z) : Z * Z :=
  let num := (2 * d + 1) * s - n in
  let den := 2 * n in
  let sx := num / den in
  if sx <? 0 then (0, 0)
  else if s - 1 <=? sx then (s - 1, 0)
  else (sx, div_ne ((num - sx * den) * 2048) den).

Definition bilinear_px (src : Mat Z) (nr nc : Z) (r c k : Z) : Z :=
  let '(sy, b1) := lin_tap (rows src) nr r in
  let '(sx, a1) := lin_tap (cols src) nc c in
  let sy1 := Z.min (sy + 1) (rows src - 1) in
  let sx1 := Z.min (sx + 1) (cols src - 1) in
  let h0 := px src sy sx k * (2048 - a1) + px src sy sx1 k * a1 in
  let h1 := px src sy1 sx k * (2048 - a1) + px src sy1 sx1 k * a1 in
  Z.shiftr (h0 * (2048 - b1) + h1 * b1 + 2 ^ 21) 22.

Definition bilinear (src : Mat Z) (nr nc : Z) : Mat Z :=
  mat_tab nr nc (bilinear_px src nr nc).

Lemma lin_tap_range s n d :
  1 <= s -> 1 <= n -> 0 <= d ->
  0 <= fst (lin_tap s n d) <= s - 1 /\ 0 <= snd (lin_tap s n d) <= 2048.
Proof.
  intros Hs Hn Hd. unfold lin_tap.
  set (num := (2 * d + 1) * s - n). set (den := 2 * n).
  pose proof (Z.mod_pos_bound num den ltac:(lia)) as Hm.
  pose proof (Z.div_mod num den ltac:(lia)) as E.
  zcase; simpl; try lia.
  assert (Hf : 0 <= num - num / den * den < den) by (clearbody num den; nia).
  pose proof (div_ne_bounds ((num - num / den * den) * 2048) den ltac:(lia)) as [Hl Hu].
  assert (0 <= (num - num / den * den) * 2048 / den) by (apply Z.div_pos; lia).
  assert ((num - num / den * den) * 2048 / den < 2048)
    by (apply Z.div_lt_upper_bound; lia).
  lia.
Qed.

(** Two taps weighted [2048 - a] and [a] of values [x] and [y]. *)
Lemma tap_range x y a : is_byte x -> is_byte y -> 0 <= a <= 2048 ->
  0 <= x * (2048 - a) + y * a <= 255 * 2048.
Proof. unfold is_byte. nia. Qed.

(** Two taps with the same weights are monotone in the tapped values. *)
Lemma tap_mono x y x' y' a : x <= x' -> y <= y' -> 0 <= a <= 2048 ->
  x * (2048 - a) + y * a <= x' * (2048 - a) + y' * a.
Proof. nia. Qed.

Lemma bilinear_px_byte src nr nc r c k :
  wf8 src -> 1 <= rows src -> 1 <= cols src -> 1 <= nr -> 1 <= nc -> 0 <= r -> 0 <= c ->
  is_byte (bilinear_px src nr nc r c k).
Proof.
  intros Hwf Hr Hc Hnr Hnc Hr0 Hc0. unfold bilinear_px.
  destruct (lin_tap (rows src) nr r) as [sy b1] eqn:Ey.
  destruct (lin_tap (cols src) nc c) as [sx a1] eqn:Ex.
  pose proof (lin_tap_range (rows src) nr r Hr Hnr Hr0) as Ry. rewrite Ey in Ry; simpl in Ry.
  pose proof (lin_tap_range (cols src) nc c Hc Hnc Hc0) as Rx. rewrite Ex in Rx; simpl in Rx.
  pose proof (tap_range _ _ a1 (px_byte src sy sx k Hwf)
                (px_byte src sy (Z.min (sx + 1) (cols src - 1)) k Hwf) ltac:(lia)).
  pose proof (tap_range _ _ a1 (px_byte src (Z.min (sy + 1) (rows src - 1)) sx k Hwf)
                (px_byte src (Z.min (sy + 1) (rows src - 1)) (Z.min (sx + 1) (cols src - 1)) k Hwf)
                ltac:(lia)).
  rewrite Z.shiftr_div_pow2 by lia. unfold is_byte. split.
  - apply Z.div_pos; nia.
  - apply Z.div_lt_upper_bound; nia.
Qed.

Lemma bilinear_px_const src nr nc (v : Z -> Z) r c k :
  1 <= rows src -> 1 <= cols src -> 1 <= nr -> 1 <= nc -> 0 <= r -> 0 <= c -> 0 <= k < 3 ->
  (forall r c k, in_image src r c k -> px src r c k = v k) ->
  bilinear_px src nr nc r c k = v k.
Proof.
  intros Hr Hc Hnr Hnc Hr0 Hc0 Hk Hv. unfold bilinear_px.
  destruct (lin_tap (rows src) nr r) as [sy b1] eqn:Ey.
  destruct (lin_tap (cols src) nc c) as [sx a1] eqn:Ex.
  pose proof (lin_tap_range (rows src) nr r Hr Hnr Hr0) as Ry. rewrite Ey in Ry; simpl in Ry.
  pose proof (lin_tap_range (cols src) nc c Hc Hnc Hc0) as Rx. rewrite Ex in Rx; simpl in Rx.
  rewrite !Hv by (unfold in_image; lia).
  rewrite Z.shiftr_div_pow2 by lia.
  replace (_ + 2 ^ 21) with (v k * 2 ^ 22 + 2 ^ 21) by ring.
  rewrite Z.div_add_l by lia. rewrite Z.div_small by lia. lia.
Qed.

Lemma bilinear_px_mono a b nr nc r c k :
  rows a = rows b -> cols a = cols b -> 1 <= rows a -> 1 <= cols a -> 1 <= nr -> 1 <= nc ->
  0 <= r -> 0 <= c -> 0 <= k < 3 ->
  (forall r c k, in_image a r c k -> px a r c k <= px b r c k) ->
  bilinear_px a nr nc r c k <= bilinear_px b nr nc r c k.
Proof.
  intros Hr Hc Hr1 Hc1 Hnr Hnc Hr0 Hc0 Hk Hle. unfold bilinear_px. rewrite <- Hr, <- Hc.
  destruct (lin_tap (rows a) nr r) as [sy b1] eqn:Ey.
  destruct (lin_tap (cols a) nc c) as [sx a1] eqn:Ex.
  pose proof (lin_tap_range (rows a) nr r Hr1 Hnr Hr0) as Ry. rewrite Ey in Ry; simpl in Ry.
  pose proof (lin_tap_range (cols a) nc c Hc1 Hnc Hc0) as Rx. rewrite Ex in Rx; simpl in Rx.
  assert (T : forall i j, 0 <= i < rows a -> 0 <= j < cols a -> px a i j k <= px b i j k)
    by (intros; apply Hle; unfold in_image; lia).
  pose proof (T sy sx ltac:(lia) ltac:(lia)).
  pose proof (T sy (Z.min (sx + 1) (cols a - 1)) ltac:(lia) ltac:(lia)).
  pose proof (T (Z.min (sy + 1) (rows a - 1)) sx ltac:(lia) ltac:(lia)).
  pose proof (T (Z.min (sy + 1) (rows a - 1)) (Z.min (sx + 1) (cols a - 1)) ltac:(lia) ltac:(lia)).
  rewrite !Z.shiftr_div_pow2 by lia. apply Z.div_le_mono; [lia|].
  apply Z.add_le_mono_r. apply tap_mono; [apply tap_mono | apply tap_mono |]; lia.
Qed.

#[export] Program Instance bilinear_resize : Resize := {| resize := bilinear |}.
Next Obligation.
  intros src nr nc Hwf Hr Hc Hnr Hnc. unfold bilinear. split; [|split; reflexivity].
  apply mat_tab_wf; auto. intros r c k Hr' Hc' Hk. apply bilinear_px_byte; auto; lia.
Qed.
Next Obligation.
  intros src nr nc v Hwf Hr Hc Hv r c k Hr' Hc' Hk. unfold bilinear.
  rewrite px_mat_tab by lia. apply bilinear_px_const; auto; lia.
Qed.
Next Obligation.
  intros a b nr nc Ha Hb Hr Hc Hr1 Hc1 Hle r c k Hr' Hc' Hk. unfold bilinear.
  rewrite !px_mat_tab by lia. apply bilinear_px_mono; auto; lia.
Qed.
