(* ===== verification/Pyramid.v ===== *)
(** * Pyramid: [MinMaxPyramid], [PreProcess] and [Relevel]

    The record [MinMaxPyramid] holds the fields of the class
    ([min_max_pyramid.h] lines 41-53).  [MinMaxPyramid_new] is the
    default-constructed object.  [PreProcess] ([min_max_pyramid.cc] lines
    77-119) is a function from an input image to the new state.
    [Relevel] (lines 121-145) reads the state.  Both return [None] where
    the C++ code has undefined behaviour ([vector::back] or
    [operator[]] out of range, [static_cast<int>] of [-inf]) or OpenCV
    would raise an assertion (element-wise operations on images of
    different sizes).

    [build_loop] is the pyramid loop (lines 90-97).  Its counter [i]
    runs while [i < max_layer_], so it is a [Fixpoint] on the 49 possible
    iterations.  [upsample_loop] is the resize loop (lines 107-118).
    [cv::resize] comes from the [Resize] class.

    [pyramid_level] is level [k] of a pyramid vector as the code builds it,
    and [lvl] its closed form by the reference reduction.  The section
    [Tiles] shows that level [k] holds the extrema of the
    [2^(k+1)]-square tiles of the input.  [pyramid_spec] is the state that
    [PreProcess] returns, and the theorems at the end state the layer
    counts, the pixel formula of [Relevel], its totality, and the
    repository's pyramid tests for every [Resize]. *)

From Stdlib Require Import ZArith Lia List Bool.
From stdpp Require Import base list option.
From S2P Require Import Prelude Mat Downsample F32 Resize.
Import ListNotations.
Open Scope Z_scope.
Open Scope undersee_scope.

#[export] Instance f32_inhabited : Inhabited f32 := populate F32nan.

Record MinMaxPyramid := {
  image_ : Mat Z;
  max_layer_ : Z;
  min_layer_ : Z;
  min_images_ : list (Mat Z);
  max_images_ : list (Mat Z)
}.

(** [MinMaxPyramid() = default]: an empty image, [max_layer_ = 50],
    [min_layer_ = 4], no images. *)
Definition MinMaxPyramid_new : MinMaxPyramid :=
  {| image_ := mkMat 0 0 0 []; max_layer_ := 50; min_layer_ := 4;
     min_images_ := []; max_images_ := [] |}.

(** Lines 35 and 38. *)
Definition MinScale (s : MinMaxPyramid) : Z := min_layer_ s.
Definition MaxScale (s : MinMaxPyramid) : Z := max_layer_ s.

(** ** Levels of the pyramids, as reference reductions *)

(** Level [k] is the [(k+1)]-th reduction of the image. *)
Fixpoint lvl (f : Z -> Z -> Z) (k : nat) (m : Mat Z) : Mat Z :=
  match k with
  | O => downsample_ref f m
  | S k' => downsample_ref f (lvl f k' m)
  end.

(** The size of [n] after [k] halvings rounding up. *)
Fixpoint halvings (k : nat) (n : Z) : Z :=
  match k with
  | O => n
  | S k' => (halvings k' n + 1) / 2
  end.

(** The index of the first level that is 1x1: the smallest [k] with
    [max rows cols <= 2^(k+1)]. *)
Definition stop_index (nrows ncols : Z) : Z := Z.max 0 (Z.log2_up (Z.max nrows ncols) - 1).

(** The smallest retained level, for an image with at least one row. *)
Definition min_layer_spec (nrows : Z) : Z := Z.min 4 (Z.max 0 (Z.log2 nrows - 4)).

(** Level [k] of a pyramid vector, as the code builds it: the input's
    reduction is pushed first (lines 87-88), then each level is the
    reduction of the previous one (lines 95-96). *)
Fixpoint pyramid_level (f : Z -> Z -> Z) (k : nat) (m : Mat Z) : option (Mat Z) :=
  match k with
  | O => Downsample f m
  | S k' => let* prev := pyramid_level f k' m in Downsample f prev
  end.

Section PreProcess.

Context `{Resize}.

(** Lines 90-97: [for (int i = 1; i < max_layer_; i++)].  Each round
    stops when the last min level is under 2x2 in both dimensions, setting
    [max_layer_ = i - 1], or else appends the next reduction of both
    pyramids. *)
Fixpoint build_loop (fuel : nat) (i max_layer : Z) (minp maxp : list (Mat Z))
    : option (list (Mat Z) * list (Mat Z) * Z) :=
  match fuel with
  | O => Some (minp, maxp, max_layer)
  | S f =>
      if i <? max_layer then
        let* b := list.last minp in
        if (rows b <? 2) && (cols b <? 2) then Some (minp, maxp, i - 1)
        else
          let* bmin := DownsampleMin b in
          let* b' := list.last maxp in
          let* bmax := DownsampleMax b' in
          build_loop f (i + 1) max_layer (minp ++ [bmin]) (maxp ++ [bmax])
      else Some (minp, maxp, max_layer)
  end.

(** Lines 101-103: [std::min(4, std::max(0, (int)std::floor(std::log2(rows)) - 4))].
    For [rows >= 1] the floor of the double [log2] is [Z.log2 rows]; for
    [rows = 0] it is [-inf] and the conversion to [int] is undefined. *)
Definition min_layer_of (nrows : Z) : option Z :=
  if nrows <=? 0 then None else Some (Z.min 4 (Z.max 0 (Z.log2 nrows - 4))).

(** Lines 107-118: [for (layer = min_layer_; layer <= max_layer_; layer++)]:
    resize both levels to the image's size and append them. *)
Fixpoint upsample_loop (n : nat) (layer : Z) (img : Mat Z) (minp maxp : list (Mat Z))
    (mins maxs : list (Mat Z)) : option (list (Mat Z) * list (Mat Z)) :=
  match n with
  | O => Some (mins, maxs)
  | S n' =>
      let* lo := minp !! Z.to_nat layer in
      let* hi := maxp !! Z.to_nat layer in
      let min_image := resize lo (rows img) (cols img) in
      let max_image := resize hi (rows img) (cols img) in
      upsample_loop n' (layer + 1) img minp maxp (mins ++ [min_image]) (maxs ++ [max_image])
  end.

(** [void MinMaxPyramid::PreProcess(cv::Mat input)]: the previous state is
    discarded ([clear()], [max_layer_ = 50]). *)
Definition PreProcess (input : Mat Z) (s : MinMaxPyramid) : option MinMaxPyramid :=
  let* dmin := DownsampleMin input in
  let* dmax := DownsampleMax input in
  let* '(minp, maxp, max_layer) := build_loop 49 1 50 [dmin] [dmax] in
  let* min_layer := min_layer_of (rows input) in
  let* '(mins, maxs) :=
    upsample_loop (Z.to_nat (max_layer - min_layer + 1)) min_layer input minp maxp [] [] in
  Some {| image_ := input; max_layer_ := max_layer; min_layer_ := min_layer;
          min_images_ := mins; max_images_ := maxs |}.

(** The state [PreProcess] builds: both pyramids resized back to the
    image's size, for the levels from [min_layer_spec] to [stop_index]. *)
Definition pyramid_spec (input : Mat Z) : MinMaxPyramid :=
  let s := stop_index (rows input) (cols input) in
  let ml := min_layer_spec (rows input) in
  let retained := seq (Z.to_nat ml) (Z.to_nat (s - ml + 1)) in
  {| image_ := input; max_layer_ := s; min_layer_ := ml;
     min_images_ := map (fun j => resize (lvl min_u8 j input) (rows input) (cols input)) retained;
     max_images_ := map (fun j => resize (lvl max_u8 j input) (rows input) (cols input)) retained |}.

End PreProcess.

(** [cv::Mat MinMaxPyramid::Relevel(int scale) const].  The element-wise
    steps follow the code: [max_img - min_img] and [image_ - min_img]
    (saturating), conversion to [CV_32F], [255.f / range_f],
    [zeroed_f.mul(...)], and [convertTo(CV_8U)].  The unused allocation of
    [output] (line 124) has no effect. *)
Definition Relevel (s : MinMaxPyramid) (scale : Z) : option (Mat Z) :=
  if (scale <? min_layer_ s) || (max_layer_ s <? scale) then Some (image_ s)
  else
    let* max_img := max_images_ s !! Z.to_nat (scale - min_layer_ s) in
    let* min_img := min_images_ s !! Z.to_nat (scale - min_layer_ s) in
    let* range_img := mat_map2 sat_sub max_img min_img in
    let* zeroed := mat_map2 sat_sub (image_ s) min_img in
    let zeroed_f := mat_map f32_of_u8 zeroed in
    let range_f := mat_map f32_of_u8 range_img in
    let quot_f := mat_map (f32_div (F32 255 0)) range_f in
    let* resultf := mat_map2 f32_mul zeroed_f quot_f in
    Some (mat_map f32_to_u8 resultf).

(** ** Arithmetic of the level sizes *)

Lemma halvings_closed k n :
  0 <= n -> halvings k n = (n + 2 ^ Z.of_nat k - 1) / 2 ^ Z.of_nat k.
Proof.
  intros Hn. induction k as [|k IH]; simpl halvings.
  - rewrite Z.pow_0_r, Z.div_1_r. lia.
  - rewrite IH. rewrite Nat2Z.inj_succ, Z.pow_succ_r by lia.
    assert (0 < 2 ^ Z.of_nat k) by (apply Z.pow_pos_nonneg; lia).
    rewrite <- (Z.div_add (n + 2 ^ Z.of_nat k - 1) 1 (2 ^ Z.of_nat k)) by lia.
    rewrite Z.div_div by lia. f_equal; lia.
Qed.

Lemma halvings_small k n :
  1 <= n -> (halvings k n < 2 <-> n <= 2 ^ Z.of_nat k).
Proof.
  intros Hn. rewrite halvings_closed by lia.
  assert (0 < 2 ^ Z.of_nat k) by (apply Z.pow_pos_nonneg; lia).
  split; intros Hk.
  - apply Z.nlt_ge. intros Hlt.
    assert (2 <= (n + 2 ^ Z.of_nat k - 1) / 2 ^ Z.of_nat k) by (apply Z.div_le_lower_bound; lia).
    lia.
  - apply Z.div_lt_upper_bound; lia.
Qed.

Lemma halvings_pos k n : 1 <= n -> 1 <= halvings k n.
Proof.
  intros Hn. rewrite halvings_closed by lia.
  assert (0 < 2 ^ Z.of_nat k) by (apply Z.pow_pos_nonneg; lia).
  apply Z.div_le_lower_bound; lia.
Qed.

(** One halving or more leaves at most half of the size, rounded up. *)
Lemma halvings_S_le k n : 0 <= n -> 0 <= halvings (S k) n <= (n + 1) / 2.
Proof.
  intros Hn. induction k as [|k IH]; cbn [halvings] in *; [split; [dlia | lia]|].
  split; dlia.
Qed.

(** For [int] sides below [INT_MAX] the top level has index at most 30. *)
Lemma stop_index_int nrows ncols :
  1 <= nrows -> Z.max nrows ncols < INT_MAX -> 0 <= stop_index nrows ncols <= 30.
Proof.
  intros Hr HM. unfold stop_index, INT_MAX in *.
  assert (Z.log2_up (Z.max nrows ncols) <= 31) by (apply Z.log2_up_le_pow2; lia).
  lia.
Qed.

(** Level [k] is under 2x2 in both dimensions exactly when [k] has
    reached [stop_index]. *)
Lemma level_small_iff k r c :
  1 <= r -> 1 <= c ->
  (halvings (S k) r < 2 /\ halvings (S k) c < 2 <-> stop_index r c <= Z.of_nat k).
Proof.
  intros Hr Hc. rewrite !halvings_small by lia. unfold stop_index.
  rewrite Nat2Z.inj_succ. set (M := Z.max r c).
  assert (HM : 1 <= M) by lia.
  assert (E : r <= 2 ^ Z.succ (Z.of_nat k) /\ c <= 2 ^ Z.succ (Z.of_nat k) <->
              M <= 2 ^ Z.succ (Z.of_nat k)) by lia.
  rewrite E, Z.log2_up_le_pow2 by lia. lia.
Qed.

(** ** The levels are well formed and halve in size *)

Section Levels.

Variable f : Z -> Z -> Z.
Hypothesis f_byte : forall a b, is_byte a -> is_byte b -> is_byte (f a b).

Lemma lvl_wf k m :
  wf8 m -> wf8 (lvl f k m) /\ rows (lvl f k m) = halvings (S k) (rows m) /\
           cols (lvl f k m) = halvings (S k) (cols m).
Proof.
  intros Hwf. induction k as [|k (IHw & IHr & IHc)]; simpl.
  - split; [now apply downsample_ref_wf | split; reflexivity].
  - split; [now apply downsample_ref_wf|]. simpl. rewrite IHr, IHc. split; reflexivity.
Qed.

(** Below the input every level is at most half an [int] side, so its
    [rows + 1] cannot overflow. *)
Lemma Downsample_lvl k m :
  wf8 m -> rows m <= INT_MAX -> cols m <= INT_MAX ->
  Downsample f (lvl f k m) = Some (lvl f (S k) m).
Proof.
  intros Hwf Hr Hc. pose proof Hwf as (Hr0 & Hc0 & _).
  destruct (lvl_wf k m Hwf) as (W & R & C).
  pose proof (halvings_S_le k _ Hr0). pose proof (halvings_S_le k _ Hc0).
  rewrite Downsample_ok by (first [exact W | rewrite ?R, ?C; unfold INT_MAX in *; dlia]).
  reflexivity.
Qed.

(** The first [n] levels, as the pyramid vector holds them. *)
Definition levels (n : nat) (m : Mat Z) : list (Mat Z) := map (fun k => lvl f k m) (seq 0 n).

Lemma levels_snoc n m : levels (S n) m = levels n m ++ [lvl f n m].
Proof. unfold levels. rewrite seq_S, map_app. reflexivity. Qed.

Lemma last_levels n m : list.last (levels (S n) m) = Some (lvl f n m).
Proof. rewrite levels_snoc. apply last_snoc. Qed.

Lemma lookup_levels n m j : (j < n)%nat -> levels n m !! j = Some (lvl f j m).
Proof.
  intros Hj. unfold levels. rewrite list_lookup_fmap, lookup_seq_lt by lia. reflexivity.
Qed.

Lemma pyramid_level_lvl k m :
  wf8 m -> rows m < INT_MAX -> cols m < INT_MAX -> pyramid_level f k m = Some (lvl f k m).
Proof.
  intros Hwf Hr Hc. induction k as [|k IH]; simpl.
  - now apply Downsample_ok.
  - rewrite IH. simpl. apply Downsample_lvl; auto; lia.
Qed.

Lemma length_levels n m : length (levels n m) = n.
Proof. unfold levels. now rewrite length_map, length_seq. Qed.

End Levels.

(** ** Each level holds the extrema of square tiles *)

(** Pixel [(i, j)] of the image lies in the tile of level [k] pixel
    [(r, c)]: the [2^(k+1)]-square with top-left corner
    [(r 2^(k+1), c 2^(k+1))], cut at the image's border. *)
Definition in_tile (m : Mat Z) (k : nat) (r c i j : Z) : Prop :=
  let w := 2 ^ Z.of_nat (S k) in
  r * w <= i < (r + 1) * w /\ c * w <= j < (c + 1) * w /\ 0 <= i < rows m /\ 0 <= j < cols m.

(** [lo] and [hi] hold, for every pixel of level [k], the minimum and the
    maximum of its tile, channel by channel. *)
Definition tile_extrema (m : Mat Z) (k : nat) (lo hi : Mat Z) : Prop :=
  rows lo = halvings (S k) (rows m) /\ cols lo = halvings (S k) (cols m) /\
  rows hi = rows lo /\ cols hi = cols lo /\
  forall r c ch, 0 <= r < rows lo -> 0 <= c < cols lo -> 0 <= ch < 3 ->
    (forall i j, in_tile m k r c i j -> px lo r c ch <= px m i j ch <= px hi r c ch) /\
    (exists i j, in_tile m k r c i j /\ px lo r c ch = px m i j ch) /\
    (exists i j, in_tile m k r c i j /\ px hi r c ch = px m i j ch).

Lemma lvl_dims f k m :
  rows (lvl f k m) = halvings (S k) (rows m) /\ cols (lvl f k m) = halvings (S k) (cols m).
Proof. induction k as [|k [IHr IHc]]; simpl; [|rewrite IHr, IHc]; split; reflexivity. Qed.

Lemma halvings_nonneg k n : 0 <= n -> 0 <= halvings k n.
Proof.
  intros Hn. rewrite halvings_closed by lia.
  assert (0 < 2 ^ Z.of_nat k) by (apply Z.pow_pos_nonneg; lia).
  apply Z.div_pos; lia.
Qed.

(** A tile that meets the image has an index below the level's size. *)
Lemma tile_index_bound k a i n :
  0 <= n -> a * 2 ^ Z.of_nat k <= i < n -> a < halvings k n.
Proof.
  intros Hn Hi. rewrite halvings_closed by lia.
  assert (0 < 2 ^ Z.of_nat k) by (apply Z.pow_pos_nonneg; lia).
  apply Z.le_succ_l, Z.div_le_lower_bound; nia.
Qed.

(** A tile of level [k+1] is two tiles of level [k] per side. *)
Lemma tile_split w a i :
  0 < w -> a * (2 * w) <= i < (a + 1) * (2 * w) ->
  2 * a <= i / w <= 2 * a + 1 /\ i / w * w <= i < (i / w + 1) * w.
Proof.
  intros Hw Hi. pose proof (Z.div_mod i w ltac:(lia)). pose proof (Z.mod_pos_bound i w Hw).
  split; [split|]; [apply Z.div_le_lower_bound | apply Z.lt_succ_r, Z.div_lt_upper_bound |]; nia.
Qed.

Lemma tile_join w a b i :
  0 < w -> 0 <= b <= 1 -> (2 * a + b) * w <= i < (2 * a + b + 1) * w ->
  a * (2 * w) <= i < (a + 1) * (2 * w).
Proof. intros. nia. Qed.

Section Tiles.

Variable fn : Z -> Z -> Z.
Variable R : Z -> Z -> Prop.
Context `{PreOrder Z R}.
Hypothesis fn_sel : forall a b, fn a b = a \/ fn a b = b.
Hypothesis fn_l : forall a b, R (fn a b) a.
Hypothesis fn_r : forall a b, R (fn a b) b.
Variable m : Mat Z.
Hypothesis Hrows : 0 <= rows m.
Hypothesis Hcols : 0 <= cols m.

Lemma pow_succ_split k : 2 ^ Z.of_nat (S (S k)) = 2 * 2 ^ Z.of_nat (S k).
Proof. rewrite (Nat2Z.inj_succ (S k)), Z.pow_succ_r; lia. Qed.

(** The value of level [k] is [R]-related to every pixel of its tile. *)
Lemma lvl_tile_bound k : forall r c ch i j,
  0 <= ch < 3 -> in_tile m k r c i j -> R (px (lvl fn k m) r c ch) (px m i j ch).
Proof.
  unfold in_tile. induction k as [|k IH]; intros r c ch i j Hch (Hi & Hj & Hir & Hjc).
  - change (2 ^ Z.of_nat 1) with 2 in *. simpl lvl. unfold downsample_ref.
    rewrite px_mat_tab by dlia.
    replace i with (2 * r + (i - 2 * r)) by lia. replace j with (2 * c + (j - 2 * c)) by lia.
    apply block_value_bound; auto. unfold in_block. lia.
  - rewrite pow_succ_split in *. set (w := 2 ^ Z.of_nat (S k)) in *.
    assert (Hw : 0 < w) by (apply Z.pow_pos_nonneg; lia).
    destruct (tile_split w r i Hw Hi) as [Hqi Hti]. destruct (tile_split w c j Hw Hj) as [Hqj Htj].
    destruct (lvl_dims fn k m) as [HLr HLc].
    assert (i / w < halvings (S k) (rows m)) by (apply (tile_index_bound _ _ i); fold w; lia).
    assert (j / w < halvings (S k) (cols m)) by (apply (tile_index_bound _ _ j); fold w; lia).
    assert (r < (halvings (S k) (rows m) + 1) / 2)
      by (apply (tile_index_bound (S (S k)) _ i); rewrite ?pow_succ_split; fold w; lia).
    assert (c < (halvings (S k) (cols m) + 1) / 2)
      by (apply (tile_index_bound (S (S k)) _ j); rewrite ?pow_succ_split; fold w; lia).
    assert (0 <= r) by nia. assert (0 <= c) by nia.
    simpl lvl. unfold downsample_ref. rewrite px_mat_tab by (rewrite ?HLr, ?HLc; lia).
    transitivity (px (lvl fn k m) (i / w) (j / w) ch).
    + pose proof (block_value_bound fn R fn_l fn_r (lvl fn k m) r c ch (i / w - 2 * r) (j / w - 2 * c))
        as Hb.
      rewrite !Zplus_minus in Hb. apply Hb. unfold in_block. rewrite HLr, HLc. lia.
    + apply IH; auto; fold w; lia.
Qed.

(** The value of level [k] is one of the pixels of its tile. *)
Lemma lvl_tile_attained k : forall r c ch,
  0 <= r < halvings (S k) (rows m) -> 0 <= c < halvings (S k) (cols m) -> 0 <= ch < 3 ->
  exists i j, in_tile m k r c i j /\ px (lvl fn k m) r c ch = px m i j ch.
Proof.
  unfold in_tile. induction k as [|k IH]; intros r c ch Hr Hc Hch.
  - change (2 ^ Z.of_nat 1) with 2. simpl lvl. unfold downsample_ref.
    rewrite px_mat_tab by assumption.
    destruct (block_value_attained fn fn_sel m r c ch) as (i & j & Hb & ->);
      [apply out_range_in_block; assumption|].
    exists (2 * r + i), (2 * c + j). unfold in_block in Hb. split; [lia | reflexivity].
  - rewrite pow_succ_split. set (w := 2 ^ Z.of_nat (S k)) in *.
    assert (Hw : 0 < w) by (apply Z.pow_pos_nonneg; lia).
    destruct (lvl_dims fn k m) as [HLr HLc].
    pose proof (halvings_nonneg (S k) _ Hrows). pose proof (halvings_nonneg (S k) _ Hcols).
    simpl lvl. unfold downsample_ref. rewrite px_mat_tab by (rewrite ?HLr, ?HLc; assumption).
    destruct (block_value_attained fn fn_sel (lvl fn k m) r c ch) as (i' & j' & Hb & ->);
      [apply out_range_in_block; rewrite ?HLr, ?HLc; assumption|].
    unfold in_block in Hb. rewrite HLr, HLc in Hb.
    destruct (IH (2 * r + i') (2 * c + j') ch) as (i & j & Ht & ->); [lia..|].
    fold w in Ht. exists i, j. split; [|reflexivity].
    destruct Ht as (Hi & Hj & Hir & Hjc).
    split; [apply (tile_join w r i' i) | split; [apply (tile_join w c j' j)|]]; auto; lia.
Qed.

End Tiles.

(** Every pixel of a min level is below the same pixel of the max level:
    the tile's minimum is attained at a pixel the maximum bounds. *)
Lemma lvl_min_le_max m k r c ch :
  0 <= rows m -> 0 <= cols m ->
  0 <= r < halvings (S k) (rows m) -> 0 <= c < halvings (S k) (cols m) -> 0 <= ch < 3 ->
  px (lvl min_u8 k m) r c ch <= px (lvl max_u8 k m) r c ch.
Proof.
  intros Hr Hc Hr' Hc' Hch.
  destruct (lvl_tile_attained min_u8 min_u8_sel m Hr Hc k r c ch Hr' Hc' Hch) as (i & j & Ht & ->).
  apply Z.ge_le, (lvl_tile_bound max_u8 Z.ge max_u8_l max_u8_r m Hr Hc k r c ch i j Hch Ht).
Qed.

(** Every level of a uniform image is uniform of the same colour, for an
    idempotent operator such as [min] and [max]. *)
Lemma lvl_uniform f (v : Z -> Z) k m :
  (forall a, f a a = a) -> 0 <= rows m -> 0 <= cols m ->
  (forall r c ch, in_image m r c ch -> px m r c ch = v ch) ->
  forall r c ch, in_image (lvl f k m) r c ch -> px (lvl f k m) r c ch = v ch.
Proof.
  intros Hid Hr Hc Hv. induction k as [|k IH]; cbn [lvl]; apply downsample_ref_uniform; auto.
  all: destruct (lvl_dims f k m) as [Er Ec]; rewrite ?Er, ?Ec; apply halvings_nonneg; lia.
Qed.

Lemma min_u8_idem a : min_u8 a a = a.
Proof. rewrite min_u8_Zmin. lia. Qed.

Lemma max_u8_idem a : max_u8 a a = a.
Proof. rewrite max_u8_Zmax. lia. Qed.

(** ** [PreProcess] *)

Section PreProcessProofs.

Variable input : Mat Z.
Hypothesis Hwf : wf8 input.
Hypothesis Hrows : 1 <= rows input.
Hypothesis Hcols : 1 <= cols input.

Let s := stop_index (rows input) (cols input).

Lemma level_small_b k :
  (rows (lvl min_u8 k input) <? 2) && (cols (lvl min_u8 k input) <? 2) = (s <=? Z.of_nat k).
Proof.
  destruct (lvl_wf min_u8 min_u8_byte k input Hwf) as (_ & -> & ->).
  pose proof (level_small_iff k (rows input) (cols input) Hrows Hcols) as E.
  destruct (s <=? Z.of_nat k) eqn:Hs; zbool; unfold s in *.
  - apply andb_true_iff. rewrite !Z.ltb_lt. now apply E.
  - apply andb_false_iff. rewrite !Z.ltb_ge. lia.
Qed.

(** The loop appends levels until the first 1x1 one, whose index becomes
    [max_layer_]. *)
Lemma build_loop_spec n : forall i,
  rows input < INT_MAX -> cols input < INT_MAX -> s <= 48 -> 1 <= i <= s + 1 -> s + 1 - i < Z.of_nat n ->
  build_loop n i 50 (levels min_u8 (Z.to_nat i) input) (levels max_u8 (Z.to_nat i) input) =
  Some (levels min_u8 (Z.to_nat (s + 1)) input, levels max_u8 (Z.to_nat (s + 1)) input, s).
Proof.
  induction n as [|n IH]; intros i HIr HIc Hs Hi Hn; [lia|].
  cbn [build_loop]. replace (i <? 50) with true by (symmetry; apply Z.ltb_lt; lia).
  replace (Z.to_nat i) with (S (Z.to_nat (i - 1))) by lia.
  rewrite last_levels, level_small_b.
  destruct (Z.leb_spec s (Z.of_nat (Z.to_nat (i - 1)))) as [Hstop | Hgo].
  - replace (Z.to_nat (s + 1)) with (S (Z.to_nat (i - 1))) by lia.
    do 3 f_equal; lia.
  - unfold DownsampleMin, DownsampleMax.
    rewrite Downsample_lvl by first [solve [auto using min_u8_byte] | lia].
    rewrite last_levels, Downsample_lvl by first [solve [auto using max_u8_byte] | lia].
    rewrite <- !levels_snoc.
    replace (S (S (Z.to_nat (i - 1)))) with (Z.to_nat (i + 1)) by lia.
    apply IH; lia.
Qed.

Lemma upsample_loop_spec `{Resize} n : forall layer N mins maxs,
  0 <= layer -> (Z.to_nat layer + n <= N)%nat ->
  upsample_loop n layer input (levels min_u8 N input) (levels max_u8 N input) mins maxs =
  Some (mins ++ map (fun j => resize (lvl min_u8 j input) (rows input) (cols input))
                    (seq (Z.to_nat layer) n),
        maxs ++ map (fun j => resize (lvl max_u8 j input) (rows input) (cols input))
                    (seq (Z.to_nat layer) n)).
Proof.
  induction n as [|n IH]; intros layer N mins maxs Hl HN.
  - simpl. now rewrite !app_nil_r.
  - cbn [upsample_loop]. rewrite !lookup_levels by lia.
    rewrite IH by lia. replace (Z.to_nat (layer + 1)) with (S (Z.to_nat layer)) by lia.
    simpl. now rewrite <- !app_assoc.
Qed.

Lemma min_layer_le_stop : min_layer_spec (rows input) <= s.
Proof.
  unfold min_layer_spec, s, stop_index.
  pose proof (Z.le_log2_log2_up (rows input)).
  pose proof (Z.log2_up_le_mono (rows input) (Z.max (rows input) (cols input)) ltac:(lia)).
  lia.
Qed.

Lemma PreProcess_ok `{Resize} st :
  Z.max (rows input) (cols input) < INT_MAX -> PreProcess input st = Some (pyramid_spec input).
Proof.
  intros HM. assert (Hs : s <= 48) by (pose proof (stop_index_int _ _ Hrows HM); unfold s; lia).
  pose proof min_layer_le_stop as Hml.
  assert (Hml0 : 0 <= min_layer_spec (rows input)) by (unfold min_layer_spec; lia).
  unfold PreProcess, DownsampleMin, DownsampleMax.
  rewrite !Downsample_ok by first [exact Hwf | lia].
  change [downsample_ref min_u8 input] with (levels min_u8 (Z.to_nat 1) input).
  change [downsample_ref max_u8 input] with (levels max_u8 (Z.to_nat 1) input).
  rewrite build_loop_spec by (simpl; lia). cbv beta iota.
  unfold min_layer_of. replace (rows input <=? 0) with false by (symmetry; apply Z.leb_gt; lia).
  fold (min_layer_spec (rows input)). fold s.
  rewrite upsample_loop_spec by lia. reflexivity.
Qed.

(** The local min and max images that [PreProcess] stores for [scale]. *)
Definition local_min `{Resize} (scale : Z) : Mat Z :=
  resize (lvl min_u8 (Z.to_nat scale) input) (rows input) (cols input).
Definition local_max `{Resize} (scale : Z) : Mat Z :=
  resize (lvl max_u8 (Z.to_nat scale) input) (rows input) (cols input).

Lemma local_images_wf `{Resize} scale :
  0 <= scale ->
  wf8 (local_min scale) /\ rows (local_min scale) = rows input /\ cols (local_min scale) = cols input /\
  wf8 (local_max scale) /\ rows (local_max scale) = rows input /\ cols (local_max scale) = cols input.
Proof.
  intros Hs. unfold local_min, local_max.
  destruct (lvl_wf min_u8 min_u8_byte (Z.to_nat scale) input Hwf) as (Wn & Rn & Cn).
  destruct (lvl_wf max_u8 max_u8_byte (Z.to_nat scale) input Hwf) as (Wx & Rx & Cx).
  pose proof (halvings_pos (S (Z.to_nat scale)) _ Hrows).
  pose proof (halvings_pos (S (Z.to_nat scale)) _ Hcols).
  destruct (resize_wf (lvl min_u8 (Z.to_nat scale) input) (rows input) (cols input) Wn)
    as (? & ? & ?); [lia..|].
  destruct (resize_wf (lvl max_u8 (Z.to_nat scale) input) (rows input) (cols input) Wx)
    as (? & ? & ?); [lia..|].
  do 5 (split; [assumption|]); assumption.
Qed.

(** One output byte of [Relevel]: the stretch of the pixel between the
    local min and max, with OpenCV's saturating subtractions. *)
Definition relevel_px (o mn mx : Z) : Z := stretch (sat_sub o mn) (sat_sub mx mn).

Lemma Relevel_in_range `{Resize} scale :
  min_layer_spec (rows input) <= scale <= s ->
  Relevel (pyramid_spec input) scale =
  Some (mat_tab (rows input) (cols input)
          (fun r c k => relevel_px (px input r c k) (px (local_min scale) r c k)
                                   (px (local_max scale) r c k))).
Proof.
  intros Hsc. pose proof min_layer_le_stop.
  assert (Hml0 : 0 <= min_layer_spec (rows input)) by (unfold min_layer_spec; lia).
  destruct (local_images_wf scale ltac:(lia)) as (Wn & Rn & Cn & Wx & Rx & Cx).
  unfold Relevel, pyramid_spec; cbn [min_layer_ max_layer_ min_images_ max_images_ image_].
  fold s. replace ((scale <? _) || (s <? scale)) with false
    by (symmetry; apply orb_false_iff; split; apply Z.ltb_ge; lia).
  rewrite !list_lookup_fmap, !lookup_seq_lt by lia. simpl.
  replace (Z.to_nat (min_layer_spec (rows input)) + Z.to_nat (scale - min_layer_spec (rows input)))%nat
    with (Z.to_nat scale) by lia.
  fold (local_min scale) (local_max scale).
  rewrite mat_map2_same by congruence. rewrite mat_map2_same by congruence.
  rewrite Rx, Cx, !mat_map_tab, mat_map2_tab, mat_map_tab. reflexivity.
Qed.

Lemma Relevel_out_of_range `{Resize} scale :
  scale < min_layer_spec (rows input) \/ s < scale ->
  Relevel (pyramid_spec input) scale = Some input.
Proof.
  intros Hsc. unfold Relevel, pyramid_spec; cbn [min_layer_ max_layer_ image_]. fold s.
  replace ((scale <? _) || (s <? scale)) with true
    by (symmetry; apply orb_true_iff; destruct Hsc; [left | right]; apply Z.ltb_lt; lia).
  reflexivity.
Qed.

(** The top level [MaxScale] is 1x1, and its tile covers the image. *)
Lemma top_level_dims f :
  rows (lvl f (Z.to_nat s) input) = 1 /\ cols (lvl f (Z.to_nat s) input) = 1.
Proof.
  destruct (lvl_dims f (Z.to_nat s) input) as [-> ->].
  pose proof (proj2 (level_small_iff (Z.to_nat s) (rows input) (cols input) Hrows Hcols)
                    ltac:(unfold s; lia)).
  pose proof (halvings_pos (S (Z.to_nat s)) _ Hrows). pose proof (halvings_pos (S (Z.to_nat s)) _ Hcols).
  lia.
Qed.

Lemma top_tile i j :
  0 <= i < rows input -> 0 <= j < cols input -> in_tile input (Z.to_nat s) 0 0 i j.
Proof.
  intros Hi Hj.
  destruct (proj2 (level_small_iff (Z.to_nat s) (rows input) (cols input) Hrows Hcols)
                  ltac:(unfold s; lia)) as [Hr Hc].
  rewrite halvings_small in Hr, Hc by lia. unfold in_tile. lia.
Qed.

(** The resized min image is below the resized max image. *)
Lemma local_min_le_max `{Resize} scale r c k :
  0 <= scale -> in_image input r c k ->
  px (local_min scale) r c k <= px (local_max scale) r c k.
Proof.
  intros Hs (Hr & Hc & Hk). unfold local_min, local_max.
  destruct (lvl_wf min_u8 min_u8_byte (Z.to_nat scale) input Hwf) as (Wn & Rn & Cn).
  destruct (lvl_wf max_u8 max_u8_byte (Z.to_nat scale) input Hwf) as (Wx & Rx & Cx).
  pose proof (halvings_pos (S (Z.to_nat scale)) _ Hrows).
  pose proof (halvings_pos (S (Z.to_nat scale)) _ Hcols).
  apply resize_mono; auto; try congruence; try lia.
  intros r' c' k' (? & ? & ?). apply lvl_min_le_max; lia.
Qed.

End PreProcessProofs.

Lemma relevel_px_byte o mn mx : is_byte (relevel_px o mn mx).
Proof. apply sat_u8_byte. Qed.

Lemma sat_sub_bytes a b : is_byte a -> is_byte b -> sat_sub a b = Z.max 0 (a - b).
Proof. unfold sat_sub, sat_u8, is_byte. lia. Qed.

(** Whatever [Relevel] returns on a built pyramid is a well-formed image
    of the input's size. *)
Lemma Relevel_pyramid_wf `{Resize} input scale out :
  wf8 input -> 1 <= rows input -> 1 <= cols input ->
  Relevel (pyramid_spec input) scale = Some out ->
  wf8 out /\ rows out = rows input /\ cols out = cols input.
Proof.
  intros Hwf Hr Hc Hout.
  destruct (Z_lt_le_dec scale (min_layer_spec (rows input))) as [Hlo | Hlo];
  [|destruct (Z_lt_le_dec (stop_index (rows input) (cols input)) scale) as [Hhi | Hhi]].
  1, 2: rewrite Relevel_out_of_range in Hout by lia; injection Hout as <-; auto.
  rewrite Relevel_in_range in Hout by auto. injection Hout as <-.
  split; [apply mat_tab_wf; auto using relevel_px_byte; lia | split; reflexivity].
Qed.

(** The state that [PreProcess] returns, for images whose sides are
    below [INT_MAX]. *)
Lemma PreProcess_some `{Resize} input st p :
  wf8 input -> 1 <= rows input -> 1 <= cols input -> Z.max (rows input) (cols input) < INT_MAX ->
  PreProcess input st = Some p -> p = pyramid_spec input.
Proof. intros Hwf Hr Hc HM Hp. rewrite PreProcess_ok in Hp by assumption. congruence. Qed.

(** ** The pipeline reads pixels only *)

(** Every level depends only on the pixels of the image, not on its row
    stride or on the padding at the end of its rows. *)
#[export] Instance lvl_proper f k : Proper (ImageEq ==> eq) (lvl f k).
Proof.
  intros a b Hab. induction k as [|k IH]; cbn [lvl];
    [now apply downsample_ref_proper | now rewrite IH].
Qed.

(** The stored pyramids and scales of two images with the same pixels are
    the same. *)
Lemma pyramid_spec_pixels `{Resize} a b :
  ImageEq a b ->
  min_layer_ (pyramid_spec a) = min_layer_ (pyramid_spec b) /\
  max_layer_ (pyramid_spec a) = max_layer_ (pyramid_spec b) /\
  min_images_ (pyramid_spec a) = min_images_ (pyramid_spec b) /\
  max_images_ (pyramid_spec a) = max_images_ (pyramid_spec b).
Proof.
  intros Hab. pose proof Hab as (Er & Ec & _). unfold pyramid_spec; cbn. rewrite Er, Ec.
  split; [reflexivity | split; [reflexivity|]].
  split; apply map_ext; intros j; now rewrite (lvl_proper _ j a b Hab).
Qed.

(** [Relevel] of two images with the same pixels gives images with the
    same pixels, at every scale. *)
Lemma Relevel_pixels_only `{Resize} a b scale :
  wf8 a -> wf8 b -> 1 <= rows a -> 1 <= cols a -> ImageEq a b ->
  exists oa ob, Relevel (pyramid_spec a) scale = Some oa /\
    Relevel (pyramid_spec b) scale = Some ob /\ ImageEq oa ob.
Proof.
  intros Ha Hb Hr Hc Hab. pose proof Hab as (Er & Ec & Hpx).
  destruct (Z_lt_le_dec scale (min_layer_spec (rows a))) as [Hlo | Hlo];
  [|destruct (Z_lt_le_dec (stop_index (rows a) (cols a)) scale) as [Hhi | Hhi]].
  1, 2: rewrite !Relevel_out_of_range by (rewrite ?Er, ?Ec in *; lia); eauto.
  rewrite !Relevel_in_range by (rewrite ?Er, ?Ec in *; first [assumption | lia]).
  eexists _, _. split; [reflexivity | split; [reflexivity|]].
  unfold local_min, local_max. rewrite <- Er, <- Ec, (lvl_proper _ _ a b Hab), (lvl_proper max_u8 _ a b Hab).
  replace (mat_tab (rows a) (cols a) _) with
    (mat_tab (rows a) (cols a) (fun r c k => relevel_px (px b r c k)
       (px (resize (lvl min_u8 (Z.to_nat scale) b) (rows a) (cols a)) r c k)
       (px (resize (lvl max_u8 (Z.to_nat scale) b) (rows a) (cols a)) r c k)));
    [reflexivity|].
  apply mat_tab_ext. intros r c k Hr' Hc' Hk. rewrite Hpx; [reflexivity | unfold in_image; lia].
Qed.

(** ** Theorems *)

Module PyramidTests.

(** [min_max_pyramid_test.cc] lines 119-127. *)
Definition blocks4 : Mat Z :=
  mat_of_pixels 4 4 [
    (100, 10, 100); (100, 10, 100); (100, 10, 100); (100, 10, 100);
    (100, 10, 100); (100, 10, 100); (200, 200, 120); (200, 200, 120);
    (200, 200, 120); (200, 200, 120); (200, 200, 120); (200, 200, 120);
    (100, 10, 100); (100, 10, 100); (200, 200, 120); (200, 200, 120)].

(** [blocks4] as a region of interest of a wider buffer: rows of 15 bytes,
    the last 3 of which belong to a fifth column outside the region. *)
Definition blocks4_roi : Mat Z :=
  mkMat 4 4 15 (flat_map (fun r => map (fun i => px blocks4 r (i / 3) (i mod 3)) (zrange 0 12)
                                   ++ [255; 0; 255]) (zrange 0 4)).

End PyramidTests.

(** C3 [PreProcess] builds the layers the code intends, without undefined
    behaviour, on every well-formed image whose sides are below
    [INT_MAX].  [MaxScale] is the index of the first level that is 1x1.  That
    level is kept, so it is not the spec's last level of at least 2x2.
    [MinScale] is [min(4, max(0, floor(log2 rows) - 4))], which is at most
    [MaxScale].  One min image and one max image are stored per level in
    between, each a well-formed image of the input's size. *)
Theorem PreProcess_layers `{Resize} input st :
  wf8 input -> 1 <= rows input -> 1 <= cols input -> Z.max (rows input) (cols input) < INT_MAX ->
  exists p, PreProcess input st = Some p /\ image_ p = input /\
    MaxScale p = Z.max 0 (Z.log2_up (Z.max (rows input) (cols input)) - 1) /\
    MinScale p = Z.min 4 (Z.max 0 (Z.log2 (rows input) - 4)) /\
    0 <= MinScale p <= MaxScale p /\
    length (min_images_ p) = Z.to_nat (MaxScale p - MinScale p + 1) /\
    length (max_images_ p) = Z.to_nat (MaxScale p - MinScale p + 1) /\
    Forall (fun m => wf8 m /\ rows m = rows input /\ cols m = cols input)
           (min_images_ p ++ max_images_ p).
Proof.
  intros Hwf Hr Hc HM. exists (pyramid_spec input).
  pose proof (min_layer_le_stop input).
  split; [now apply PreProcess_ok|]. cbn.
  assert (0 <= min_layer_spec (rows input)) by (unfold min_layer_spec; lia).
  do 3 (split; [reflexivity|]). split; [unfold stop_index in *; lia|].
  rewrite !length_map, !length_seq. split; [reflexivity | split; [reflexivity|]].
  apply Forall_app; split; apply Forall_forall; intros m Hm; apply in_map_iff in Hm as (j & <- & Hj);
    apply in_seq in Hj; destruct (local_images_wf input Hwf Hr Hc (Z.of_nat j) ltac:(lia))
      as (? & ? & ? & ? & ? & ?); unfold local_min, local_max in *; rewrite Nat2Z.id in *;
    refine (conj _ (conj _ _)); assumption.
Qed.

(** Discharges the size and well-formedness hypotheses on a concrete
    image. *)
Ltac image_hyps :=
  repeat match goal with
    | H : ?P |- ?P => exact H
    | |- wf8 _ => apply wf8b_spec; vm_compute; reflexivity
    | |- _ /\ _ => split
    | |- @eq Z _ _ => vm_compute; reflexivity
    | |- _ => first [cbn; lia | unfold INT_MAX; cbn; lia | vm_compute; discriminate]
    end.

Lemma PreProcess_layers_witness :
  (wf8 PyramidTests.blocks4 /\ 1 <= rows PyramidTests.blocks4 /\ 1 <= cols PyramidTests.blocks4 /\
   Z.max (rows PyramidTests.blocks4) (cols PyramidTests.blocks4) < INT_MAX) /\
  exists p, PreProcess PyramidTests.blocks4 MinMaxPyramid_new = Some p /\
    image_ p = PyramidTests.blocks4 /\
    MaxScale p = Z.max 0 (Z.log2_up (Z.max 4 4) - 1) /\
    MinScale p = Z.min 4 (Z.max 0 (Z.log2 4 - 4)) /\
    0 <= MinScale p <= MaxScale p /\
    length (min_images_ p) = Z.to_nat (MaxScale p - MinScale p + 1) /\
    length (max_images_ p) = Z.to_nat (MaxScale p - MinScale p + 1) /\
    Forall (fun m => wf8 m /\ rows m = 4 /\ cols m = 4) (min_images_ p ++ max_images_ p).
Proof. split; [image_hyps|]. apply PreProcess_layers; image_hyps. Defined.

(** C5 Each output byte of [Relevel] is the stretch of the pixel between
    the local minimum and maximum, on every branch.  With an empty range it
    is 0.  At or below the minimum it is 0 and at or above the maximum it
    is 255.  In between it is within one half of [255 (o - mn) / (mx - mn)],
    and off exact ties it is that value rounded half to even. *)
Theorem relevel_px_cases o mn mx :
  is_byte o -> is_byte mn -> is_byte mx ->
  (mx <= mn -> relevel_px o mn mx = 0) /\
  (mn < mx -> o <= mn -> relevel_px o mn mx = 0) /\
  (mn < mx -> mx <= o -> relevel_px o mn mx = 255) /\
  (mn < o < mx ->
     Z.abs (2 * (mx - mn) * relevel_px o mn mx - 2 * (255 * (o - mn))) <= mx - mn /\
     (2 * ((255 * (o - mn)) mod (mx - mn)) <> mx - mn ->
      relevel_px o mn mx = div_ne (255 * (o - mn)) (mx - mn))).
Proof.
  intros Ho Hmn Hmx. unfold relevel_px. rewrite !sat_sub_bytes by assumption.
  unfold is_byte in *. split; [|split; [|split]]; intros.
  - rewrite (Z.max_l 0 (mx - mn)) by lia. apply stretch_zero_range.
  - rewrite (Z.max_l 0 (o - mn)), Z.max_r by lia. apply stretch_endpoints; lia.
  - rewrite !Z.max_r by lia. apply stretch_sat; lia.
  - rewrite !Z.max_r by lia. apply stretch_rounds_to_nearest; lia.
Qed.

Lemma relevel_px_cases_witness :
  (is_byte 150 /\ is_byte 100 /\ is_byte 200) /\
  (200 <= 100 -> relevel_px 150 100 200 = 0) /\
  (100 < 200 -> 150 <= 100 -> relevel_px 150 100 200 = 0) /\
  (100 < 200 -> 200 <= 150 -> relevel_px 150 100 200 = 255) /\
  (100 < 150 < 200 ->
     Z.abs (2 * (200 - 100) * relevel_px 150 100 200 - 2 * (255 * (150 - 100))) <= 200 - 100 /\
     (2 * ((255 * (150 - 100)) mod (200 - 100)) <> 200 - 100 ->
      relevel_px 150 100 200 = div_ne (255 * (150 - 100)) (200 - 100))).
Proof.
  split; [unfold is_byte; lia|]. apply relevel_px_cases; unfold is_byte; lia.
Defined.

(** C6 After [PreProcess], [Relevel] is defined at every scale.  It never
    indexes the image vectors out of range or combines images of different
    sizes.  Its output is a well-formed byte image of the input's size, and
    at a scale outside [[MinScale, MaxScale]] it is the input itself. *)
Theorem Relevel_safe `{Resize} input st :
  wf8 input -> 1 <= rows input -> 1 <= cols input -> Z.max (rows input) (cols input) < INT_MAX ->
  exists p, PreProcess input st = Some p /\
    forall scale, exists out, Relevel p scale = Some out /\
      wf8 out /\ rows out = rows input /\ cols out = cols input /\
      (scale < MinScale p \/ MaxScale p < scale -> out = input).
Proof.
  intros Hwf Hr Hc HM. exists (pyramid_spec input). split; [now apply PreProcess_ok|].
  intros scale. unfold MinScale, MaxScale; cbn [min_layer_ max_layer_ pyramid_spec].
  destruct (Z_lt_le_dec scale (min_layer_spec (rows input))) as [Hlo | Hlo];
  [|destruct (Z_lt_le_dec (stop_index (rows input) (cols input)) scale) as [Hhi | Hhi]].
  1, 2: exists input; rewrite Relevel_out_of_range by lia; auto.
  eexists. rewrite Relevel_in_range by auto. split; [reflexivity|].
  split; [apply mat_tab_wf; auto using relevel_px_byte; lia|]. cbn. split; [|split]; auto; lia.
Qed.

Lemma Relevel_safe_witness :
  (wf8 PyramidTests.blocks4 /\ 1 <= rows PyramidTests.blocks4 /\ 1 <= cols PyramidTests.blocks4 /\
   Z.max (rows PyramidTests.blocks4) (cols PyramidTests.blocks4) < INT_MAX) /\
  exists p, PreProcess PyramidTests.blocks4 MinMaxPyramid_new = Some p /\
    forall scale, exists out, Relevel p scale = Some out /\
      wf8 out /\ rows out = rows PyramidTests.blocks4 /\ cols out = cols PyramidTests.blocks4 /\
      (scale < MinScale p \/ MaxScale p < scale -> out = PyramidTests.blocks4).
Proof. split; [image_hyps|]. apply Relevel_safe; image_hyps. Defined.

(** C4 At a scale in [[MinScale, MaxScale]], each output byte of [Relevel]
    is [relevel_px] of the input byte.  The bounds are the bytes at the same
    place of the min and max levels [scale] (the [(scale+1)]-th reductions,
    [min_pyramid[scale]] and [max_pyramid[scale]]), each resized back to
    the input's size. *)
Theorem Relevel_pixels `{Resize} input st :
  wf8 input -> 1 <= rows input -> 1 <= cols input -> Z.max (rows input) (cols input) < INT_MAX ->
  exists p, PreProcess input st = Some p /\
    forall scale, MinScale p <= scale <= MaxScale p ->
    exists out, Relevel p scale = Some out /\
      forall r c k, in_image input r c k ->
      px out r c k =
      relevel_px (px input r c k)
        (px (resize (lvl min_u8 (Z.to_nat scale) input) (rows input) (cols input)) r c k)
        (px (resize (lvl max_u8 (Z.to_nat scale) input) (rows input) (cols input)) r c k).
Proof.
  intros Hwf Hr Hc HM. exists (pyramid_spec input). split; [now apply PreProcess_ok|].
  intros scale Hs. eexists. rewrite Relevel_in_range by auto.
  split; [reflexivity|]. intros r c k (? & ? & ?). now rewrite px_mat_tab.
Qed.

Lemma Relevel_pixels_witness :
  (wf8 PyramidTests.blocks4 /\ 1 <= rows PyramidTests.blocks4 /\ 1 <= cols PyramidTests.blocks4 /\
   Z.max (rows PyramidTests.blocks4) (cols PyramidTests.blocks4) < INT_MAX) /\
  exists p, PreProcess PyramidTests.blocks4 MinMaxPyramid_new = Some p /\
    forall scale, MinScale p <= scale <= MaxScale p ->
    exists out, Relevel p scale = Some out /\
      forall r c k, in_image PyramidTests.blocks4 r c k ->
      px out r c k =
      relevel_px (px PyramidTests.blocks4 r c k)
        (px (resize (lvl min_u8 (Z.to_nat scale) PyramidTests.blocks4) 4 4) r c k)
        (px (resize (lvl max_u8 (Z.to_nat scale) PyramidTests.blocks4) 4 4) r c k).
Proof. split; [image_hyps|]. apply Relevel_pixels; image_hyps. Defined.

(** C11 The [int] arithmetic of [PreProcess] on an image whose sides are
    [int]s.  Below [INT_MAX] the pyramid loop stops by itself: [PreProcess]
    succeeds with [MaxScale <= 30], far below the cap of 50 levels, so the
    resize loop only reads levels that exist.  A side of exactly [INT_MAX]
    makes [(input.rows + 1) / 2] in [Downsample] (lines 14-15) overflow, so
    [PreProcess] has undefined behaviour there. *)
Theorem PreProcess_int_dims `{Resize} input st :
  wf8 input -> 1 <= rows input <= INT_MAX -> 1 <= cols input <= INT_MAX ->
  (Z.max (rows input) (cols input) < INT_MAX ->
   exists p, PreProcess input st = Some p /\ MaxScale p <= 30) /\
  (Z.max (rows input) (cols input) = INT_MAX -> PreProcess input st = None).
Proof.
  intros Hwf Hr Hc. split.
  - intros HM. exists (pyramid_spec input). split; [apply PreProcess_ok; auto; lia|].
    pose proof (stop_index_int _ _ (proj1 Hr) HM). unfold MaxScale; cbn [pyramid_spec max_layer_]. lia.
  - intros HM. unfold PreProcess, DownsampleMin.
    now rewrite Downsample_overflow by lia.
Qed.

Lemma PreProcess_int_dims_witness :
  (wf8 PyramidTests.blocks4 /\ 1 <= rows PyramidTests.blocks4 <= INT_MAX /\
   1 <= cols PyramidTests.blocks4 <= INT_MAX) /\
  (Z.max (rows PyramidTests.blocks4) (cols PyramidTests.blocks4) < INT_MAX ->
   exists p, PreProcess PyramidTests.blocks4 MinMaxPyramid_new = Some p /\ MaxScale p <= 30) /\
  (Z.max (rows PyramidTests.blocks4) (cols PyramidTests.blocks4) = INT_MAX ->
   PreProcess PyramidTests.blocks4 MinMaxPyramid_new = None).
Proof. split; [image_hyps|]. apply PreProcess_int_dims; image_hyps. Defined.

(** C26 [Relevel] on a default-constructed pyramid, before any
    [PreProcess], is undefined for every scale from 4 to 50.  The range
    test passes ([min_layer_ = 4], [max_layer_ = 50]) and
    [max_images_[scale - 4]] indexes an empty vector. *)
Theorem Relevel_before_PreProcess scale :
  4 <= scale <= 50 -> Relevel MinMaxPyramid_new scale = None.
Proof.
  intros Hs. unfold Relevel; cbn [min_layer_ max_layer_ max_images_ MinMaxPyramid_new].
  replace ((scale <? 4) || (50 <? scale)) with false
    by (symmetry; apply orb_false_iff; split; apply Z.ltb_ge; lia).
  reflexivity.
Qed.

Lemma Relevel_before_PreProcess_witness :
  4 <= 4 <= 50 /\ Relevel MinMaxPyramid_new 4 = None.
Proof. split; [lia|]. apply Relevel_before_PreProcess; lia. Defined.

(** C2 Level [k] of the min and max pyramids holds the local extrema
    that the spec asks for.  Each pixel of level [k] is the minimum
    (resp. maximum) of the [2^(k+1)]-square tile of the input it covers,
    channel by channel: it bounds every pixel of the tile and is attained
    in it.  Tiles are cut at the image's border, and levels have
    [ceil(n / 2^(k+1))] pixels per side. *)
Theorem pyramid_levels_tile_extrema m k :
  wf8 m -> Z.max (rows m) (cols m) < INT_MAX ->
  exists lo hi, pyramid_level min_u8 k m = Some lo /\ pyramid_level max_u8 k m = Some hi /\
    tile_extrema m k lo hi.
Proof.
  intros Hwf HM. pose proof Hwf as (Hr & Hc & _).
  exists (lvl min_u8 k m), (lvl max_u8 k m).
  rewrite !pyramid_level_lvl by first [solve [auto using min_u8_byte, max_u8_byte] | lia].
  do 2 (split; [reflexivity|]).
  destruct (lvl_dims min_u8 k m) as [Lr Lc]. destruct (lvl_dims max_u8 k m) as [Hr' Hc'].
  unfold tile_extrema. rewrite Lr, Lc, Hr', Hc'. do 4 (split; [reflexivity|]).
  intros r c ch Hr0 Hc0 Hch. split; [|split].
  - intros i j Ht. split.
    + now apply (lvl_tile_bound min_u8 Z.le min_u8_l min_u8_r).
    + apply Z.ge_le. now apply (lvl_tile_bound max_u8 Z.ge max_u8_l max_u8_r).
  - now apply (lvl_tile_attained min_u8 min_u8_sel).
  - now apply (lvl_tile_attained max_u8 max_u8_sel).
Qed.

Lemma pyramid_levels_tile_extrema_witness :
  (wf8 PyramidTests.blocks4 /\ Z.max (rows PyramidTests.blocks4) (cols PyramidTests.blocks4) < INT_MAX) /\
  exists lo hi, pyramid_level min_u8 1 PyramidTests.blocks4 = Some lo /\
    pyramid_level max_u8 1 PyramidTests.blocks4 = Some hi /\ tile_extrema PyramidTests.blocks4 1 lo hi.
Proof. split; [image_hyps|]. apply pyramid_levels_tile_extrema; image_hyps. Defined.

(** C7 At the leftmost scale [MaxScale], [Relevel] is the global contrast
    stretch.  The top level is 1x1 and its tile covers the image, so the
    resized min and max images are uniform.  They hold, per channel, the
    minimum and the maximum of the whole input, and each output byte is
    [relevel_px] of the input byte between them. *)
Theorem Relevel_MaxScale_global `{Resize} input st :
  wf8 input -> 1 <= rows input -> 1 <= cols input -> Z.max (rows input) (cols input) < INT_MAX ->
  exists p (lo hi : Z -> Z), PreProcess input st = Some p /\
    (forall k, 0 <= k < 3 ->
       (forall r c, 0 <= r < rows input -> 0 <= c < cols input -> lo k <= px input r c k <= hi k) /\
       (exists r c, 0 <= r < rows input /\ 0 <= c < cols input /\ px input r c k = lo k) /\
       (exists r c, 0 <= r < rows input /\ 0 <= c < cols input /\ px input r c k = hi k)) /\
    Relevel p (MaxScale p) =
      Some (mat_tab (rows input) (cols input) (fun r c k => relevel_px (px input r c k) (lo k) (hi k))).
Proof.
  intros Hwf Hr Hc HM. set (s := stop_index (rows input) (cols input)).
  pose proof (halvings_pos (S (Z.to_nat s)) _ Hr). pose proof (halvings_pos (S (Z.to_nat s)) _ Hc).
  destruct (top_level_dims input Hr Hc min_u8) as [Rn Cn].
  destruct (top_level_dims input Hr Hc max_u8) as [Rx Cx].
  exists (pyramid_spec input), (fun k => px (lvl min_u8 (Z.to_nat s) input) 0 0 k),
         (fun k => px (lvl max_u8 (Z.to_nat s) input) 0 0 k).
  split; [now apply PreProcess_ok|]. split.
  - intros k Hk. split; [|split].
    + intros r c Hr' Hc'. pose proof (top_tile input Hr Hc r c Hr' Hc') as Ht. split.
      * apply (lvl_tile_bound min_u8 Z.le min_u8_l min_u8_r); first [lia | exact Ht].
      * apply Z.ge_le, (lvl_tile_bound max_u8 Z.ge max_u8_l max_u8_r); first [lia | exact Ht].
    + destruct (lvl_tile_attained min_u8 min_u8_sel input ltac:(lia) ltac:(lia) (Z.to_nat s) 0 0 k)
        as (i & j & (_ & _ & Hi & Hj) & E); [lia..|].
      exists i, j. auto.
    + destruct (lvl_tile_attained max_u8 max_u8_sel input ltac:(lia) ltac:(lia) (Z.to_nat s) 0 0 k)
        as (i & j & (_ & _ & Hi & Hj) & E); [lia..|].
      exists i, j. auto.
  - pose proof (min_layer_le_stop input).
    unfold MaxScale; cbn [pyramid_spec max_layer_]. fold s.
    rewrite Relevel_in_range by (auto; fold s; lia). f_equal. apply mat_tab_ext.
    intros r c k Hr' Hc' Hk. unfold local_min, local_max.
    destruct (lvl_wf min_u8 min_u8_byte (Z.to_nat s) input Hwf) as (Wn & _).
    destruct (lvl_wf max_u8 max_u8_byte (Z.to_nat s) input Hwf) as (Wx & _).
    rewrite !resize_1x1 by auto. reflexivity.
Qed.

Lemma Relevel_MaxScale_global_witness :
  (wf8 PyramidTests.blocks4 /\ 1 <= rows PyramidTests.blocks4 /\ 1 <= cols PyramidTests.blocks4 /\
   Z.max (rows PyramidTests.blocks4) (cols PyramidTests.blocks4) < INT_MAX) /\
  exists p (lo hi : Z -> Z), PreProcess PyramidTests.blocks4 MinMaxPyramid_new = Some p /\
    (forall k, 0 <= k < 3 ->
       (forall r c, 0 <= r < 4 -> 0 <= c < 4 -> lo k <= px PyramidTests.blocks4 r c k <= hi k) /\
       (exists r c, 0 <= r < 4 /\ 0 <= c < 4 /\ px PyramidTests.blocks4 r c k = lo k) /\
       (exists r c, 0 <= r < 4 /\ 0 <= c < 4 /\ px PyramidTests.blocks4 r c k = hi k)) /\
    Relevel p (MaxScale p) =
      Some (mat_tab 4 4 (fun r c k => relevel_px (px PyramidTests.blocks4 r c k) (lo k) (hi k))).
Proof. split; [image_hyps|]. apply Relevel_MaxScale_global; image_hyps. Defined.

(** C8 The state [PreProcess] builds stores, for every level, a min image
    that lies below its max image at every pixel and channel.  So
    [Relevel]'s saturating [max_img - min_img] never clips: the range is
    the exact difference. *)
Theorem stored_min_le_max `{Resize} input st :
  wf8 input -> 1 <= rows input -> 1 <= cols input -> Z.max (rows input) (cols input) < INT_MAX ->
  exists p, PreProcess input st = Some p /\ length (min_images_ p) = length (max_images_ p) /\
    forall j mn mx, min_images_ p !! j = Some mn -> max_images_ p !! j = Some mx ->
    forall r c k, in_image input r c k ->
      px mn r c k <= px mx r c k /\ sat_sub (px mx r c k) (px mn r c k) = px mx r c k - px mn r c k.
Proof.
  intros Hwf Hr Hc HM. exists (pyramid_spec input). split; [now apply PreProcess_ok|].
  cbn [pyramid_spec min_images_ max_images_]. rewrite !length_map. split; [reflexivity|].
  intros j mn mx Hmn Hmx r c k Hin.
  rewrite list_lookup_fmap in Hmn, Hmx.
  destruct (seq _ _ !! j) as [j'|] eqn:Hj; [|discriminate]. cbn in Hmn, Hmx.
  injection Hmn as <-. injection Hmx as <-.
  pose proof (local_min_le_max input Hwf Hr Hc (Z.of_nat j') r c k ltac:(lia) Hin) as Hle.
  unfold local_min, local_max in Hle. rewrite Nat2Z.id in Hle.
  destruct (local_images_wf input Hwf Hr Hc (Z.of_nat j') ltac:(lia)) as (Wn & _ & _ & Wx & _).
  unfold local_min, local_max in Wn, Wx. rewrite Nat2Z.id in Wn, Wx.
  pose proof (px_byte _ r c k Wn). pose proof (px_byte _ r c k Wx).
  split; [exact Hle|]. apply sat_u8_id. unfold is_byte in *. lia.
Qed.

Lemma stored_min_le_max_witness :
  (wf8 PyramidTests.blocks4 /\ 1 <= rows PyramidTests.blocks4 /\ 1 <= cols PyramidTests.blocks4 /\
   Z.max (rows PyramidTests.blocks4) (cols PyramidTests.blocks4) < INT_MAX) /\
  exists p, PreProcess PyramidTests.blocks4 MinMaxPyramid_new = Some p /\
    length (min_images_ p) = length (max_images_ p) /\
    forall j mn mx, min_images_ p !! j = Some mn -> max_images_ p !! j = Some mx ->
    forall r c k, in_image PyramidTests.blocks4 r c k ->
      px mn r c k <= px mx r c k /\ sat_sub (px mx r c k) (px mn r c k) = px mx r c k - px mn r c k.
Proof. split; [image_hyps|]. apply stored_min_le_max; image_hyps. Defined.

(** C25 The pyramid loop terminates by its [break]: for [int] sides below
    [INT_MAX] it stops after [stop_index + 1] rounds with
    [max_layer_ = stop_index], at most 30, so the bound [i < max_layer_] is
    never what ends it.  Every fuel of at least [stop_index + 1] rounds
    gives the same pyramids, so the 49 rounds [PreProcess] allows are
    enough. *)
Theorem build_loop_terminates input :
  wf8 input -> 1 <= rows input -> 1 <= cols input -> Z.max (rows input) (cols input) < INT_MAX ->
  exists dmin dmax minp maxp,
    DownsampleMin input = Some dmin /\ DownsampleMax input = Some dmax /\
    stop_index (rows input) (cols input) <= 30 /\
    length minp = Z.to_nat (stop_index (rows input) (cols input) + 1) /\
    length maxp = length minp /\
    forall n, stop_index (rows input) (cols input) + 1 <= Z.of_nat n ->
      build_loop n 1 50 [dmin] [dmax] = Some (minp, maxp, stop_index (rows input) (cols input)).
Proof.
  intros Hwf Hr Hc HM. set (s := stop_index (rows input) (cols input)).
  pose proof (stop_index_int _ _ Hr HM) as Hs30.
  assert (Hs : s <= 30) by (unfold s; lia).
  assert (0 <= s) by (unfold s; lia).
  exists (downsample_ref min_u8 input), (downsample_ref max_u8 input),
         (levels min_u8 (Z.to_nat (s + 1)) input), (levels max_u8 (Z.to_nat (s + 1)) input).
  unfold DownsampleMin, DownsampleMax. rewrite !Downsample_ok by first [exact Hwf | lia].
  rewrite !length_levels.
  do 5 (split; [first [reflexivity | lia]|]).
  intros n Hn.
  change [downsample_ref min_u8 input] with (levels min_u8 (Z.to_nat 1) input).
  change [downsample_ref max_u8 input] with (levels max_u8 (Z.to_nat 1) input).
  apply build_loop_spec; auto; lia.
Qed.

Lemma build_loop_terminates_witness :
  (wf8 PyramidTests.blocks4 /\ 1 <= rows PyramidTests.blocks4 /\ 1 <= cols PyramidTests.blocks4 /\
   Z.max (rows PyramidTests.blocks4) (cols PyramidTests.blocks4) < INT_MAX) /\
  exists dmin dmax minp maxp,
    DownsampleMin PyramidTests.blocks4 = Some dmin /\ DownsampleMax PyramidTests.blocks4 = Some dmax /\
    stop_index 4 4 <= 30 /\ length minp = Z.to_nat (stop_index 4 4 + 1) /\
    length maxp = length minp /\
    forall n, stop_index 4 4 + 1 <= Z.of_nat n ->
      build_loop n 1 50 [dmin] [dmax] = Some (minp, maxp, stop_index 4 4).
Proof. split; [image_hyps|]. apply build_loop_terminates; image_hyps. Defined.

(** C9 A uniform image (one colour everywhere, such as a flat grey frame)
    has uniform min and max levels of that colour, so the range is zero
    at every pixel.  [255.f / 0] is [+inf] and [0 * inf] is [NaN], which
    converts to 0, so [Relevel] turns the image black at every scale in
    [[MinScale, MaxScale]]. *)
Theorem Relevel_uniform_black `{Resize} input st (v : Z -> Z) :
  wf8 input -> 1 <= rows input -> 1 <= cols input -> Z.max (rows input) (cols input) < INT_MAX ->
  (forall r c k, in_image input r c k -> px input r c k = v k) ->
  exists p, PreProcess input st = Some p /\
    forall scale, MinScale p <= scale <= MaxScale p ->
      Relevel p scale = Some (mat_tab (rows input) (cols input) (fun _ _ _ => 0)).
Proof.
  intros Hwf Hr Hc HM Hv. exists (pyramid_spec input). split; [now apply PreProcess_ok|].
  intros scale Hs. cbn [MinScale MaxScale pyramid_spec min_layer_ max_layer_] in Hs.
  rewrite Relevel_in_range by (auto; lia). f_equal. apply mat_tab_ext. intros r c k Hr' Hc' Hk.
  assert (E : forall f, (forall a, f a a = a) -> (forall a b, is_byte a -> is_byte b -> is_byte (f a b)) ->
            px (resize (lvl f (Z.to_nat scale) input) (rows input) (cols input)) r c k = v k).
  { intros f Hid Hb. destruct (lvl_wf f Hb (Z.to_nat scale) input Hwf) as (Wl & Rl & Cl).
    pose proof (halvings_pos (S (Z.to_nat scale)) _ Hr). pose proof (halvings_pos (S (Z.to_nat scale)) _ Hc).
    apply resize_const; auto; try lia. apply lvl_uniform; auto; lia. }
  unfold local_min, local_max, relevel_px.
  rewrite (E min_u8 min_u8_idem min_u8_byte), (E max_u8 max_u8_idem max_u8_byte), Hv
    by (unfold in_image; lia).
  unfold sat_sub. rewrite Z.sub_diag. apply stretch_zero_range.
Qed.

Lemma Relevel_uniform_black_witness :
  let v := fun k => if k =? 0 then 10 else if k =? 1 then 20 else 30 in
  (wf8 (mat_const 4 4 10 20 30) /\ 1 <= 4 /\ 1 <= 4 /\ Z.max 4 4 < INT_MAX /\
   forall r c k, in_image (mat_const 4 4 10 20 30) r c k -> px (mat_const 4 4 10 20 30) r c k = v k) /\
  exists p, PreProcess (mat_const 4 4 10 20 30) MinMaxPyramid_new = Some p /\
    forall scale, MinScale p <= scale <= MaxScale p ->
      Relevel p scale = Some (mat_tab 4 4 (fun _ _ _ => 0)).
Proof.
  intros v.
  assert (Hv : forall r c k, in_image (mat_const 4 4 10 20 30) r c k -> px (mat_const 4 4 10 20 30) r c k = v k).
  { intros r c k (Hr & Hc & Hk). unfold mat_const. rewrite px_mat_tab by (cbn in *; lia). reflexivity. }
  split; [split; [image_hyps | split; [lia | split; [lia | split; [unfold INT_MAX; lia | exact Hv]]]]|].
  exact (Relevel_uniform_black (mat_const 4 4 10 20 30) MinMaxPyramid_new v
           ltac:(image_hyps) ltac:(image_hyps) ltac:(image_hyps) ltac:(image_hyps) Hv).
Defined.

(** C10 The whole kernel reads pixels only.  [Downsample] walks rows by
    pointer with the stride [step], and [Relevel] subtracts whole
    [cv::Mat]s.  Still, two images with the same pixels, such as an image
    and the same pixels viewed as a region of a wider buffer, get the same
    stored pyramids and scales from [PreProcess], and [Relevel] gives them
    images with the same pixels at every scale. *)
Theorem PreProcess_stride_independent `{Resize} a b st :
  wf8 a -> wf8 b -> 1 <= rows a -> 1 <= cols a -> Z.max (rows a) (cols a) < INT_MAX ->
  ImageEq a b ->
  exists pa pb, PreProcess a st = Some pa /\ PreProcess b st = Some pb /\
    MinScale pa = MinScale pb /\ MaxScale pa = MaxScale pb /\
    min_images_ pa = min_images_ pb /\ max_images_ pa = max_images_ pb /\
    forall scale, exists oa ob, Relevel pa scale = Some oa /\ Relevel pb scale = Some ob /\
      ImageEq oa ob.
Proof.
  intros Ha Hb Hr Hc HM Hab. pose proof Hab as (Er & Ec & _).
  exists (pyramid_spec a), (pyramid_spec b).
  split; [now apply PreProcess_ok|]. split; [apply PreProcess_ok; rewrite <- ?Er, <- ?Ec; auto|].
  destruct (pyramid_spec_pixels a b Hab) as (E1 & E2 & E3 & E4).
  unfold MinScale, MaxScale. do 4 (split; [assumption|]).
  intros scale. now apply Relevel_pixels_only.
Qed.

Lemma PreProcess_stride_independent_witness :
  (wf8 PyramidTests.blocks4 /\ wf8 PyramidTests.blocks4_roi /\ 1 <= rows PyramidTests.blocks4 /\
   1 <= cols PyramidTests.blocks4 /\ Z.max (rows PyramidTests.blocks4) (cols PyramidTests.blocks4) < INT_MAX /\
   ImageEq PyramidTests.blocks4 PyramidTests.blocks4_roi) /\
  exists pa pb, PreProcess PyramidTests.blocks4 MinMaxPyramid_new = Some pa /\
    PreProcess PyramidTests.blocks4_roi MinMaxPyramid_new = Some pb /\
    MinScale pa = MinScale pb /\ MaxScale pa = MaxScale pb /\
    min_images_ pa = min_images_ pb /\ max_images_ pa = max_images_ pb /\
    forall scale, exists oa ob, Relevel pa scale = Some oa /\ Relevel pb scale = Some ob /\
      ImageEq oa ob.
Proof.
  assert (Hab : ImageEq PyramidTests.blocks4 PyramidTests.blocks4_roi)
    by (apply ImageEqb_spec; vm_compute; reflexivity).
  assert (Hb : wf8 PyramidTests.blocks4_roi) by image_hyps.
  split; [split; [image_hyps | split; [exact Hb | split; [image_hyps | split; [image_hyps | split; [image_hyps | exact Hab]]]]]|].
  apply (PreProcess_stride_independent PyramidTests.blocks4 PyramidTests.blocks4_roi MinMaxPyramid_new);
    first [exact Hb | exact Hab | image_hyps].
Defined.
