(* ===== verification/FileDialog.v ===== *)
(** * FileDialog: the file dialogs that open and save images

    [initializeImageFileDialog] ([editor.cc] lines 43-59) configures the
    [QFileDialog] that [Editor::open] and [Editor::save] show.  It keeps a
    function-local [static bool firstDialog].  Only the first dialog of
    the process gets a start directory: the last Pictures location of the
    desktop, or the current directory when there is none.  The accept mode
    is set on every dialog, and every save dialog also gets the default
    suffix ["jpg"].

    The dialog's contract comes from Qt, not from this repository
    ([QFileDialog::defaultSuffix]).  A selected file whose name has no
    suffix of its own, meaning no ['.'] after the last ['/'], gets ['.']
    and the default suffix appended.  This is the rule of Qt 6, which
    looks at the file name only.  Some Qt 5 versions look for a ['.']
    anywhere in the path, so there a suffixless name inside a directory
    whose name has a dot gets no [.jpg].  The theorems about [Save] assume
    the Qt 6 rule.  The desktop's standard paths are the record
    [Desktop]. *)

From Stdlib Require Import Ascii String Bool List.
From S2P Require Import Prelude.
Import ListNotations.
Local Open Scope string_scope.

Module FileDialog.

Inductive AcceptMode := AcceptOpen | AcceptSave.

(** The settings of a [QFileDialog] that the code changes.  The directory
    is [None] when it was never set. *)
Record QFileDialog := mkDialog {
  directory : option string;
  acceptMode : AcceptMode;
  defaultSuffix : string
}.

(** [QFileDialog dialog(this, title)]: no directory, [AcceptOpen], and no
    default suffix. *)
Definition QFileDialog_new : QFileDialog :=
  {| directory := None; acceptMode := AcceptOpen; defaultSuffix := "" |}.

Definition setDirectory (d : QFileDialog) (dir : string) : QFileDialog :=
  {| directory := Some dir; acceptMode := acceptMode d; defaultSuffix := defaultSuffix d |}.
Definition setAcceptMode (d : QFileDialog) (m : AcceptMode) : QFileDialog :=
  {| directory := directory d; acceptMode := m; defaultSuffix := defaultSuffix d |}.
Definition setDefaultSuffix (d : QFileDialog) (s : string) : QFileDialog :=
  {| directory := directory d; acceptMode := acceptMode d; defaultSuffix := s |}.

(** [QStandardPaths::standardLocations(QStandardPaths::PicturesLocation)]
    and [QDir::currentPath()]. *)
Record Desktop := mkDesktop {
  picturesLocations : list string;
  currentPath : string
}.

(** Lines 44-59.  The static [firstDialog] is passed in and returned. *)
Definition initializeImageFileDialog (firstDialog : bool) (desk : Desktop)
    (dialog : QFileDialog) (mode : AcceptMode) : bool * QFileDialog :=
  let '(firstDialog, dialog) :=
    if firstDialog then
      (false, setDirectory dialog
                (match picturesLocations desk with
                 | [] => currentPath desk
                 | l :: ls => last (l :: ls) l
                 end))
    else (firstDialog, dialog) in
  let dialog := setAcceptMode dialog mode in
  (firstDialog, match mode with
                | AcceptSave => setDefaultSuffix dialog "jpg"
                | AcceptOpen => dialog
                end).

(** ** The default-suffix rule of [QFileDialog::selectedFiles] *)

Fixpoint has_char (a : ascii) (s : string) : bool :=
  match s with
  | EmptyString => false
  | String c s => Ascii.eqb c a || has_char a s
  end.

(** [QFileInfo(path).fileName()]: the part after the last ['/']. *)
Fixpoint fileName_from (acc s : string) : string :=
  match s with
  | EmptyString => acc
  | String c s =>
      if Ascii.eqb c "/" then fileName_from EmptyString s
      else fileName_from (acc ++ String c EmptyString) s
  end.

Definition fileName (path : string) : string := fileName_from EmptyString path.

(** The file the dialog returns for a name the user accepted. *)
Definition selectedFile (d : QFileDialog) (name : string) : string :=
  if String.eqb (defaultSuffix d) "" || has_char "." (fileName name) then name
  else name ++ "." ++ defaultSuffix d.

(** ** The dialog each call configures *)

(** A fresh dialog after [initializeImageFileDialog]: the start directory
    only on the first dialog, the accept mode, and the suffix ["jpg"] on
    save dialogs.  Stdlib's [last l d] is [d] on an empty list. *)
Definition dialog_spec (first : bool) (desk : Desktop) (mode : AcceptMode) : QFileDialog :=
  {| directory := if first then Some (last (picturesLocations desk) (currentPath desk)) else None;
     acceptMode := mode;
     defaultSuffix := match mode with AcceptSave => "jpg" | AcceptOpen => "" end |}.

(** ** Lemmas *)

Lemma last_default {A} (l : list A) (x d d' : A) : last (x :: l) d = last (x :: l) d'.
Proof. revert x. induction l as [|y l IH]; intros x; [reflexivity|]. exact (IH y). Qed.

Lemma initializeImageFileDialog_new first desk mode :
  initializeImageFileDialog first desk QFileDialog_new mode = (false, dialog_spec first desk mode).
Proof.
  unfold initializeImageFileDialog, dialog_spec.
  destruct first, mode; try reflexivity; destruct (picturesLocations desk) as [|l ls]; cbn - [last];
    try reflexivity; now rewrite (last_default ls l l (currentPath desk)).
Qed.

Lemma string_app_nil_r s : (s ++ "")%string = s.
Proof. induction s as [|c s IH]; cbn; [reflexivity | now rewrite IH]. Qed.

Lemma string_app_assoc s t u : (s ++ (t ++ u) = (s ++ t) ++ u)%string.
Proof. induction s as [|c s IH]; cbn; [reflexivity | now rewrite IH]. Qed.

Lemma has_char_app a s t : has_char a (s ++ t) = has_char a s || has_char a t.
Proof. induction s as [|c s IH]; cbn; [reflexivity|]. now rewrite IH, orb_assoc. Qed.

Lemma fileName_from_app acc s t :
  fileName_from acc (s ++ t) = fileName_from (fileName_from acc s) t.
Proof.
  revert acc. induction s as [|c s IH]; intros acc; [reflexivity|].
  cbn. destruct (Ascii.eqb c "/"); apply IH.
Qed.

Lemma fileName_from_plain acc t : has_char "/" t = false -> fileName_from acc t = acc ++ t.
Proof.
  revert acc. induction t as [|c t IH]; intros acc Ht; cbn in *.
  - now rewrite string_app_nil_r.
  - apply orb_false_iff in Ht as [Hc Ht]. rewrite Hc, IH by exact Ht.
    now rewrite <- string_app_assoc.
Qed.

(** A suffix appended to a path ends up in its file name. *)
Lemma fileName_suffix path sfx :
  has_char "/" sfx = false -> fileName (path ++ "." ++ sfx) = fileName path ++ "." ++ sfx.
Proof.
  intros Hs. unfold fileName. rewrite fileName_from_app.
  apply fileName_from_plain. cbn. exact Hs.
Qed.

Lemma has_char_dot_suffix s sfx : has_char "." (s ++ "." ++ sfx) = true.
Proof. rewrite has_char_app. cbn. apply orb_true_r. Qed.

(** What a save dialog returns: the name, with [.jpg] appended when its
    file name has no suffix of its own. *)
Lemma selectedFile_save first desk name :
  selectedFile (dialog_spec first desk AcceptSave) name =
  if has_char "." (fileName name) then name else name ++ ".jpg".
Proof. reflexivity. Qed.

(** So every file a save dialog returns has a suffix. *)
Lemma selectedFile_save_suffix first desk name :
  has_char "." (fileName (selectedFile (dialog_spec first desk AcceptSave) name)) = true.
Proof.
  rewrite selectedFile_save. destruct (has_char "." (fileName name)) eqn:E; [exact E|].
  change (name ++ ".jpg") with (name ++ "." ++ "jpg").
  rewrite fileName_suffix by reflexivity. apply has_char_dot_suffix.
Qed.

(** An open dialog returns the names unchanged. *)
Lemma selectedFile_open first desk name :
  selectedFile (dialog_spec first desk AcceptOpen) name = name.
Proof. reflexivity. Qed.

End FileDialog.
