(* ===== verification/Editor.v ===== *)
(** * Editor: the Qt window that drives the pyramid

    [editor.cc] holds the state of the user interface and calls
    [MinMaxPyramid::PreProcess] when a file is loaded and
    [MinMaxPyramid::Relevel] when the locality slider moves.  The record
    [Editor] holds the fields of the class ([editor.h] lines 37-56) that the
    handlers change.  Each handler is a function from a state to a new state,
    and [None] marks undefined behaviour in the pyramid.

    The slider is a [QSlider].  Its setters follow
    [QAbstractSlider::setRange] and [QAbstractSlider::setValue] from the Qt
    library: the value is clamped to the range, and [valueChanged] is
    emitted, running [localitySliderChanged], exactly when the value
    changes.  [cv::imread] and [QImageWriter::write] are the environment: the
    section variables [imread] and [write_ok], with the desktop's standard
    paths [desktop].  A file dialog is configured by
    [initializeImageFileDialog] ([FileDialog]) and recorded in the state.
    The user's part of it is the list of names accepted before cancelling,
    which the dialog returns through its default-suffix rule.  Widgets,
    fonts and pixmaps are not modelled. *)

From Stdlib Require Import ZArith Lia List Bool String.
From stdpp Require Import base list option.
From S2P Require Import Prelude Mat Downsample F32 Resize Pyramid FileDialog.
Import FileDialog.FileDialog.
Import ListNotations.
Open Scope Z_scope.
Open Scope undersee_scope.

Module Editor.

Record Editor := mkEditor {
  batch_mode_ : bool;
  batch_input_file_ : string;
  batch_output_file_ : string;
  (** [*pyramid_]: the pyramid object that [main] owns. *)
  pyramid_ : MinMaxPyramid;
  cv_image_ : Mat Z;
  (** [QImage image_]: the pixels of [cv_image_] when it was last wrapped. *)
  image_ : Mat Z;
  (** [locality_slider_]: minimum, maximum and value. *)
  slider_min : Z;
  slider_max : Z;
  slider_value : Z;
  (** [save_action_->isEnabled()] *)
  save_enabled : bool;
  (** [scroll_area_->isVisible()]; the slider is laid out inside it. *)
  scroll_visible : bool;
  window_title : string;
  closed : bool;
  (** Files written by [saveFile], newest first, with the image written. *)
  written : list (string * Mat Z);
  (** [static bool firstDialog] of [initializeImageFileDialog] (line 46):
      a process-wide flag, and [main] makes one window per process. *)
  first_dialog : bool;
  (** The file dialogs shown, newest first, as configured. *)
  dialogs : list QFileDialog
}.

(** ** Field updates *)

Definition set_slider (ed : Editor) (lo hi v : Z) : Editor :=
  {| batch_mode_ := batch_mode_ ed; batch_input_file_ := batch_input_file_ ed;
     batch_output_file_ := batch_output_file_ ed; pyramid_ := pyramid_ ed;
     cv_image_ := cv_image_ ed; image_ := image_ ed;
     slider_min := lo; slider_max := hi; slider_value := v;
     save_enabled := save_enabled ed; scroll_visible := scroll_visible ed;
     window_title := window_title ed; closed := closed ed; written := written ed;
     first_dialog := first_dialog ed; dialogs := dialogs ed |}.

Definition set_images (ed : Editor) (cv img : Mat Z) : Editor :=
  {| batch_mode_ := batch_mode_ ed; batch_input_file_ := batch_input_file_ ed;
     batch_output_file_ := batch_output_file_ ed; pyramid_ := pyramid_ ed;
     cv_image_ := cv; image_ := img;
     slider_min := slider_min ed; slider_max := slider_max ed; slider_value := slider_value ed;
     save_enabled := save_enabled ed; scroll_visible := scroll_visible ed;
     window_title := window_title ed; closed := closed ed; written := written ed;
     first_dialog := first_dialog ed; dialogs := dialogs ed |}.

Definition set_loaded (ed : Editor) (title : string) (p : MinMaxPyramid) (cv : Mat Z) : Editor :=
  {| batch_mode_ := batch_mode_ ed; batch_input_file_ := batch_input_file_ ed;
     batch_output_file_ := batch_output_file_ ed; pyramid_ := p;
     cv_image_ := cv; image_ := image_ ed;
     slider_min := slider_min ed; slider_max := slider_max ed; slider_value := slider_value ed;
     save_enabled := save_enabled ed; scroll_visible := scroll_visible ed;
     window_title := title; closed := closed ed; written := written ed;
     first_dialog := first_dialog ed; dialogs := dialogs ed |}.

Definition set_shown (ed : Editor) : Editor :=
  {| batch_mode_ := batch_mode_ ed; batch_input_file_ := batch_input_file_ ed;
     batch_output_file_ := batch_output_file_ ed; pyramid_ := pyramid_ ed;
     cv_image_ := cv_image_ ed; image_ := cv_image_ ed;
     slider_min := slider_min ed; slider_max := slider_max ed; slider_value := slider_value ed;
     save_enabled := true; scroll_visible := true;
     window_title := window_title ed; closed := closed ed; written := written ed;
     first_dialog := first_dialog ed; dialogs := dialogs ed |}.

Definition set_batch (ed : Editor) (mode : bool) (fin fout : string) : Editor :=
  {| batch_mode_ := mode; batch_input_file_ := fin; batch_output_file_ := fout;
     pyramid_ := pyramid_ ed; cv_image_ := cv_image_ ed; image_ := image_ ed;
     slider_min := slider_min ed; slider_max := slider_max ed; slider_value := slider_value ed;
     save_enabled := save_enabled ed; scroll_visible := scroll_visible ed;
     window_title := window_title ed; closed := closed ed; written := written ed;
     first_dialog := first_dialog ed; dialogs := dialogs ed |}.

Definition set_output (ed : Editor) (cl : bool) (w : list (string * Mat Z)) : Editor :=
  {| batch_mode_ := batch_mode_ ed; batch_input_file_ := batch_input_file_ ed;
     batch_output_file_ := batch_output_file_ ed; pyramid_ := pyramid_ ed;
     cv_image_ := cv_image_ ed; image_ := image_ ed;
     slider_min := slider_min ed; slider_max := slider_max ed; slider_value := slider_value ed;
     save_enabled := save_enabled ed; scroll_visible := scroll_visible ed;
     window_title := window_title ed; closed := cl; written := w;
     first_dialog := first_dialog ed; dialogs := dialogs ed |}.

Definition set_dialog (ed : Editor) (first : bool) (d : QFileDialog) : Editor :=
  {| batch_mode_ := batch_mode_ ed; batch_input_file_ := batch_input_file_ ed;
     batch_output_file_ := batch_output_file_ ed; pyramid_ := pyramid_ ed;
     cv_image_ := cv_image_ ed; image_ := image_ ed;
     slider_min := slider_min ed; slider_max := slider_max ed; slider_value := slider_value ed;
     save_enabled := save_enabled ed; scroll_visible := scroll_visible ed;
     window_title := window_title ed; closed := closed ed; written := written ed;
     first_dialog := first; dialogs := d :: dialogs ed |}.

(** ** Handlers *)

(** [cv::cvtColor(m, m, cv::COLOR_BGR2RGB)]: channels 0 and 2 swap. *)
Definition bgr2rgb (m : Mat Z) : Mat Z := mat_tab (rows m) (cols m) (fun r c k => px m r c (2 - k)).

Section Handlers.

Context `{Resize}.
(** [cv::imread(fileName)]: [None] for an empty result. *)
Variable imread : string -> option (Mat Z).
(** Whether [QImageWriter(fileName).write(image_)] succeeds. *)
Variable write_ok : string -> bool.
(** The desktop's standard paths, for the first dialog. *)
Variable desktop : Desktop.

(** Lines 166-175: [cv_image_ = pyramid_->Relevel(pyramid_->MaxScale() - value)],
    wrapped in a new [QImage] that becomes [image_]. *)
Definition localitySliderChanged (ed : Editor) (value : Z) : option Editor :=
  let* out := Relevel (pyramid_ ed) (MaxScale (pyramid_ ed) - value) in
  Some (set_images ed out out).

(** [QAbstractSlider::setValue]: clamp, and emit [valueChanged] (line 150)
    if the value changes. *)
Definition setValue (ed : Editor) (v : Z) : option Editor :=
  let v := Z.max (slider_min ed) (Z.min (slider_max ed) v) in
  if v =? slider_value ed then Some ed
  else localitySliderChanged (set_slider ed (slider_min ed) (slider_max ed) v) v.

(** [QAbstractSlider::setRange]: a maximum below the minimum becomes the
    minimum; if the range changed, the value is set again, which clamps
    it. *)
Definition setRange (ed : Editor) (lo hi : Z) : option Editor :=
  let hi := Z.max lo hi in
  if (lo =? slider_min ed) && (hi =? slider_max ed) then Some ed
  else setValue (set_slider ed lo hi (slider_value ed)) (slider_value ed).

(** Lines 84-113: [bool Editor::loadFile(fileName)]. *)
Definition loadFile (ed : Editor) (fileName : string) : option (Editor * bool) :=
  match imread fileName with
  | None => Some (ed, false)
  | Some image =>
      let cv := bgr2rgb image in
      let* p := PreProcess cv (pyramid_ ed) in
      let ed := set_loaded ed ("UnderSee - " ++ fileName)%string p cv in
      let* ed := setRange ed 0 (MaxScale p - MinScale p) in
      let* ed := setValue ed 0 in
      Some (set_shown ed, true)
  end.

(** Lines 115-129: [bool Editor::saveFile(fileName)] writes [image_]. *)
Definition saveFile (ed : Editor) (fileName : string) : Editor * bool :=
  if write_ok fileName
  then (set_output ed (closed ed) ((fileName, image_ ed) :: written ed), true)
  else (ed, false).

(** Lines 65-67: the dialog loop of [open]; it ends at the first file that
    loads or when the user cancels. *)
Fixpoint open_loop (ed : Editor) (picks : list string) : option Editor :=
  match picks with
  | [] => Some ed
  | f :: fs =>
      let* '(ed, ok) := loadFile ed f in
      if ok then Some ed else open_loop ed fs
  end.

(** Lines 61-73: [void Editor::open()].  The dialog returns each name the
    user accepts through [selectedFiles()]. *)
Definition open_ (ed : Editor) (picks : list string) : option Editor :=
  let '(first, dialog) := initializeImageFileDialog (first_dialog ed) desktop QFileDialog_new AcceptOpen in
  let ed := set_dialog ed first dialog in
  let* ed := open_loop ed (map (selectedFile dialog) picks) in
  Some (set_batch ed false (batch_input_file_ ed) (batch_output_file_ ed)).

(** Lines 79-81: the dialog loop of [save]; it ends at the first file
    written or when the user cancels. *)
Fixpoint save_loop (ed : Editor) (names : list string) : Editor :=
  match names with
  | [] => ed
  | f :: fs => let '(ed, ok) := saveFile ed f in if ok then ed else save_loop ed fs
  end.

(** Lines 75-82: [void Editor::save()]. *)
Definition save (ed : Editor) (picks : list string) : Editor :=
  let '(first, dialog) := initializeImageFileDialog (first_dialog ed) desktop QFileDialog_new AcceptSave in
  save_loop (set_dialog ed first dialog) (map (selectedFile dialog) picks).

(** Lines 177-183: [bool Editor::runAsBatch(inFileName, outFileName)]. *)
Definition runAsBatch (ed : Editor) (fin fout : string) : option (Editor * bool) :=
  loadFile (set_batch ed true fin fout) fin.

Inductive Key := Key_Space | Key_Escape | Key_Other.

Definition close (ed : Editor) : Editor := set_output ed true (written ed).

(** Lines 185-195: [void Editor::keyPressEvent(event)]. *)
Definition keyPressEvent (ed : Editor) (key : Key) : Editor :=
  match batch_mode_ ed, key with
  | true, Key_Space => close (fst (saveFile ed (batch_output_file_ ed)))
  | true, Key_Escape => close ed
  | _, _ => ed
  end.

End Handlers.

(** Lines 20-41 and 131-164: the constructor with [createActions].  The
    slider's range is [0..100] at value 0, saving is disabled and the
    scroll area, which holds the slider, is hidden. *)
Definition Editor_new (p : MinMaxPyramid) : Editor :=
  {| batch_mode_ := false; batch_input_file_ := ""; batch_output_file_ := "";
     pyramid_ := p; cv_image_ := mkMat 0 0 0 []; image_ := mkMat 0 0 0 [];
     slider_min := 0; slider_max := 100; slider_value := 0;
     save_enabled := false; scroll_visible := false;
     window_title := "UnderSee"; closed := false; written := [];
     first_dialog := true; dialogs := [] |}.

(** ** The event loop *)

(** What the user can do to the window: open or save through a dialog,
    drag the slider, press a key, or quit ([E&xit], line 142). *)
Inductive event :=
  | EvOpen (picks : list string)
  | EvSave (picks : list string)
  | EvSlide (v : Z)
  | EvKey (k : Key)
  | EvExit.

Section Events.

Context `{Resize}.
Variable imread : string -> option (Mat Z).
Variable write_ok : string -> bool.
Variable desktop : Desktop.

(** Which events the window accepts: none once closed, [Save...] only
    when enabled (line 138 and 107), and the slider only once the scroll
    area that holds it is visible (lines 35 and 111). *)
Definition enabled (ed : Editor) (ev : event) : bool :=
  negb (closed ed) &&
  match ev with
  | EvSave _ => save_enabled ed
  | EvSlide _ => scroll_visible ed
  | _ => true
  end.

Definition step (ed : Editor) (ev : event) : option Editor :=
  match ev with
  | EvOpen picks => open_ imread desktop ed picks
  | EvSave picks => Some (save write_ok desktop ed picks)
  | EvSlide v => setValue ed v
  | EvKey k => Some (keyPressEvent write_ok ed k)
  | EvExit => Some (close ed)
  end.

(** [src/main.cc] lines 24-42: a fresh pyramid and window; with two
    arguments, batch mode on them, and exit code 1 if the input does not
    load.  [inl] is the running window and [inr] an exit code. *)
Definition main_ (argv : list string) : option (Editor + Z) :=
  let ed := Editor_new MinMaxPyramid_new in
  match argv with
  | [_; fin; fout] =>
      let* '(ed, ok) := runAsBatch imread ed fin fout in
      Some (if ok then inl ed else inr 1)
  | _ => Some (inl ed)
  end.

Inductive reachable : Editor -> Prop :=
  | reach_main argv ed : main_ argv = Some (inl ed) -> reachable ed
  | reach_step ed ev ed' :
      reachable ed -> enabled ed ev = true -> step ed ev = Some ed' -> reachable ed'.

End Events.

Section EventLoop.

Context `{Resize}.
Variable imread : string -> option (Mat Z).
Variable write_ok : string -> bool.
Variable desktop : Desktop.

(** [src/main.cc] line 41, [app.exec()]: the event loop delivers the
    user's events in order.  An event the window does not accept (a
    hidden slider, a disabled action, a closed window) reaches no handler. *)
Fixpoint run (ed : Editor) (evs : list event) : option Editor :=
  match evs with
  | [] => Some ed
  | ev :: evs =>
      if enabled ed ev then let* ed := step imread write_ok desktop ed ev in run ed evs
      else run ed evs
  end.

End EventLoop.

End Editor.
