(* ===== verification/EditorProps.v ===== *)
(** * EditorProps: what the window guarantees

    The invariant [editor_inv] of the states the window reaches
    ([Editor.reachable]) and the theorems about the editor.  No event has
    undefined behaviour.  The slider only selects scales in
    [[MinScale, MaxScale]] and reaches each of them.  Opening a file shows
    it only if the slider was at 0.  The event loop [run] reaches exactly
    the reachable states.  The displayed image is a well-formed image of
    the loaded size.  Unreadable files leave the window as it was.  The
    dialogs are configured as [initializeImageFileDialog] means, and
    [Save] writes to a name with a suffix.  In batch mode, Space closes the
    window even when the write fails. *)

From Stdlib Require Import ZArith Lia List Bool Ascii String.
From stdpp Require Import base list option.
From S2P Require Import Prelude Mat Downsample F32 Resize Pyramid FileDialog Editor.
Import ListNotations.
Import FileDialog.FileDialog Editor.Editor.
Open Scope Z_scope.
Open Scope undersee_scope.

(** The images [cv::imread] returns: non-empty, with [int] sides below
    [INT_MAX].  OpenCV's readers cap the sides far lower, and a side of
    [INT_MAX] would overflow in [Downsample] ([PreProcess_int_dims]). *)
Definition loaded_ok (m : Mat Z) : Prop :=
  wf8 m /\ 1 <= rows m < INT_MAX /\ 1 <= cols m < INT_MAX.

(** What the window shows once an image [m] is loaded: the pyramid of [m],
    the slider over [0 .. MaxScale - MinScale], and the image its position
    selects.  At a position [v <> 0] that is the relevel at
    [MaxScale - v].  At 0 it is [m] itself, or the relevel at [MaxScale]
    when the slider came back to 0. *)
Definition shows_loaded `{Resize} (ed : Editor) (m : Mat Z) : Prop :=
  loaded_ok m /\ pyramid_ ed = pyramid_spec m /\
  slider_max ed = MaxScale (pyramid_spec m) - MinScale (pyramid_spec m) /\
  image_ ed = cv_image_ ed /\
  (slider_value ed <> 0 ->
   Relevel (pyramid_ ed) (MaxScale (pyramid_ ed) - slider_value ed) = Some (image_ ed)) /\
  (slider_value ed = 0 ->
   image_ ed = m \/ Relevel (pyramid_ ed) (MaxScale (pyramid_ ed)) = Some (image_ ed)).

Definition editor_inv `{Resize} (ed : Editor) : Prop :=
  slider_min ed = 0 /\ 0 <= slider_value ed <= slider_max ed /\
  (scroll_visible ed = true -> exists m, shows_loaded ed m).

(** ** Lemmas *)

(** Reduces field reads of updated states, and nothing else. *)
Local Ltac fields :=
  cbn [set_slider set_images set_loaded set_shown set_batch set_output set_dialog
       batch_mode_ batch_input_file_ batch_output_file_ pyramid_ cv_image_ image_
       slider_min slider_max slider_value save_enabled scroll_visible window_title
       closed written first_dialog dialogs] in *.

Section EditorProofs.

Context `{Resize}.
Variable imread : string -> option (Mat Z).
Variable write_ok : string -> bool.
Variable desktop : Desktop.
Hypothesis imread_ok : forall f m, imread f = Some m -> loaded_ok m.

Lemma bgr2rgb_ok m : loaded_ok m -> loaded_ok (bgr2rgb m).
Proof.
  intros (Hwf & Hr & Hc). unfold loaded_ok, bgr2rgb; cbn.
  split; [|lia]. apply mat_tab_wf; [lia | lia | intros; now apply px_byte].
Qed.

Lemma scales_ordered m :
  loaded_ok m -> 0 <= MinScale (pyramid_spec m) <= MaxScale (pyramid_spec m).
Proof.
  intros (_ & Hr & Hc). unfold MinScale, MaxScale; cbn.
  pose proof (min_layer_le_stop m). unfold min_layer_spec in *. lia.
Qed.

(** [Relevel] on a loaded pyramid at a scale in range succeeds. *)
Lemma Relevel_loaded m s :
  loaded_ok m -> MinScale (pyramid_spec m) <= s <= MaxScale (pyramid_spec m) ->
  exists out, Relevel (pyramid_spec m) s = Some out.
Proof.
  intros Hm Hs. pose proof Hm as (Hwf & Hr & Hc).
  eexists. apply Relevel_in_range; auto; lia.
Qed.

(** [setValue] on a loaded pyramid whose slider range is within
    [0 .. MaxScale - MinScale]: either the clamped value is the current one
    and nothing happens, or the handler relevels at an in-range scale. *)
Lemma setValue_loaded ed v m :
  loaded_ok m -> pyramid_ ed = pyramid_spec m ->
  0 <= slider_min ed <= slider_max ed ->
  slider_max ed <= MaxScale (pyramid_spec m) - MinScale (pyramid_spec m) ->
  let v' := Z.max (slider_min ed) (Z.min (slider_max ed) v) in
  (v' = slider_value ed /\ setValue ed v = Some ed) \/
  (v' <> slider_value ed /\
   MinScale (pyramid_spec m) <= MaxScale (pyramid_spec m) - v' <= MaxScale (pyramid_spec m) /\
   exists out, Relevel (pyramid_spec m) (MaxScale (pyramid_spec m) - v') = Some out /\
     setValue ed v = Some (set_images (set_slider ed (slider_min ed) (slider_max ed) v') out out)).
Proof.
  intros Hm Hp Hlo Hhi v'. unfold setValue. fold v'.
  destruct (Z.eqb_spec v' (slider_value ed)) as [E | E]; [left; auto | right].
  assert (Hs : MinScale (pyramid_spec m) <= MaxScale (pyramid_spec m) - v' <= MaxScale (pyramid_spec m))
    by (unfold v'; lia).
  split; [exact E | split; [exact Hs|]].
  destruct (Relevel_loaded m _ Hm Hs) as [out Hout]. exists out. split; [exact Hout|].
  unfold localitySliderChanged. cbn [pyramid_ set_slider]. rewrite Hp, Hout. reflexivity.
Qed.

(** [Relevel_loaded] for a pyramid kept abstract in a proof. *)
Lemma Relevel_loaded_eq p cv s :
  p = pyramid_spec cv -> loaded_ok cv -> MinScale p <= s <= MaxScale p ->
  exists out, Relevel p s = Some out.
Proof. intros ->. apply Relevel_loaded. Qed.

(** Steps through a [Relevel] call at an in-range scale of the loaded
    pyramid [p = pyramid_spec cv]. *)
Local Ltac relevel_step Hp Hm :=
  match goal with
  | |- context [Relevel ?p ?s] =>
      let o := fresh "o" in let Ho := fresh "Ho" in
      destruct (Relevel_loaded_eq p _ s Hp Hm ltac:(lia)) as [o Ho]; rewrite Ho; cbn
  end.

(** [loadFile] of a file that [imread] reads: the new pyramid, the slider
    at 0 over [0 .. MaxScale - MinScale], and on screen the converted
    image if the slider was already at 0, or else its relevel at
    [MaxScale] (from the [valueChanged] signals of [setRange] and
    [setValue]). *)
Lemma loadFile_loaded ed f m :
  imread f = Some m -> slider_min ed = 0 -> 0 <= slider_value ed <= slider_max ed ->
  let cv := bgr2rgb m in
  let p := pyramid_spec cv in
  exists img,
    loadFile imread ed f =
      Some (set_shown (set_images (set_slider (set_loaded ed ("UnderSee - " ++ f)%string p cv)
                                              0 (MaxScale p - MinScale p) 0) img img), true) /\
    (slider_value ed = 0 -> img = cv) /\
    (slider_value ed <> 0 -> Relevel p (MaxScale p) = Some img).
Proof.
  intros Hf Hlo Hval. cbv zeta.
  assert (Hm : loaded_ok (bgr2rgb m)) by (apply bgr2rgb_ok, (imread_ok f), Hf).
  pose proof Hm as (Hwf & Hr & Hc). pose proof (scales_ordered _ Hm) as Hord.
  unfold loadFile. rewrite Hf.
  rewrite (PreProcess_ok (bgr2rgb m) Hwf ltac:(lia) ltac:(lia) (pyramid_ ed) ltac:(lia)).
  cbv beta iota.
  remember (pyramid_spec (bgr2rgb m)) as p eqn:Hp. remember (bgr2rgb m) as cv eqn:Hcv.
  remember ("UnderSee - " ++ f)%string as title eqn:Ht.
  remember (MaxScale p) as Mx eqn:HMx. remember (MinScale p) as Mn eqn:HMn.
  destruct ed as [bm bi bo pe cvi img lo hi val se sv wt cl wr]; cbn in *. subst lo.
  unfold setRange, setValue, localitySliderChanged; cbn. rewrite <- HMx.
  rewrite (Z.max_r 0 (Mx - Mn)) by lia.
  destruct (Z.eqb_spec (Mx - Mn) hi) as [<- | Hne]; cbn.
  - replace (Z.max 0 (Z.min (Mx - Mn) 0)) with 0 by lia.
    destruct (Z.eqb_spec 0 val) as [<- | Hv]; cbn.
    + exists cv. split; [reflexivity | split; [reflexivity | lia]].
    + relevel_step Hp Hm. exists o. split; [reflexivity | split; [lia | intros _; rewrite Z.sub_0_r in *; subst Mx; assumption]].
  - set (v1 := Z.max 0 (Z.min (Mx - Mn) val)).
    destruct (Z.eqb_spec v1 val) as [E1 | E1]; cbn.
    + replace (Z.max 0 (Z.min (Mx - Mn) 0)) with 0 by lia.
      destruct (Z.eqb_spec 0 val) as [<- | Hv]; cbn.
      * exists cv. split; [reflexivity | split; [reflexivity | lia]].
      * relevel_step Hp Hm. exists o. split; [reflexivity | split; [lia | intros _; rewrite Z.sub_0_r in *; subst Mx; assumption]].
    + relevel_step Hp Hm.
      replace (Z.max 0 (Z.min (Mx - Mn) 0)) with 0 by lia.
      destruct (Z.eqb_spec 0 v1) as [E0 | E0]; cbn.
      * rewrite <- E0. exists o. split; [reflexivity | split; [lia|]]. intros _. rewrite <- E0, Z.sub_0_r in Ho. exact Ho.
      * rewrite <- HMx. relevel_step Hp Hm.
        exists o0. split; [reflexivity | split; [lia | intros _; rewrite Z.sub_0_r in *; subst Mx; assumption]].
Qed.


(** [loadFile] never has undefined behaviour and keeps the invariant; a
    file that does not load leaves the window as it was. *)
Lemma loadFile_inv ed f :
  editor_inv ed ->
  exists ed' ok, loadFile imread ed f = Some (ed', ok) /\ editor_inv ed' /\
    closed ed' = closed ed /\ batch_mode_ ed' = batch_mode_ ed.
Proof.
  intros (Hlo & Hval & Hvis). destruct (imread f) as [m|] eqn:Hf.
  - destruct (loadFile_loaded ed f m Hf Hlo Hval) as (img & Hl & H0 & H1).
    assert (Hm : loaded_ok (bgr2rgb m)) by (apply bgr2rgb_ok, (imread_ok f), Hf).
    pose proof (scales_ordered _ Hm) as Hord.
    rewrite Hl. eexists _, true. split; [reflexivity|].
    split; [|split; reflexivity]. unfold editor_inv, shows_loaded. fields. split; [reflexivity | split; [lia|]].
    intros _. exists (bgr2rgb m). split; [exact Hm|]. do 3 (split; [reflexivity|]).
    split; [intros C; lia | intros _].
    destruct (Z.eq_dec (slider_value ed) 0) as [E | E]; [left | right]; auto.
  - exists ed, false. unfold loadFile. rewrite Hf. unfold editor_inv. auto.
Qed.

Lemma open_loop_inv picks : forall ed,
  editor_inv ed -> exists ed', open_loop imread ed picks = Some ed' /\ editor_inv ed'.
Proof.
  induction picks as [|f fs IH]; intros ed Hinv; [exists ed; auto|].
  cbn. destruct (loadFile_inv ed f Hinv) as (ed1 & ok & -> & Hinv1 & _). cbn.
  destruct ok; [exists ed1; auto | now apply IH].
Qed.

Lemma saveFile_inv ed f : editor_inv ed -> editor_inv (fst (saveFile write_ok ed f)).
Proof. unfold saveFile. destruct (write_ok f); auto. Qed.

Lemma save_loop_inv names : forall ed, editor_inv ed -> editor_inv (save_loop write_ok ed names).
Proof.
  induction names as [|f fs IH]; intros ed Hinv; [exact Hinv|]. cbn.
  pose proof (saveFile_inv ed f Hinv) as Hs. destruct (saveFile write_ok ed f) as [ed1 []]; auto.
Qed.

Lemma set_dialog_inv ed b d : editor_inv (set_dialog ed b d) <-> editor_inv ed.
Proof. reflexivity. Qed.

(** [open] and [save] with the dialog [initializeImageFileDialog]
    configures. *)
Lemma open_eq ed picks :
  open_ imread desktop ed picks =
  let* ed' := open_loop imread (set_dialog ed false (dialog_spec (first_dialog ed) desktop AcceptOpen)) picks in
  Some (set_batch ed' false (batch_input_file_ ed') (batch_output_file_ ed')).
Proof.
  unfold open_. rewrite initializeImageFileDialog_new.
  replace (map (selectedFile (dialog_spec (first_dialog ed) desktop AcceptOpen)) picks) with picks
    by (induction picks as [|p ps IH]; [reflexivity | cbn; now rewrite <- IH]).
  reflexivity.
Qed.

Lemma save_eq ed picks :
  save write_ok desktop ed picks =
  save_loop write_ok (set_dialog ed false (dialog_spec (first_dialog ed) desktop AcceptSave))
    (map (selectedFile (dialog_spec (first_dialog ed) desktop AcceptSave)) picks).
Proof. unfold save. now rewrite initializeImageFileDialog_new. Qed.

Lemma save_inv ed picks : editor_inv ed -> editor_inv (save write_ok desktop ed picks).
Proof. intros Hinv. rewrite save_eq. now apply save_loop_inv. Qed.

(** Moving the slider of a loaded window relevels at an in-range scale. *)
Lemma setValue_inv ed v :
  editor_inv ed -> scroll_visible ed = true ->
  exists ed', setValue ed v = Some ed' /\ editor_inv ed'.
Proof.
  intros (Hlo & Hval & Hvis) Hv. destruct (Hvis Hv) as (m & Hm & Hp & Hmax & Hic & Hshow).
  pose proof (scales_ordered m Hm).
  destruct (setValue_loaded ed v m Hm Hp ltac:(lia) ltac:(lia)) as [(_ & ->) | (_ & Hs & out & Hout & ->)].
  - exists ed. split; [reflexivity | split; [|split]; auto].
  - eexists. split; [reflexivity|]. unfold editor_inv, shows_loaded. fields. split; [exact Hlo | split; [lia|]].
    intros _. exists m. split; [exact Hm | split; [exact Hp | split; [exact Hmax | split; [reflexivity|]]]].
    rewrite Hp. split; [intros _; exact Hout | intros E; right].
    rewrite E, Z.sub_0_r in Hout. exact Hout.
Qed.

Lemma keyPressEvent_inv ed k : editor_inv ed -> editor_inv (keyPressEvent write_ok ed k).
Proof.
  intros Hinv. pose proof (saveFile_inv ed (batch_output_file_ ed) Hinv).
  unfold keyPressEvent. destruct (batch_mode_ ed), k; auto.
Qed.

(** Every enabled event succeeds and keeps the invariant. *)
Lemma step_inv ed ev :
  editor_inv ed -> enabled ed ev = true ->
  exists ed', step imread write_ok desktop ed ev = Some ed' /\ editor_inv ed'.
Proof.
  intros Hinv Hen. unfold enabled in Hen. apply andb_true_iff in Hen as [_ Hen].
  destruct ev as [picks | picks | v | k |]; cbn.
  - rewrite open_eq.
    destruct (open_loop_inv picks (set_dialog ed false (dialog_spec (first_dialog ed) desktop AcceptOpen)) Hinv)
      as (ed' & Hl & Hinv'). rewrite Hl.
    eexists; split; [reflexivity | exact Hinv'].
  - eexists; split; [reflexivity | now apply save_inv].
  - now apply setValue_inv.
  - eexists; split; [reflexivity | now apply keyPressEvent_inv].
  - eexists; split; [reflexivity | exact Hinv].
Qed.

(** [main] always starts, and a window it starts satisfies the invariant. *)
Lemma main_inv argv :
  exists r, main_ imread argv = Some r /\ forall ed, r = inl ed -> editor_inv ed.
Proof.
  assert (H0 : editor_inv (Editor_new MinMaxPyramid_new))
    by (unfold editor_inv; cbn; split; [reflexivity | split; [lia | discriminate]]).
  unfold main_.
  destruct argv as [|a [|fin [|fout [|x rest]]]]; try (eexists; split; [reflexivity | congruence]).
  unfold runAsBatch.
  destruct (loadFile_inv (set_batch (Editor_new MinMaxPyramid_new) true fin fout) fin H0)
    as (ed' & ok & -> & Hinv' & _).
  cbn. eexists; split; [reflexivity|]. destruct ok; congruence.
Qed.

Lemma reachable_inv ed : reachable imread write_ok desktop ed -> editor_inv ed.
Proof.
  induction 1 as [argv ed Hmain | ed ev ed' _ IH Hen Hstep].
  - destruct (main_inv argv) as (r & Hr & Hinv). rewrite Hmain in Hr. injection Hr as <-. auto.
  - destruct (step_inv ed ev IH Hen) as (ed'' & Hs & Hinv). congruence.
Qed.

End EditorProofs.

(** ** Theorems *)

(** The desktop of the examples. *)
Definition desk0 : Desktop := mkDesktop ["/home/user/Pictures"%string] "/home/user"%string.

(** The file that the examples open. *)
Definition read_blocks4 (f : string) : option (Mat Z) := Some PyramidTests.blocks4.

Lemma read_blocks4_ok f m : read_blocks4 f = Some m -> loaded_ok m.
Proof. intros [= <-]. unfold loaded_ok. image_hyps. Qed.

(** The window after opening that file. *)
Definition blocks4_window : Editor :=
  from_option id (Editor_new MinMaxPyramid_new)
    (step read_blocks4 (fun _ => true) desk0 (Editor_new MinMaxPyramid_new) (EvOpen ["in.png"%string])).

Lemma blocks4_window_reachable : reachable read_blocks4 (fun _ => true) desk0 blocks4_window.
Proof.
  apply (reach_step _ _ _ (Editor_new MinMaxPyramid_new) (EvOpen ["in.png"%string])).
  - apply (reach_main _ _ _ []). reflexivity.
  - reflexivity.
  - vm_compute. reflexivity.
Qed.

(** C12 The program never reaches undefined behaviour through the window,
    for any images [cv::imread] returns.  [main] always starts, and every
    event the window accepts in a reachable state is handled: loading
    builds a pyramid, and each [Relevel] the slider triggers indexes
    images that exist. *)
Theorem editor_safe `{Resize} imread write_ok desk :
  (forall f m, imread f = Some m -> loaded_ok m) ->
  (forall argv, exists r, main_ imread argv = Some r) /\
  (forall ed ev, reachable imread write_ok desk ed -> enabled ed ev = true ->
                 exists ed', step imread write_ok desk ed ev = Some ed').
Proof.
  intros Himg. split.
  - intros argv. destruct (main_inv imread Himg argv) as (r & Hr & _). eauto.
  - intros ed ev Hr Hen. destruct (step_inv imread write_ok desk Himg ed ev (reachable_inv imread write_ok desk Himg ed Hr) Hen)
      as (ed' & Hs & _). eauto.
Qed.

Lemma editor_safe_witness :
  (forall f m, read_blocks4 f = Some m -> loaded_ok m) /\
  (forall argv, exists r, main_ read_blocks4 argv = Some r) /\
  (forall ed ev, reachable read_blocks4 (fun _ => true) desk0 ed -> enabled ed ev = true ->
                 exists ed', step read_blocks4 (fun _ => true) desk0 ed ev = Some ed').
Proof. split; [exact read_blocks4_ok | apply editor_safe, read_blocks4_ok]. Defined.

(** C13 No position of the locality slider shows the original image,
    contrary to the comment of [localitySliderChanged] (lines 167-169).
    Once an image is loaded the slider runs over
    [0 .. MaxScale - MinScale], and position [v] relevels at
    [MaxScale - v], always within [[MinScale, MaxScale]].  The leftmost
    position is [MaxScale], not an out-of-range scale. *)
Theorem slider_scale_in_range `{Resize} imread write_ok desk ed v :
  (forall f m, imread f = Some m -> loaded_ok m) ->
  reachable imread write_ok desk ed -> scroll_visible ed = true ->
  slider_min ed <= v <= slider_max ed ->
  slider_min ed = 0 /\
  MinScale (pyramid_ ed) <= MaxScale (pyramid_ ed) - v <= MaxScale (pyramid_ ed).
Proof.
  intros Himg Hr Hv Hsl. destruct (reachable_inv imread write_ok desk Himg ed Hr) as (Hlo & Hval & Hvis).
  destruct (Hvis Hv) as (m & Hm & -> & Hmax & _). pose proof (scales_ordered m Hm). lia.
Qed.

Lemma slider_scale_in_range_witness :
  ((forall f m, read_blocks4 f = Some m -> loaded_ok m) /\
   reachable read_blocks4 (fun _ => true) desk0 blocks4_window /\ scroll_visible blocks4_window = true /\
   slider_min blocks4_window <= 1 <= slider_max blocks4_window) /\
  slider_min blocks4_window = 0 /\
  MinScale (pyramid_ blocks4_window) <= MaxScale (pyramid_ blocks4_window) - 1 <=
    MaxScale (pyramid_ blocks4_window).
Proof.
  assert (Hs : scroll_visible blocks4_window = true /\
               slider_min blocks4_window <= 1 <= slider_max blocks4_window)
    by (vm_compute; split; [reflexivity | split; discriminate]).
  split; [split; [exact read_blocks4_ok | split; [exact blocks4_window_reachable | exact Hs]]|].
  apply (slider_scale_in_range read_blocks4 (fun _ => true) desk0); [exact read_blocks4_ok | exact blocks4_window_reachable | apply Hs..].
Defined.

(** C16 Opening a file shows the file's image only if the slider was at
    its leftmost position before.  [open] builds the new pyramid and puts
    the slider at 0.  If the slider was elsewhere, [setValue(0)] (line 101,
    commented "Original image") emits [valueChanged].  The window then
    shows the relevel at [MaxScale], and [image_], the image [Save] writes,
    is that relevel. *)
Theorem open_display `{Resize} imread write_ok desk ed f m :
  (forall f m, imread f = Some m -> loaded_ok m) ->
  reachable imread write_ok desk ed -> imread f = Some m ->
  exists ed', step imread write_ok desk ed (EvOpen [f]) = Some ed' /\
    pyramid_ ed' = pyramid_spec (bgr2rgb m) /\ slider_value ed' = 0 /\ batch_mode_ ed' = false /\
    (slider_value ed = 0 -> image_ ed' = bgr2rgb m) /\
    (slider_value ed <> 0 -> Relevel (pyramid_ ed') (MaxScale (pyramid_ ed')) = Some (image_ ed')).
Proof.
  intros Himg Hr Hf. destruct (reachable_inv imread write_ok desk Himg ed Hr) as (Hlo & Hval & _).
  destruct (loadFile_loaded imread Himg (set_dialog ed false (dialog_spec (first_dialog ed) desk AcceptOpen))
              f m Hf Hlo Hval) as (img & Hl & H0 & H1).
  cbn [step]. rewrite open_eq. cbn [open_loop]. rewrite Hl.
  cbn -[pyramid_spec MaxScale MinScale bgr2rgb Relevel].
  eexists. split; [reflexivity|]. repeat split; assumption.
Qed.

Lemma open_display_witness :
  ((forall f m, read_blocks4 f = Some m -> loaded_ok m) /\
   reachable read_blocks4 (fun _ => true) desk0 blocks4_window /\
   read_blocks4 "in.png"%string = Some PyramidTests.blocks4) /\
  exists ed', step read_blocks4 (fun _ => true) desk0 blocks4_window (EvOpen ["in.png"%string]) = Some ed' /\
    pyramid_ ed' = pyramid_spec (bgr2rgb PyramidTests.blocks4) /\ slider_value ed' = 0 /\
    batch_mode_ ed' = false /\
    (slider_value blocks4_window = 0 -> image_ ed' = bgr2rgb PyramidTests.blocks4) /\
    (slider_value blocks4_window <> 0 ->
     Relevel (pyramid_ ed') (MaxScale (pyramid_ ed')) = Some (image_ ed')).
Proof.
  split; [split; [exact read_blocks4_ok | split; [exact blocks4_window_reachable | reflexivity]]|].
  apply (open_display read_blocks4 (fun _ => true) desk0); [exact read_blocks4_ok | exact blocks4_window_reachable | reflexivity].
Defined.

(** ** The event loop *)

Lemma run_app `{Resize} imread write_ok desk ed evs1 evs2 :
  run imread write_ok desk ed (evs1 ++ evs2) =
  (let* ed' := run imread write_ok desk ed evs1 in run imread write_ok desk ed' evs2).
Proof.
  revert ed. induction evs1 as [|ev evs IH]; intros ed; [reflexivity|]. cbn.
  destruct (enabled ed ev); [destruct (step imread write_ok desk ed ev)|]; cbn; auto.
Qed.

(** The states the inductive [reachable] describes are exactly the
    states of the event loop: those [app.exec()] reaches from a window
    [main] opened, by some sequence of user events.  So the invariants
    below, proved by induction on [reachable], hold in every state of the
    event loop. *)
Lemma reachable_run `{Resize} imread write_ok desk ed :
  reachable imread write_ok desk ed <->
  exists argv ed0 evs, main_ imread argv = Some (inl ed0) /\ run imread write_ok desk ed0 evs = Some ed.
Proof.
  split.
  - induction 1 as [argv ed Hm | ed ev ed' _ (argv & ed0 & evs & Hm & Hr) Hen Hs].
    + exists argv, ed, []. auto.
    + exists argv, ed0, (evs ++ [ev]). split; [exact Hm|].
      rewrite run_app, Hr. cbn. rewrite Hen, Hs. reflexivity.
  - intros (argv & ed0 & evs & Hm & Hr).
    assert (H0 : reachable imread write_ok desk ed0) by (eapply reach_main; eauto).
    clear Hm. revert ed0 H0 Hr. induction evs as [|ev evs IH]; intros ed0 H0 Hr; cbn in Hr.
    + congruence.
    + destruct (enabled ed0 ev) eqn:Hen; [|eauto].
      destruct (step imread write_ok desk ed0 ev) as [ed1|] eqn:Hs; [|discriminate].
      eapply IH; [eapply reach_step; eauto | exact Hr].
Qed.

(** ** The displayed image *)

(** C19 Once an image is loaded, the image the window holds ([image_],
    which [Save] writes) is the same buffer as [cv_image_] and a
    well-formed CV_8UC3 image of the loaded image's size, in every
    reachable state. *)
Theorem displayed_image_wf `{Resize} imread write_ok desk ed :
  (forall f m, imread f = Some m -> loaded_ok m) ->
  reachable imread write_ok desk ed -> scroll_visible ed = true ->
  exists m, loaded_ok m /\ pyramid_ ed = pyramid_spec m /\ image_ ed = cv_image_ ed /\
    wf8 (image_ ed) /\ rows (image_ ed) = rows m /\ cols (image_ ed) = cols m.
Proof.
  intros Himg Hr Hv. destruct (reachable_inv imread write_ok desk Himg ed Hr) as (_ & _ & Hvis).
  destruct (Hvis Hv) as (m & Hm & Hp & _ & Hic & Hshow). exists m.
  do 3 (split; [assumption|]). pose proof Hm as (Hwf & Hr' & Hc').
  destruct Hshow as [Hne H0]. destruct (Z.eq_dec (slider_value ed) 0) as [E | E].
  - destruct (H0 E) as [-> | Hs]; [auto|].
    rewrite Hp in Hs. eapply (Relevel_pyramid_wf m); eauto; lia.
  - specialize (Hne E). rewrite Hp in Hne. eapply (Relevel_pyramid_wf m); eauto; lia.
Qed.

Lemma displayed_image_wf_witness :
  ((forall f m, read_blocks4 f = Some m -> loaded_ok m) /\
   reachable read_blocks4 (fun _ => true) desk0 blocks4_window /\ scroll_visible blocks4_window = true) /\
  exists m, loaded_ok m /\ pyramid_ blocks4_window = pyramid_spec m /\
    image_ blocks4_window = cv_image_ blocks4_window /\
    wf8 (image_ blocks4_window) /\ rows (image_ blocks4_window) = rows m /\
    cols (image_ blocks4_window) = cols m.
Proof.
  assert (Hv : scroll_visible blocks4_window = true) by (vm_compute; reflexivity).
  split; [split; [exact read_blocks4_ok | split; [exact blocks4_window_reachable | exact Hv]]|].
  apply (displayed_image_wf read_blocks4 (fun _ => true) desk0);
    [exact read_blocks4_ok | exact blocks4_window_reachable | exact Hv].
Defined.

(** ** Every scale can be shown *)

(** One slider move to a new value relevels at [MaxScale - value]. *)
Lemma slide_to `{Resize} ed m v :
  loaded_ok m -> pyramid_ ed = pyramid_spec m -> slider_min ed = 0 ->
  slider_max ed = MaxScale (pyramid_spec m) - MinScale (pyramid_spec m) ->
  0 <= v <= slider_max ed -> v <> slider_value ed ->
  exists ed', setValue ed v = Some ed' /\ slider_value ed' = v /\ pyramid_ ed' = pyramid_ ed /\
    slider_min ed' = 0 /\ slider_max ed' = slider_max ed /\
    scroll_visible ed' = scroll_visible ed /\ closed ed' = closed ed /\
    Relevel (pyramid_ ed) (MaxScale (pyramid_ ed) - v) = Some (image_ ed').
Proof.
  intros Hm Hp Hlo Hmax Hv Hne. pose proof (scales_ordered m Hm).
  destruct (setValue_loaded ed v m Hm Hp ltac:(lia) ltac:(lia))
    as [(E & _) | (_ & _ & out & Hout & ->)]; [lia|].
  eexists. split; [reflexivity|]. cbn.
  replace (Z.max (slider_min ed) (Z.min (slider_max ed) v)) with v in * by lia.
  rewrite Hp. repeat split; auto.
Qed.

Lemma run_slide `{Resize} imread write_ok desk ed ed' v evs :
  closed ed = false -> scroll_visible ed = true -> setValue ed v = Some ed' ->
  run imread write_ok desk ed (EvSlide v :: evs) = run imread write_ok desk ed' evs.
Proof.
  intros Hc Hv Hs. cbn [run]. unfold enabled. rewrite Hc, Hv. cbn [negb andb step].
  now rewrite Hs.
Qed.

(** C17 Liveness of the slider: in every reachable state with an image
    loaded whose pyramid has at least two scales, the user can show the
    relevel at any scale in [[MinScale, MaxScale]] with at most two slider
    moves.  Two are needed when the slider already sits at that scale's
    position but the window shows something else, as after opening a
    file. *)
Theorem slider_reaches_every_scale `{Resize} imread write_ok desk ed s :
  (forall f m, imread f = Some m -> loaded_ok m) ->
  reachable imread write_ok desk ed -> scroll_visible ed = true -> closed ed = false ->
  MinScale (pyramid_ ed) < MaxScale (pyramid_ ed) ->
  MinScale (pyramid_ ed) <= s <= MaxScale (pyramid_ ed) ->
  exists vs ed', (length vs <= 2)%nat /\
    run imread write_ok desk ed (map EvSlide vs) = Some ed' /\ pyramid_ ed' = pyramid_ ed /\
    Relevel (pyramid_ ed) s = Some (image_ ed').
Proof.
  intros Himg Hr Hv Hc Hlt Hs. destruct (reachable_inv imread write_ok desk Himg ed Hr) as (Hlo & Hval & Hvis).
  destruct (Hvis Hv) as (m & Hm & Hp & Hmax & _). rewrite Hp in Hlt, Hs |- *.
  set (v := MaxScale (pyramid_spec m) - s).
  destruct (Z.eq_dec v (slider_value ed)) as [E | E].
  - set (w := if v =? 0 then 1 else 0).
    assert (Hw : w <> v /\ 0 <= w <= slider_max ed) by (unfold w; destruct (Z.eqb_spec v 0); lia).
    destruct (slide_to ed m w Hm Hp Hlo Hmax ltac:(lia) ltac:(lia))
      as (ed1 & Hs1 & Hv1 & Hp1 & Hlo1 & Hmax1 & Hvis1 & Hc1 & _).
    assert (Hp1m : pyramid_ ed1 = pyramid_spec m) by congruence.
    assert (Hmax1m : slider_max ed1 = MaxScale (pyramid_spec m) - MinScale (pyramid_spec m)) by congruence.
    destruct (slide_to ed1 m v Hm Hp1m Hlo1 Hmax1m ltac:(lia) ltac:(lia))
      as (ed2 & Hs2 & _ & Hp2 & _ & _ & _ & _ & Hrel).
    exists [w; v], ed2. split; [cbn; lia|].
    cbn [map]. rewrite (run_slide _ _ _ ed ed1) by assumption.
    rewrite (run_slide _ _ _ ed1 ed2) by congruence.
    split; [reflexivity | split; [congruence|]]. rewrite Hp1, Hp in Hrel. unfold v in Hrel.
    now replace (MaxScale (pyramid_spec m) - (MaxScale (pyramid_spec m) - s)) with s in Hrel by lia.
  - destruct (slide_to ed m v Hm Hp Hlo Hmax ltac:(unfold v; lia) E)
      as (ed1 & Hs1 & _ & Hp1 & _ & _ & _ & _ & Hrel).
    exists [v], ed1. split; [cbn; lia|].
    cbn [map]. rewrite (run_slide _ _ _ ed ed1) by assumption.
    split; [reflexivity | split; [congruence|]]. rewrite Hp in Hrel. unfold v in Hrel.
    now replace (MaxScale (pyramid_spec m) - (MaxScale (pyramid_spec m) - s)) with s in Hrel by lia.
Qed.

Lemma slider_reaches_every_scale_witness :
  ((forall f m, read_blocks4 f = Some m -> loaded_ok m) /\
   reachable read_blocks4 (fun _ => true) desk0 blocks4_window /\ scroll_visible blocks4_window = true /\
   closed blocks4_window = false /\
   MinScale (pyramid_ blocks4_window) < MaxScale (pyramid_ blocks4_window) /\
   MinScale (pyramid_ blocks4_window) <= 1 <= MaxScale (pyramid_ blocks4_window)) /\
  exists vs ed', (length vs <= 2)%nat /\
    run read_blocks4 (fun _ => true) desk0 blocks4_window (map EvSlide vs) = Some ed' /\
    pyramid_ ed' = pyramid_ blocks4_window /\
    Relevel (pyramid_ blocks4_window) 1 = Some (image_ ed').
Proof.
  assert (Hc : scroll_visible blocks4_window = true /\ closed blocks4_window = false /\
               MinScale (pyramid_ blocks4_window) < MaxScale (pyramid_ blocks4_window) /\
               MinScale (pyramid_ blocks4_window) <= 1 <= MaxScale (pyramid_ blocks4_window))
    by (vm_compute; repeat split; discriminate).
  destruct Hc as (Hv & Hcl & Hlt & Hs).
  refine (conj (conj read_blocks4_ok (conj blocks4_window_reachable (conj Hv (conj Hcl (conj Hlt Hs))))) _).
  apply (slider_reaches_every_scale read_blocks4 (fun _ => true) desk0);
    first [exact read_blocks4_ok | exact blocks4_window_reachable | assumption].
Defined.

(** ** Images with a single scale *)

(** C28 When the loaded pyramid has a single scale ([MinScale = MaxScale],
    as for the 2x2 test image), the slider's range is [[0, 0]], the
    slider stands at 0, and no sequence of slider events changes the
    window.  So the image shown stays the one [loadFile] left on screen:
    the loaded image when it was opened with the slider at 0, its relevel
    at [MaxScale] when it was opened with the slider elsewhere (C16). *)
Theorem single_scale_slider_inert `{Resize} imread write_ok desk ed vs :
  (forall f m, imread f = Some m -> loaded_ok m) ->
  reachable imread write_ok desk ed -> scroll_visible ed = true ->
  MinScale (pyramid_ ed) = MaxScale (pyramid_ ed) ->
  slider_min ed = 0 /\ slider_max ed = 0 /\ slider_value ed = 0 /\
  run imread write_ok desk ed (map EvSlide vs) = Some ed.
Proof.
  intros Himg Hr Hv Heq. destruct (reachable_inv imread write_ok desk Himg ed Hr) as (Hlo & Hval & Hvis).
  destruct (Hvis Hv) as (m & Hm & Hp & Hmax & _). rewrite Hp in Heq.
  assert (Hs : forall v, setValue ed v = Some ed).
  { intros v. unfold setValue. replace (Z.max (slider_min ed) (Z.min (slider_max ed) v))
      with (slider_value ed) by lia. now rewrite Z.eqb_refl. }
  do 3 (split; [lia|]).
  induction vs as [|v vs IH]; [reflexivity|]. cbn [map run]. unfold enabled.
  destruct (negb (closed ed) && scroll_visible ed); [cbn [step]; now rewrite Hs|exact IH].
Qed.

(** The window after opening the 2x2 test image. *)
Definition read_four (f : string) : option (Mat Z) := Some TestImages.four.

Lemma read_four_ok f m : read_four f = Some m -> loaded_ok m.
Proof. intros [= <-]. unfold loaded_ok. image_hyps. Qed.

Definition four_window : Editor :=
  from_option id (Editor_new MinMaxPyramid_new)
    (step read_four (fun _ => true) desk0 (Editor_new MinMaxPyramid_new) (EvOpen ["in.png"%string])).

Lemma four_window_reachable : reachable read_four (fun _ => true) desk0 four_window.
Proof.
  apply (reach_step _ _ _ (Editor_new MinMaxPyramid_new) (EvOpen ["in.png"%string])).
  - apply (reach_main _ _ _ []). reflexivity.
  - reflexivity.
  - vm_compute. reflexivity.
Qed.

Lemma single_scale_slider_inert_witness :
  ((forall f m, read_four f = Some m -> loaded_ok m) /\
   reachable read_four (fun _ => true) desk0 four_window /\ scroll_visible four_window = true /\
   MinScale (pyramid_ four_window) = MaxScale (pyramid_ four_window)) /\
  slider_min four_window = 0 /\ slider_max four_window = 0 /\ slider_value four_window = 0 /\
  run read_four (fun _ => true) desk0 four_window (map EvSlide [1; 0; 5]) = Some four_window.
Proof.
  assert (Hc : scroll_visible four_window = true /\
               MinScale (pyramid_ four_window) = MaxScale (pyramid_ four_window))
    by (vm_compute; split; reflexivity).
  destruct Hc as [Hv Heq].
  refine (conj (conj read_four_ok (conj four_window_reachable (conj Hv Heq))) _).
  apply (single_scale_slider_inert read_four (fun _ => true) desk0);
    first [exact read_four_ok | exact four_window_reachable | assumption].
Defined.

(** ** Opening then saving *)

(** [cvtColor] with [COLOR_BGR2RGB] is its own inverse. *)
Lemma bgr2rgb_involutive m : ImageEq (bgr2rgb (bgr2rgb m)) m.
Proof.
  split; [reflexivity | split; [reflexivity|]]. intros r c k (Hr & Hc & Hk).
  assert (rows (bgr2rgb m) = rows m /\ cols (bgr2rgb m) = cols m) as [Er Ec] by (split; reflexivity).
  cbn in Hr, Hc. unfold bgr2rgb at 1. rewrite px_mat_tab by lia.
  unfold bgr2rgb. rewrite px_mat_tab by lia. now replace (2 - (2 - k)) with k by lia.
Qed.

(** C18 Open then save round-trips a file's pixels when the slider is at
    0.  The image written is the loaded one in RGB order (the
    [QImage::Format_RGB888] that [QImageWriter] encodes), so reading it
    back in OpenCV's BGR order gives the file's pixels.  With the slider
    away from 0 this fails, as [open_display] shows.  The save dialog is
    not the first of the process, and the file it writes is the typed name
    under the dialog's default-suffix rule. *)
Theorem open_save_roundtrip `{Resize} imread write_ok desk ed f g m :
  (forall f m, imread f = Some m -> loaded_ok m) ->
  reachable imread write_ok desk ed -> closed ed = false -> slider_value ed = 0 ->
  imread f = Some m -> write_ok (selectedFile (dialog_spec false desk AcceptSave) g) = true ->
  exists ed' img, run imread write_ok desk ed [EvOpen [f]; EvSave [g]] = Some ed' /\
    written ed' = (selectedFile (dialog_spec false desk AcceptSave) g, img) :: written ed /\
    ImageEq (bgr2rgb img) m.
Proof.
  intros Himg Hr Hc H0 Hf Hg. destruct (reachable_inv imread write_ok desk Himg ed Hr) as (Hlo & Hval & _).
  destruct (loadFile_loaded imread Himg (set_dialog ed false (dialog_spec (first_dialog ed) desk AcceptOpen))
              f m Hf Hlo Hval) as (img & Hl & Himg0 & _).
  specialize (Himg0 H0). subst img.
  eexists _, _. cbn [run]. unfold enabled at 1. rewrite Hc. cbn [negb andb step].
  rewrite open_eq. cbn [open_loop]. rewrite Hl. cbn -[pyramid_spec MaxScale MinScale bgr2rgb Relevel save].
  unfold enabled. fields. rewrite Hc. cbn [negb andb step]. rewrite save_eq. fields.
  cbn [map save_loop]. unfold saveFile. rewrite Hg. fields.
  split; [reflexivity | split; [reflexivity | apply bgr2rgb_involutive]].
Qed.

Lemma new_window_reachable `{Resize} imread write_ok desk :
  reachable imread write_ok desk (Editor_new MinMaxPyramid_new).
Proof. apply (reach_main _ _ _ []). reflexivity. Qed.

Lemma open_save_roundtrip_witness :
  ((forall f m, read_blocks4 f = Some m -> loaded_ok m) /\
   reachable read_blocks4 (fun _ => true) desk0 (Editor_new MinMaxPyramid_new) /\
   closed (Editor_new MinMaxPyramid_new) = false /\ slider_value (Editor_new MinMaxPyramid_new) = 0 /\
   read_blocks4 "in.png"%string = Some PyramidTests.blocks4 /\
   (fun _ : string => true) (selectedFile (dialog_spec false desk0 AcceptSave) "out") = true) /\
  exists ed' img,
    run read_blocks4 (fun _ => true) desk0 (Editor_new MinMaxPyramid_new)
      [EvOpen ["in.png"%string]; EvSave ["out"%string]] = Some ed' /\
    written ed' = (selectedFile (dialog_spec false desk0 AcceptSave) "out", img) ::
                  written (Editor_new MinMaxPyramid_new) /\
    ImageEq (bgr2rgb img) PyramidTests.blocks4.
Proof.
  refine (conj (conj read_blocks4_ok (conj (new_window_reachable _ _ _)
            (conj eq_refl (conj eq_refl (conj eq_refl eq_refl))))) _).
  apply (open_save_roundtrip read_blocks4 (fun _ => true) desk0);
    first [exact read_blocks4_ok | apply new_window_reachable | reflexivity].
Defined.

(** ** Unreadable files *)

(** C27 Error paths of loading.  If every file picked in [Open...] fails to
    load ([cv::imread] returns an empty image), the window is unchanged
    except that batch mode ends and the dialog is recorded: same pyramid,
    slider and image.  With two
    arguments whose input does not load, [main] exits with code 1. *)
Theorem unreadable_files `{Resize} imread write_ok desk ed picks prog fin fout :
  Forall (fun f => imread f = None) picks ->
  step imread write_ok desk ed (EvOpen picks) =
    Some (set_batch (set_dialog ed false (dialog_spec (first_dialog ed) desk AcceptOpen)) false
            (batch_input_file_ ed) (batch_output_file_ ed)) /\
  (imread fin = None -> main_ imread [prog; fin; fout] = Some (inr 1)).
Proof.
  intros Hall. split.
  - cbn [step]. rewrite open_eq.
    assert (Hl : forall ed, open_loop imread ed picks = Some ed).
    { intros ed'. induction Hall as [|f fs Hf _ IH]; [reflexivity|].
      cbn. unfold loadFile. rewrite Hf. exact IH. }
    now rewrite Hl.
  - intros Hf. unfold main_, runAsBatch, loadFile. now rewrite Hf.
Qed.

Lemma unreadable_files_witness :
  Forall (fun f => (fun _ : string => @None (Mat Z)) f = None) ["a.png"%string] /\
  step (fun _ => None) (fun _ => true) desk0 (Editor_new MinMaxPyramid_new) (EvOpen ["a.png"%string]) =
    Some (set_batch (set_dialog (Editor_new MinMaxPyramid_new) false
                       (dialog_spec (first_dialog (Editor_new MinMaxPyramid_new)) desk0 AcceptOpen)) false
            (batch_input_file_ (Editor_new MinMaxPyramid_new))
            (batch_output_file_ (Editor_new MinMaxPyramid_new))) /\
  ((fun _ : string => @None (Mat Z)) "in.png"%string = None ->
   main_ (fun _ => None) ["undersee"%string; "in.png"%string; "out.jpg"%string] = Some (inr 1)).
Proof.
  assert (Hall : Forall (fun f => (fun _ : string => @None (Mat Z)) f = None) ["a.png"%string])
    by (repeat constructor).
  split; [exact Hall | exact (unreadable_files (fun _ => None) (fun _ => true) desk0 _ _ _ _ _ Hall)].
Defined.

(** ** File dialogs *)

(** The dialogs a window has shown, newest first: none before the first
    [Open] or [Save], then fresh dialogs configured by
    [initializeImageFileDialog], of which only the oldest, the first of the
    process, has a start directory. *)
Definition dialogs_ok (desk : Desktop) (ed : Editor) : Prop :=
  (first_dialog ed = true /\ dialogs ed = []) \/
  (first_dialog ed = false /\ exists modes m0,
     dialogs ed = map (dialog_spec false desk) modes ++ [dialog_spec true desk m0]).

Section DialogProofs.

Context `{Resize}.
Variable imread : string -> option (Mat Z).
Variable write_ok : string -> bool.
Variable desktop : Desktop.

(** The handlers other than [open] and [save] leave the dialog state. *)
Definition same_dialogs (ed ed' : Editor) : Prop :=
  first_dialog ed' = first_dialog ed /\ dialogs ed' = dialogs ed.

Lemma dialogs_ok_same ed ed' : same_dialogs ed ed' -> dialogs_ok desktop ed -> dialogs_ok desktop ed'.
Proof. intros [E1 E2]. unfold dialogs_ok. now rewrite E1, E2. Qed.

Lemma same_dialogs_trans a b c : same_dialogs a b -> same_dialogs b c -> same_dialogs a c.
Proof. unfold same_dialogs. intros [-> ->] [-> ->]. auto. Qed.

Lemma setValue_dialogs ed v ed' : setValue ed v = Some ed' -> same_dialogs ed ed'.
Proof.
  unfold setValue, localitySliderChanged. intros Hs.
  case_match; [now simplify_eq|]. destruct (Relevel _ _); cbn in Hs; simplify_eq. now split.
Qed.

Lemma setRange_dialogs ed lo hi ed' : setRange ed lo hi = Some ed' -> same_dialogs ed ed'.
Proof.
  unfold setRange. intros Hs. case_match; [now simplify_eq|].
  apply setValue_dialogs in Hs. exact Hs.
Qed.

Lemma loadFile_dialogs ed f ed' ok : loadFile imread ed f = Some (ed', ok) -> same_dialogs ed ed'.
Proof.
  unfold loadFile. intros Hl. destruct (imread f); [|now simplify_eq].
  destruct (PreProcess _ _); cbn in Hl; [|discriminate].
  destruct (setRange _ _ _) as [ed1|] eqn:E1; cbn in Hl; [|discriminate].
  destruct (setValue ed1 0) as [ed2|] eqn:E2; cbn in Hl; simplify_eq.
  apply setRange_dialogs in E1. apply setValue_dialogs in E2.
  destruct E1 as [A1 B1], E2 as [A2 B2]. split; cbn in *; congruence.
Qed.

Lemma open_loop_dialogs picks : forall ed ed',
  open_loop imread ed picks = Some ed' -> same_dialogs ed ed'.
Proof.
  induction picks as [|f fs IH]; intros ed ed' Hl; cbn in Hl; [simplify_eq; now split|].
  destruct (loadFile imread ed f) as [[ed1 ok]|] eqn:E; cbn in Hl; [|discriminate].
  apply loadFile_dialogs in E. destruct ok; [simplify_eq; exact E|].
  exact (same_dialogs_trans _ _ _ E (IH _ _ Hl)).
Qed.

Lemma save_loop_dialogs names : forall ed, same_dialogs ed (save_loop write_ok ed names).
Proof.
  induction names as [|f fs IH]; intros ed; cbn; [now split|].
  unfold saveFile. destruct (write_ok f); cbn; [now split | apply IH].
Qed.

Lemma keyPressEvent_dialogs ed k : same_dialogs ed (keyPressEvent write_ok ed k).
Proof. unfold keyPressEvent, saveFile. destruct (batch_mode_ ed), k; try destruct (write_ok (batch_output_file_ ed)); now split. Qed.

(** Showing a dialog adds the one [initializeImageFileDialog] configures. *)
Lemma set_dialog_ok ed m :
  dialogs_ok desktop ed ->
  dialogs_ok desktop (set_dialog ed false (dialog_spec (first_dialog ed) desktop m)).
Proof.
  unfold dialogs_ok. cbn [set_dialog first_dialog dialogs].
  intros [[-> ->] | [-> (modes & m0 & ->)]]; right; split; auto.
  - now exists [], m.
  - now exists (m :: modes), m0.
Qed.

Lemma step_dialogs ed ev ed' :
  dialogs_ok desktop ed -> step imread write_ok desktop ed ev = Some ed' -> dialogs_ok desktop ed'.
Proof.
  intros Hd Hs. destruct ev as [picks | picks | v | k |]; cbn [step] in Hs.
  - rewrite open_eq in Hs.
    destruct (open_loop _ _ _) as [ed1|] eqn:E; cbn in Hs; simplify_eq.
    apply open_loop_dialogs in E. destruct E as [E1 E2].
    eapply dialogs_ok_same; [|apply (set_dialog_ok ed AcceptOpen Hd)]. split; fields; congruence.
  - rewrite save_eq in Hs. simplify_eq.
    eapply dialogs_ok_same; [apply save_loop_dialogs | apply set_dialog_ok, Hd].
  - eapply dialogs_ok_same; [apply (setValue_dialogs _ _ _ Hs) | exact Hd].
  - simplify_eq. eapply dialogs_ok_same; [apply keyPressEvent_dialogs | exact Hd].
  - simplify_eq. eapply dialogs_ok_same; [now split | exact Hd].
Qed.

Lemma main_dialogs argv ed : main_ imread argv = Some (inl ed) -> dialogs_ok desktop ed.
Proof.
  unfold main_. intros Hm.
  assert (H0 : dialogs_ok desktop (Editor_new MinMaxPyramid_new)) by (left; split; reflexivity).
  destruct argv as [|a [|fin [|fout [|x rest]]]]; try (simplify_eq; exact H0).
  unfold runAsBatch in Hm.
  destruct (loadFile _ _ _) as [[ed1 ok]|] eqn:E; cbn in Hm; [|discriminate].
  apply loadFile_dialogs in E. destruct ok; simplify_eq.
  eapply dialogs_ok_same; [exact E|]. exact H0.
Qed.

End DialogProofs.

(** C22 The file dialogs of every reachable window are configured as
    [initializeImageFileDialog] means them to be.  Only the first dialog of
    the process gets a start directory: the last Pictures location of the
    desktop, or the current directory when there is none.  Every later
    dialog has none.  Each dialog has the accept mode of its action, and
    only save dialogs have the default suffix ["jpg"]. *)
Theorem reachable_dialogs `{Resize} imread write_ok desk ed :
  reachable imread write_ok desk ed -> dialogs_ok desk ed.
Proof.
  induction 1 as [argv ed Hm | ed ev ed' _ IH _ Hs].
  - exact (main_dialogs imread desk argv ed Hm).
  - exact (step_dialogs imread write_ok desk ed ev ed' IH Hs).
Qed.

Lemma reachable_dialogs_witness :
  reachable read_blocks4 (fun _ => true) desk0 blocks4_window /\ dialogs_ok desk0 blocks4_window.
Proof.
  split; [exact blocks4_window_reachable|].
  exact (reachable_dialogs read_blocks4 (fun _ => true) desk0 blocks4_window blocks4_window_reachable).
Defined.

(** C21 [Save...] writes the current image to the first name the user
    accepts that can be written.  A name whose file part has no suffix gets
    [.jpg] from the dialog's default suffix, so every file [Save] writes
    has a suffix.  When no name can be written, nothing is written. *)
Theorem save_file_names `{Resize} write_ok desk ed picks :
  let jpg g := if has_char "." (fileName g) then g else (g ++ ".jpg")%string in
  written (save write_ok desk ed picks) =
    match find (fun g => write_ok (jpg g)) picks with
    | Some g => (jpg g, image_ ed) :: written ed
    | None => written ed
    end /\
  forall name img, In (name, img) (written (save write_ok desk ed picks)) ->
    In (name, img) (written ed) \/ (has_char "." (fileName name) = true /\ img = image_ ed).
Proof.
  intros jpg. rewrite save_eq.
  set (ed1 := set_dialog ed false (dialog_spec (first_dialog ed) desk AcceptSave)).
  assert (E : written (save_loop write_ok ed1
                 (map (selectedFile (dialog_spec (first_dialog ed) desk AcceptSave)) picks)) =
              match find (fun g => write_ok (jpg g)) picks with
              | Some g => (jpg g, image_ ed) :: written ed
              | None => written ed
              end).
  { assert (Hi : image_ ed1 = image_ ed /\ written ed1 = written ed) by (split; reflexivity).
    clearbody ed1. revert ed1 Hi. induction picks as [|g gs IH]; intros ed1 [Hi Hw]; cbn; [exact Hw|].
    unfold saveFile. rewrite selectedFile_save. fold (jpg g).
    destruct (write_ok (jpg g)); cbn; [now rewrite Hi, Hw | now apply IH]. }
  split; [exact E|]. rewrite E. intros name img Hin.
  destruct (find _ picks) as [g|]; [|now left].
  destruct Hin as [Hg | Hin]; [right | now left].
  injection Hg as <- <-. split; [|reflexivity].
  unfold jpg. rewrite <- (selectedFile_save false desk g). apply selectedFile_save_suffix.
Qed.

(** C20 In batch mode, Space saves to the output file named on the command
    line and closes the window, but [saveFile]'s result is ignored (lines
    186-188).  When the write fails the window closes all the same and
    nothing is written: the batch edit is lost.  The output name gets no
    default suffix, since no dialog is involved. *)
Theorem batch_space_write_failure `{Resize} imread write_ok desk ed :
  batch_mode_ ed = true -> closed ed = false ->
  exists ed', enabled ed (EvKey Key_Space) = true /\
    step imread write_ok desk ed (EvKey Key_Space) = Some ed' /\ closed ed' = true /\
    written ed' = (if write_ok (batch_output_file_ ed)
                   then (batch_output_file_ ed, image_ ed) :: written ed else written ed).
Proof.
  intros Hb Hc. eexists. unfold enabled. rewrite Hc. split; [reflexivity|].
  cbn [step]. unfold keyPressEvent. rewrite Hb. split; [reflexivity|].
  unfold close, saveFile. destruct (write_ok (batch_output_file_ ed)); fields; auto.
Qed.

(** The batch window [main] opens for [undersee in.png out]. *)
Definition batch_window : Editor :=
  match main_ read_blocks4 ["undersee"; "in.png"; "out"]%string with
  | Some (inl ed) => ed
  | _ => Editor_new MinMaxPyramid_new
  end.

Lemma batch_space_write_failure_witness :
  (batch_mode_ batch_window = true /\ closed batch_window = false) /\
  exists ed', enabled batch_window (EvKey Key_Space) = true /\
    step read_blocks4 (fun _ => false) desk0 batch_window (EvKey Key_Space) = Some ed' /\
    closed ed' = true /\
    written ed' = (if (fun _ : string => false) (batch_output_file_ batch_window)
                   then (batch_output_file_ batch_window, image_ batch_window) :: written batch_window
                   else written batch_window).
Proof.
  assert (Hb : batch_mode_ batch_window = true /\ closed batch_window = false)
    by (vm_compute; split; reflexivity).
  split; [exact Hb|].
  exact (batch_space_write_failure read_blocks4 (fun _ => false) desk0 batch_window (proj1 Hb) (proj2 Hb)).
Defined.

(** ** What the window shows, and what batch mode writes *)

(** C14 The image on screen always matches the slider: at a position
    [v <> 0] it is the relevel at [MaxScale - v].  At position 0 it is the
    image the pyramid was built from, or the relevel at [MaxScale] once the
    slider has moved and come back to 0. *)
Theorem display_matches_slider `{Resize} imread write_ok desk ed :
  (forall f m, imread f = Some m -> loaded_ok m) ->
  reachable imread write_ok desk ed -> scroll_visible ed = true ->
  (slider_value ed <> 0 ->
   Relevel (pyramid_ ed) (MaxScale (pyramid_ ed) - slider_value ed) = Some (image_ ed)) /\
  (slider_value ed = 0 ->
   pyramid_ ed = pyramid_spec (image_ ed) \/ Relevel (pyramid_ ed) (MaxScale (pyramid_ ed)) = Some (image_ ed)).
Proof.
  intros Himg Hr Hv. destruct (reachable_inv imread write_ok desk Himg ed Hr) as (_ & _ & Hvis).
  destruct (Hvis Hv) as (m & _ & Hp & _ & _ & Hne & H0). split; [exact Hne|].
  intros E. destruct (H0 E) as [<- | Hs]; [left; exact Hp | right; exact Hs].
Qed.

Lemma display_matches_slider_witness :
  ((forall f m, read_blocks4 f = Some m -> loaded_ok m) /\
   reachable read_blocks4 (fun _ => true) desk0 blocks4_window /\ scroll_visible blocks4_window = true) /\
  (slider_value blocks4_window <> 0 ->
   Relevel (pyramid_ blocks4_window) (MaxScale (pyramid_ blocks4_window) - slider_value blocks4_window) =
   Some (image_ blocks4_window)) /\
  (slider_value blocks4_window = 0 ->
   pyramid_ blocks4_window = pyramid_spec (image_ blocks4_window) \/
   Relevel (pyramid_ blocks4_window) (MaxScale (pyramid_ blocks4_window)) = Some (image_ blocks4_window)).
Proof.
  assert (Hv : scroll_visible blocks4_window = true) by (vm_compute; reflexivity).
  split; [split; [exact read_blocks4_ok | split; [exact blocks4_window_reachable | exact Hv]]|].
  apply (display_matches_slider read_blocks4 (fun _ => true) desk0);
    [exact read_blocks4_ok | exact blocks4_window_reachable | exact Hv].
Defined.

Section BatchProofs.

Context `{Resize}.
Variable imread : string -> option (Mat Z).
Variable write_ok : string -> bool.
Variable desktop : Desktop.
Hypothesis imread_ok : forall f m, imread f = Some m -> loaded_ok m.

(** A slider move changes only the slider and the images. *)
Lemma setValue_frame ed v ed' :
  setValue ed v = Some ed' ->
  batch_mode_ ed' = batch_mode_ ed /\ batch_output_file_ ed' = batch_output_file_ ed /\
  closed ed' = closed ed /\ written ed' = written ed /\ pyramid_ ed' = pyramid_ ed /\
  scroll_visible ed' = scroll_visible ed.
Proof.
  unfold setValue, localitySliderChanged. intros Hs.
  case_match; [simplify_eq; now repeat split|].
  destruct (Relevel _ _); cbn in Hs; simplify_eq. now repeat split.
Qed.

Lemma run_slides_frame vs : forall ed ed',
  run imread write_ok desktop ed (map EvSlide vs) = Some ed' ->
  batch_mode_ ed' = batch_mode_ ed /\ batch_output_file_ ed' = batch_output_file_ ed /\
  closed ed' = closed ed /\ written ed' = written ed /\ pyramid_ ed' = pyramid_ ed /\
  scroll_visible ed' = scroll_visible ed.
Proof.
  induction vs as [|v vs IH]; intros ed ed' Hr; cbn [map run] in Hr; [simplify_eq; now repeat split|].
  destruct (enabled ed (EvSlide v)); [|now apply IH].
  cbn [step] in Hr. destruct (setValue ed v) as [ed1|] eqn:E; cbn in Hr; [|discriminate].
  apply setValue_frame in E. apply IH in Hr. intuition congruence.
Qed.

(** From a reachable state every event list runs to a reachable state. *)
Lemma run_reachable evs : forall ed,
  reachable imread write_ok desktop ed ->
  exists ed', run imread write_ok desktop ed evs = Some ed' /\ reachable imread write_ok desktop ed'.
Proof.
  induction evs as [|ev evs IH]; intros ed Hr; cbn [run]; [eauto|].
  destruct (enabled ed ev) eqn:Hen; [|now apply IH].
  destruct (step_inv imread write_ok desktop imread_ok ed ev
              (reachable_inv imread write_ok desktop imread_ok ed Hr) Hen) as (ed1 & Hs & _).
  rewrite Hs. apply IH. eapply reach_step; eauto.
Qed.

End BatchProofs.

(** C15 Batch mode end to end ([main.cc] lines 30-41 with
    [Editor::runAsBatch] and [keyPressEvent]).  [undersee in out] loads
    [in]; after any slider moves, Space writes exactly one file, [out], and
    closes the window.  The image written is the one on screen when Space
    was pressed: the pyramid is that of the loaded image, a slider position
    [v <> 0] gives the relevel at [MaxScale - v], and without slider moves
    it is the loaded image itself, in RGB order. *)
Theorem batch_writes_display `{Resize} imread write_ok desk prog fin fout m vs :
  (forall f m, imread f = Some m -> loaded_ok m) -> imread fin = Some m -> write_ok fout = true ->
  exists ed0 ed1 ed, main_ imread [prog; fin; fout] = Some (inl ed0) /\
    run imread write_ok desk ed0 (map EvSlide vs) = Some ed1 /\
    run imread write_ok desk ed1 [EvKey Key_Space] = Some ed /\
    closed ed = true /\ written ed = [(fout, image_ ed1)] /\
    pyramid_ ed1 = pyramid_spec (bgr2rgb m) /\
    (slider_value ed1 <> 0 ->
     Relevel (pyramid_ ed1) (MaxScale (pyramid_ ed1) - slider_value ed1) = Some (image_ ed1)) /\
    (vs = [] -> image_ ed1 = bgr2rgb m).
Proof.
  intros Himg Hf Hw.
  destruct (loadFile_loaded imread Himg (set_batch (Editor_new MinMaxPyramid_new) true fin fout) fin m Hf
              eq_refl ltac:(cbn; lia)) as (img & Hl & H0 & _).
  specialize (H0 eq_refl). subst img.
  set (ed0 := set_shown _) in Hl.
  assert (Hm : main_ imread [prog; fin; fout] = Some (inl ed0))
    by (unfold main_, runAsBatch; rewrite Hl; reflexivity).
  assert (Hr0 : reachable imread write_ok desk ed0) by (eapply reach_main; exact Hm).
  destruct (run_reachable imread write_ok desk Himg (map EvSlide vs) ed0 Hr0) as (ed1 & Hr1 & Hreach1).
  destruct (run_slides_frame imread write_ok desk vs ed0 ed1 Hr1) as (Eb & Eo & Ec & Ew & Ep & Ev).
  exists ed0, ed1. eexists. split; [exact Hm | split; [exact Hr1|]].
  cbn [run]. unfold enabled. rewrite Ec. cbn [negb andb step]. unfold keyPressEvent. rewrite Eb.
  cbn [batch_mode_ ed0 set_shown set_images set_slider set_loaded set_batch Editor_new].
  unfold close, saveFile. rewrite Eo. cbn [batch_output_file_ ed0 set_shown set_images set_slider set_loaded set_batch].
  rewrite Hw. cbn [fst]. fields.
  split; [reflexivity|]. split; [reflexivity|]. split; [rewrite Ew; reflexivity|].
  split; [exact Ep|].
  destruct (reachable_inv imread write_ok desk Himg ed1 Hreach1) as (_ & _ & Hvis).
  destruct (Hvis ltac:(rewrite Ev; reflexivity)) as (m' & _ & _ & _ & _ & Hne & _).
  split; [exact Hne|].
  intros ->. cbn in Hr1. injection Hr1 as <-. reflexivity.
Qed.

Lemma batch_writes_display_witness :
  ((forall f m, read_blocks4 f = Some m -> loaded_ok m) /\
   read_blocks4 "in.png"%string = Some PyramidTests.blocks4 /\ (fun _ : string => true) "out.png"%string = true) /\
  exists ed0 ed1 ed, main_ read_blocks4 ["undersee"; "in.png"; "out.png"]%string = Some (inl ed0) /\
    run read_blocks4 (fun _ => true) desk0 ed0 (map EvSlide [1]) = Some ed1 /\
    run read_blocks4 (fun _ => true) desk0 ed1 [EvKey Key_Space] = Some ed /\
    closed ed = true /\ written ed = [("out.png"%string, image_ ed1)] /\
    pyramid_ ed1 = pyramid_spec (bgr2rgb PyramidTests.blocks4) /\
    (slider_value ed1 <> 0 ->
     Relevel (pyramid_ ed1) (MaxScale (pyramid_ ed1) - slider_value ed1) = Some (image_ ed1)) /\
    ([1] = [] -> image_ ed1 = bgr2rgb PyramidTests.blocks4).
Proof.
  refine (conj (conj read_blocks4_ok (conj eq_refl eq_refl)) _).
  exact (batch_writes_display read_blocks4 (fun _ => true) desk0 "undersee" "in.png" "out.png"
           PyramidTests.blocks4 [1] read_blocks4_ok eq_refl eq_refl).
Defined.
